(** * Pizza Restaurant API

    A shallow embedding of [server/models/pizza.py] (the [Pizza] model and
    its pricing, rating, customization, special-offer and serialisation
    methods), of [server/models/restaurant.py] (the [Restaurant] model and
    its two serialisations) and of
    [server/controllers/restaurant_pizza_controller.py] (the handler of
    [POST /restaurant_pizzas]), with the properties of all three.

    Python objects are mutable: every method is a function from the object
    before the call to an [outcome], which carries the object after the call
    together with the returned value or the raised exception.  The clock read
    by [datetime.utcnow()] is an explicit argument [now].

    Python's [float] is IEEE 754 binary64.  The methods are written over an
    interface [PyFloat] of the arithmetic they use, whose instance
    [binary64] is the arithmetic CPython executes (Rocq's primitive floats).
    A property that rests on comparisons alone is proved for every
    arithmetic, so for binary64; a property that rests on the values
    computed is proved for binary64 itself, each operation rounding to
    nearest with ties to even, from the specification of the operations
    ([SpecFloat]).

    The customization options go through [json.dumps] and [json.loads],
    which are modelled on the values of [pyvalue]. *)

From Stdlib Require Import ZArith QArith Qround Qabs Qpower Floats.
From Stdlib Require Import List String Ascii Bool Lia Lqa Permutation.
From Stdlib Require Import DecimalString.
From Stdlib Require DecimalFacts DecimalPos.
Import ListNotations.

Set Warnings "-register-all,-inexact-float".

Local Open Scope string_scope.
Local Open Scope Z_scope.

(** ** Exceptions and outcomes *)

(** The exception classes that occur.  [OtherException] stands for any other
    subclass of [Exception] (an [IntegrityError] of the persistence layer,
    say); [NonException] for a [BaseException] that is not an [Exception]
    ([KeyboardInterrupt], [SystemExit]). *)
Inductive exn : Type :=
| ValueError (msg : string)
| TypeError (msg : string)
| KeyError (key : string)
| ZeroDivisionError (msg : string)
| OtherException (cls msg : string)
| NonException (cls : string).

(** [isinstance(e, ValueError)] *)
Definition is_ValueError (e : exn) : bool :=
  match e with ValueError _ => true | _ => false end.

(** [isinstance(e, Exception)] *)
Definition is_Exception (e : exn) : bool :=
  match e with NonException _ => false | _ => true end.

(** [str(e)]; [str] of a [KeyError] is the [repr] of its key. *)
Definition str_exn (e : exn) : string :=
  match e with
  | ValueError m | TypeError m | ZeroDivisionError m | OtherException _ m => m
  | KeyError k => "'" ++ k ++ "'"
  | NonException _ => ""
  end.

(** The result of calling a method on an object of type [S]: the object after
    the call, and what the call returned or raised. *)
Inductive outcome (S A : Type) : Type :=
| Returned (a : A) (self : S)
| Raised (e : exn) (self : S).
Arguments Returned {S A} a self.
Arguments Raised {S A} e self.

Definition state_after {S A : Type} (o : outcome S A) : S :=
  match o with Returned _ s | Raised _ s => s end.

(** A naive UTC [datetime], as microseconds on the time line. *)
Definition datetime : Type := Z.

(** ** The arithmetic of Python floats *)

Class PyFloat (F : Type) : Type := {
  (** the float written as a decimal literal, or converted from an [int]
      (an [int] too large for a float, on which Python raises
      [OverflowError], is far beyond an Integer column) *)
  of_Q : Q -> F;
  fadd : F -> F -> F;
  fsub : F -> F -> F;
  fmul : F -> F -> F;
  (** [a / b] for [b] other than zero (Python raises on a zero divisor
      before dividing, see [py_div]) *)
  fdiv : F -> F -> F;
  (** [a < b], [a <= b] and [a == 0] *)
  flt : F -> F -> bool;
  fle : F -> F -> bool;
  fis_zero : F -> bool;
  (** [round(a, 2)] *)
  fround2 : F -> F
}.

Definition of_int {F : Type} `{PyFloat F} (n : Z) : F := of_Q (inject_Z n).

(** What the comparisons of the methods rely on: [a < b] excludes [a >= b]
    (which is [b <= a]). *)
Class PyFloatOrder (F : Type) `{PyFloat F} : Prop := {
  flt_not_ge : forall a b : F, flt a b = true -> fle b a = false
}.

(** *** Rounding to an integer *)

(** [round] goes to the nearest multiple, a tie to the even one. *)
Definition round_half_even (q : Q) : Z :=
  let f := Qfloor q in
  let d := (q - inject_Z f)%Q in
  match (d ?= 1 # 2)%Q with
  | Lt => f
  | Gt => f + 1
  | Eq => if Z.even f then f else f + 1
  end.

(** *** binary64 *)

Definition Z2SF (z : Z) : spec_float :=
  match z with
  | Z0 => S754_zero false
  | Zpos p => S754_finite false p 0
  | Zneg p => S754_finite true p 0
  end.

(** The float nearest to a rational (ties to even): the correctly rounded
    quotient of numerator and denominator.  This is how Python reads a float
    literal and converts an [int]. *)
Definition b64_of_Q (q : Q) : float :=
  SF2Prim (SFdiv prec emax (Z2SF (Qnum q)) (S754_finite false (Qden q) 0)).

(** [round(x, 2)] on a float: the decimal with two places nearest to the
    exact value of [x], a tie going to the even one, and of that decimal the
    nearest float.  Zeros, infinities and NaN round to themselves. *)
Definition b64_round2 (x : float) : float :=
  match Prim2SF x with
  | S754_finite s m e =>
      let v := (inject_Z (Zpos m) * Qpower 2 e)%Q in
      match round_half_even (v * 100) with
      | Zpos k => SF2Prim (SFdiv prec emax (S754_finite s k 0) (S754_finite false 100 0))
      | _ => if s then PrimFloat.neg_zero else PrimFloat.zero
      end
  | _ => x
  end.

#[export] Instance binary64 : PyFloat float := {
  of_Q := b64_of_Q;
  fadd := PrimFloat.add;
  fsub := PrimFloat.sub;
  fmul := PrimFloat.mul;
  fdiv := PrimFloat.div;
  flt := PrimFloat.ltb;
  fle := PrimFloat.leb;
  fis_zero := fun x => PrimFloat.eqb x PrimFloat.zero;
  fround2 := b64_round2
}.

(** *** The value of a float, and rounding to nearest *)

(** Powers of two, as rationals. *)
Definition pow2 (e : Z) : Q := Qpower 2 e.

(** The rational [y] lies at location [l] above the integer [m]: on it, or
    between it and its successor, below, at or above the middle. *)
Definition located (y : Q) (m : Z) (l : location) : Prop :=
  match l with
  | loc_Exact => (y == inject_Z m)%Q
  | loc_Inexact Lt => (inject_Z m < y /\ y < inject_Z m + (1 # 2))%Q
  | loc_Inexact Eq => (y == inject_Z m + (1 # 2))%Q
  | loc_Inexact Gt => (inject_Z m + (1 # 2) < y /\ y < inject_Z m + 1)%Q
  end.

(** What it is for [f] to be the positive rational [a], rounded to the
    nearest float of binary64 and given the sign [s]: [E] is the exponent of
    the floats around [a], and [k] the integer nearest to [a / 2 ^ E]. *)
Definition rounds (s : bool) (a : Q) (f : spec_float) : Prop :=
  exists E k : Z,
    -1074 <= E /\ 0 <= k
    /\ (a < pow2 (E + 53))%Q
    /\ (-1074 < E -> (pow2 (E + 52) <= a)%Q)
    /\ (inject_Z k - (1 # 2) <= a / pow2 E <= inject_Z k + (1 # 2))%Q
    /\ ((k = 0 /\ f = S754_zero s)
        \/ (exists m e, f = S754_finite s m e
                        /\ bounded prec emax m e = true
                        /\ (inject_Z (Zpos m) * pow2 e == inject_Z k * pow2 E)%Q)
        \/ (f = S754_infinity s /\ (pow2 1024 <= inject_Z k * pow2 E)%Q)).

(** The rational that a float stands for; zero for the infinities and NaN. *)
Definition SF2Q (f : spec_float) : Q :=
  match f with
  | S754_finite s m e =>
      if s then (- (inject_Z (Zpos m) * pow2 e))%Q else (inject_Z (Zpos m) * pow2 e)%Q
  | _ => 0%Q
  end.

(** A zero or a finite float. *)
Definition SFfinite (f : spec_float) : bool :=
  match f with
  | S754_zero _ | S754_finite _ _ _ => true
  | _ => false
  end.

(** A representable number: [my * 2 ^ ey] with [my] of at most 53 bits and
    [ey] no less than -1074. *)
Definition representable (my ey : Z) : Prop := 0 <= my < 2 ^ 53 /\ -1074 <= ey.

(** The magnitude of a float. *)
Definition SFmag (f : spec_float) : Q :=
  match f with
  | S754_finite _ m e => (inject_Z (Zpos m) * pow2 e)%Q
  | _ => 0%Q
  end.

(** The sign bit of a float. *)
Definition SFsign (f : spec_float) : bool :=
  match f with
  | S754_zero s | S754_infinity s | S754_finite s _ _ => s
  | S754_nan => false
  end.

(** The float [f] is the rational [v] rounded to nearest. *)
Definition rounded (v : Q) (f : spec_float) : Prop :=
  ((v == 0)%Q -> exists s, f = S754_zero s)
  /\ ((0 < v)%Q -> rounds false v f)
  /\ ((v < 0)%Q -> rounds true (- v) f).

Definition signed (s : bool) (q : Q) : Q := if s then (- q)%Q else q.

(** The rational that a float stands for; zero for an infinity or NaN. *)
Definition B2Q (x : float) : Q := SF2Q (Prim2SF x).

(** A zero or a finite float: not an infinity, not NaN. *)
Definition finite (x : float) : bool := SFfinite (Prim2SF x).

(** [+inf] *)
Definition is_pinf (x : float) : Prop := Prim2SF x = S754_infinity false.

(** [+inf], or a finite float that is at least [L]. *)
Definition at_least (L : Q) (x : float) : Prop :=
  is_pinf x \/ (finite x = true /\ (L <= B2Q x)%Q).

(** ** Python values *)

(** The values that travel through JSON: what [request.get_json()] yields and
    what the customization options hold.  A [dict] keeps its items in
    insertion order.  A [str] is a [string] with one character per code
    point (code points below U+0100).  [PyObject] is an object of any other
    class (a [set], [bytes], a [datetime]); floats are left out. *)
Inductive pyvalue : Type :=
| PyNone
| PyBool (b : bool)
| PyInt (n : Z)
| PyStr (s : string)
| PyList (l : list pyvalue)
| PyDict (d : list (pyvalue * pyvalue))
| PyObject (cls : string).

(** [isinstance(v, dict)] *)
Definition is_dict (v : pyvalue) : bool :=
  match v with PyDict _ => true | _ => false end.

(** [d[key]] for a string [key] on a dict: a [str] key equals no key of
    another type. *)
Fixpoint dict_get (d : list (pyvalue * pyvalue)) (key : string) : option pyvalue :=
  match d with
  | [] => None
  | (PyStr k, v) :: d' => if String.eqb key k then Some v else dict_get d' key
  | _ :: d' => dict_get d' key
  end.

(** [v[key]] for a string [key] on any value. *)
Definition subscript (v : pyvalue) (key : string) : exn + pyvalue :=
  match v with
  | PyDict d =>
      match dict_get d key with
      | Some x => inr x
      | None => inl (KeyError key)
      end
  | PyStr _ => inl (TypeError "string indices must be integers")
  | PyList _ => inl (TypeError "list indices must be integers or slices, not str")
  | _ => inl (TypeError "object is not subscriptable")
  end.

(** ** The json module *)

(** The characters with a role in JSON text. *)
Definition dquote : ascii := "034"%char.
Definition backslash : ascii := "\"%char.

(** [' \t\n\r'], the whitespace of the decoder *)
Definition is_ws (c : ascii) : bool :=
  (c =? " ")%char || (c =? "009")%char || (c =? "010")%char || (c =? "013")%char.

Definition is_digit (c : ascii) : bool :=
  (48 <=? N_of_ascii c)%N && (N_of_ascii c <=? 57)%N.

Fixpoint skip_ws (s : string) : string :=
  match s with
  | String c s' => if is_ws c then skip_ws s' else s
  | EmptyString => s
  end.

(** [sep.join(l)] *)
Fixpoint join (sep : string) (l : list string) : string :=
  match l with
  | [] => ""
  | [x] => x
  | x :: l' => x ++ sep ++ join sep l'
  end.

(** *** Encoding: [json.dumps] with its default options *)

Definition hex_digit (n : N) : ascii :=
  match n with
  | 0 => "0" | 1 => "1" | 2 => "2" | 3 => "3" | 4 => "4" | 5 => "5" | 6 => "6"
  | 7 => "7" | 8 => "8" | 9 => "9" | 10 => "a" | 11 => "b" | 12 => "c"
  | 13 => "d" | 14 => "e" | _ => "f"
  end%N%char.

(** One character of a string under [ensure_ascii]: the quote, the backslash
    and the five short escapes, [\u00XX] for whatever else is not printable
    ASCII, and the character itself otherwise. *)
Definition escape_char (c : ascii) : string :=
  if (c =? dquote)%char then String backslash (String dquote "")
  else if (c =? backslash)%char then String backslash (String backslash "")
  else if (c =? "008")%char then String backslash "b"
  else if (c =? "012")%char then String backslash "f"
  else if (c =? "010")%char then String backslash "n"
  else if (c =? "013")%char then String backslash "r"
  else if (c =? "009")%char then String backslash "t"
  else if (N_of_ascii c <? 32)%N || (126 <? N_of_ascii c)%N then
    String backslash
      (String "u" (String "0" (String "0"
         (String (hex_digit (N_of_ascii c / 16))
            (String (hex_digit (N_of_ascii c mod 16)) "")))))
  else String c "".

Fixpoint escape (s : string) : string :=
  match s with
  | EmptyString => ""
  | String c s' => escape_char c ++ escape s'
  end.

(** [encode_basestring_ascii(s)] *)
Definition encode_str (s : string) : string :=
  String dquote (escape s ++ String dquote "").

(** [int.__repr__(n)] *)
Definition repr_int (n : Z) : string := NilZero.string_of_int (Z.to_int n).

(** The key of an item as the encoder writes it. *)
Definition encode_key (k : pyvalue) : exn + string :=
  match k with
  | PyStr s => inr (encode_str s)
  | PyBool true => inr (encode_str "true")
  | PyBool false => inr (encode_str "false")
  | PyNone => inr (encode_str "null")
  | PyInt n => inr (encode_str (repr_int n))
  | PyList _ =>
      inl (TypeError "keys must be str, int, float, bool or None, not list")
  | PyDict _ =>
      inl (TypeError "keys must be str, int, float, bool or None, not dict")
  | PyObject cls =>
      inl (TypeError ("keys must be str, int, float, bool or None, not " ++ cls))
  end.

(** The texts of the items of a list, or the first error among them. *)
Fixpoint encode_items (enc : pyvalue -> exn + string) (l : list pyvalue)
    : exn + list string :=
  match l with
  | [] => inr []
  | x :: l' =>
      match enc x with
      | inl e => inl e
      | inr t =>
          match encode_items enc l' with
          | inl e => inl e
          | inr ts => inr (t :: ts)
          end
      end
  end.

(** The texts [key: value] of the items of a dict, or the first error. *)
Fixpoint encode_members (enc : pyvalue -> exn + string) (d : list (pyvalue * pyvalue))
    : exn + list string :=
  match d with
  | [] => inr []
  | (k, x) :: d' =>
      match encode_key k with
      | inl e => inl e
      | inr kt =>
          match enc x with
          | inl e => inl e
          | inr t =>
              match encode_members enc d' with
              | inl e => inl e
              | inr ts => inr ((kt ++ ": " ++ t) :: ts)
              end
          end
      end
  end.

Fixpoint encode (v : pyvalue) : exn + string :=
  match v with
  | PyNone => inr "null"
  | PyBool true => inr "true"
  | PyBool false => inr "false"
  | PyInt n => inr (repr_int n)
  | PyStr s => inr (encode_str s)
  | PyList l =>
      match encode_items encode l with
      | inl e => inl e
      | inr ts => inr ("[" ++ join ", " ts ++ "]")
      end
  | PyDict d =>
      match encode_members encode d with
      | inl e => inl e
      | inr ts => inr ("{" ++ join ", " ts ++ "}")
      end
  | PyObject cls =>
      inl (TypeError ("Object of type " ++ cls ++ " is not JSON serializable"))
  end.

Definition json_dumps (v : pyvalue) : exn + string := encode v.

(** *** Decoding: [json.loads] with its default options *)

(** What a scan of the text gives: a value and the text after it; no value
    here ([StopIteration]); a [JSONDecodeError]; a document that denotes a
    value outside [pyvalue] (a float, a code point above U+00FF); or the fuel
    of the recursion used up. *)
Inductive scan (A : Type) : Type :=
| Got (a : A) (rest : string)
| NoValue
| Failed (msg : string)
| Unmodelled
| Exhausted.
Arguments Got {A} a rest.
Arguments NoValue {A}.
Arguments Failed {A} msg.
Arguments Unmodelled {A}.
Arguments Exhausted {A}.

Definition hex_value (c : ascii) : option N :=
  let n := N_of_ascii c in
  if (48 <=? n)%N && (n <=? 57)%N then Some (n - 48)%N
  else if (97 <=? n)%N && (n <=? 102)%N then Some (n - 87)%N
  else if (65 <=? n)%N && (n <=? 70)%N then Some (n - 55)%N
  else None.

(** The character of a short escape. *)
Definition unescape (c : ascii) : option ascii :=
  if (c =? dquote)%char then Some dquote
  else if (c =? backslash)%char then Some backslash
  else if (c =? "/")%char then Some "/"%char
  else if (c =? "b")%char then Some "008"%char
  else if (c =? "f")%char then Some "012"%char
  else if (c =? "n")%char then Some "010"%char
  else if (c =? "r")%char then Some "013"%char
  else if (c =? "t")%char then Some "009"%char
  else None.

(** [scanstring], from after the opening quote, in strict mode. *)
Fixpoint scanstring (s : string) : scan string :=
  match s with
  | EmptyString => Failed "Unterminated string starting at"
  | String c rest =>
      if (c =? dquote)%char then Got "" rest
      else if (c =? backslash)%char then
        match rest with
        | EmptyString => Failed "Unterminated string starting at"
        | String "u" (String h1 (String h2 (String h3 (String h4 rest')))) =>
            match hex_value h1, hex_value h2, hex_value h3, hex_value h4 with
            | Some a, Some b, Some c', Some d =>
                let n := (((a * 16 + b) * 16 + c') * 16 + d)%N in
                if (n <? 256)%N then
                  match scanstring rest' with
                  | Got t r => Got (String (ascii_of_N n) t) r
                  | other => other
                  end
                else Unmodelled
            | _, _, _, _ => Failed "Invalid \uXXXX escape"
            end
        | String "u" _ => Failed "Invalid \uXXXX escape"
        | String e rest' =>
            match unescape e with
            | Some c' =>
                match scanstring rest' with
                | Got t r => Got (String c' t) r
                | other => other
                end
            | None => Failed "Invalid \escape"
            end
        end
      else if (N_of_ascii c <? 32)%N then Failed "Invalid control character at"
      else
        match scanstring rest with
        | Got t r => Got (String c t) r
        | other => other
        end
  end.

(** The longest run of digits at the head of the text, and what follows. *)
Fixpoint digits (s : string) : string * string :=
  match s with
  | String c s' =>
      if is_digit c then let (ds, rest) := digits s' in (String c ds, rest)
      else ("", s)
  | EmptyString => ("", s)
  end.

(** The text goes on with a fraction or an exponent: the number is a
    float. *)
Definition float_follows (s : string) : bool :=
  match s with
  | String "." (String c _) => is_digit c
  | String e (String c rest) =>
      ((e =? "e")%char || (e =? "E")%char)
      && (is_digit c
          || (((c =? "+")%char || (c =? "-")%char)
              && match rest with String c' _ => is_digit c' | _ => false end))
  | _ => false
  end.

(** [int(ds)] for a run of digits *)
Definition int_of_digits (ds : string) : Z :=
  match NilEmpty.uint_of_string ds with
  | Some u => Z.of_uint u
  | None => 0
  end.

(** The number at the head of the text: an optional minus sign, then a
    zero or a run of digits that starts with another digit; a float when a
    fraction or an exponent follows. *)
Definition scan_number (s : string) : scan pyvalue :=
  let (neg, s1) :=
    match s with
    | String "-" s' => (true, s')
    | _ => (false, s)
    end in
  match s1 with
  | String c s2 =>
      if is_digit c then
        let (ds, rest) := if (c =? "0")%char then ("", s2) else digits s2 in
        if float_follows rest then Unmodelled
        else
          let n := int_of_digits (String c ds) in
          Got (PyInt (if neg then - n else n)) rest
      else NoValue
  | EmptyString => NoValue
  end.

(** [s.startswith(p)], with what follows [p] *)
Fixpoint strip_prefix (p s : string) : option string :=
  match p, s with
  | EmptyString, _ => Some s
  | String a p', String b s' => if (a =? b)%char then strip_prefix p' s' else None
  | _, EmptyString => None
  end.

(** [d[k] = v] *)
Fixpoint dict_set (d : list (pyvalue * pyvalue)) (k : string) (v : pyvalue)
    : list (pyvalue * pyvalue) :=
  match d with
  | [] => [(PyStr k, v)]
  | (PyStr k', v') :: d' =>
      if (k =? k')%string then (PyStr k', v) :: d' else (PyStr k', v') :: dict_set d' k v
  | item :: d' => item :: dict_set d' k v
  end.

(** [dict(pairs)] *)
Definition dict_of_pairs (pairs : list (string * pyvalue)) : list (pyvalue * pyvalue) :=
  fold_left (fun d kv => dict_set d (fst kv) (snd kv)) pairs [].

Fixpoint scan_once (fuel : nat) (s : string) : scan pyvalue :=
  match fuel with
  | O => Exhausted
  | S fuel =>
      match s with
      | EmptyString => NoValue
      | String c rest =>
          if (c =? dquote)%char then
            match scanstring rest with
            | Got t r => Got (PyStr t) r
            | NoValue => NoValue
            | Failed m => Failed m
            | Unmodelled => Unmodelled
            | Exhausted => Exhausted
            end
          else if (c =? "{")%char then
            match skip_ws rest with
            | String c1 r =>
                if (c1 =? "}")%char then Got (PyDict []) r
                else if (c1 =? dquote)%char then
                  match scan_members fuel r with
                  | Got pairs r' => Got (PyDict (dict_of_pairs pairs)) r'
                  | NoValue => NoValue
                  | Failed m => Failed m
                  | Unmodelled => Unmodelled
                  | Exhausted => Exhausted
                  end
                else Failed "Expecting property name enclosed in double quotes"
            | EmptyString => Failed "Expecting property name enclosed in double quotes"
            end
          else if (c =? "[")%char then
            match skip_ws rest with
            | String c1 r =>
                if (c1 =? "]")%char then Got (PyList []) r
                else
                  match scan_items fuel (String c1 r) with
                  | Got vs r' => Got (PyList vs) r'
                  | NoValue => NoValue
                  | Failed m => Failed m
                  | Unmodelled => Unmodelled
                  | Exhausted => Exhausted
                  end
            | EmptyString => Failed "Expecting value"
            end
          else
            match strip_prefix "null" s, strip_prefix "true" s, strip_prefix "false" s with
            | Some r, _, _ => Got PyNone r
            | _, Some r, _ => Got (PyBool true) r
            | _, _, Some r => Got (PyBool false) r
            | None, None, None =>
                match scan_number s with
                | NoValue =>
                    match strip_prefix "NaN" s, strip_prefix "Infinity" s,
                          strip_prefix "-Infinity" s with
                    | None, None, None => NoValue
                    | _, _, _ => Unmodelled
                    end
                | other => other
                end
            end
      end
  end

(** The loop of [JSONArray], from the first item on. *)
with scan_items (fuel : nat) (s : string) : scan (list pyvalue) :=
  match fuel with
  | O => Exhausted
  | S fuel =>
      match scan_once fuel s with
      | Got v r =>
          match skip_ws r with
          | String c r' =>
              if (c =? "]")%char then Got [v] r'
              else if (c =? ",")%char then
                match scan_items fuel (skip_ws r') with
                | Got vs r'' => Got (v :: vs) r''
                | other => other
                end
              else Failed "Expecting ',' delimiter"
          | EmptyString => Failed "Expecting ',' delimiter"
          end
      | NoValue => Failed "Expecting value"
      | Failed m => Failed m
      | Unmodelled => Unmodelled
      | Exhausted => Exhausted
      end
  end

(** The loop of [JSONObject], from after the opening quote of a key on. *)
with scan_members (fuel : nat) (s : string) : scan (list (string * pyvalue)) :=
  match fuel with
  | O => Exhausted
  | S fuel =>
      match scanstring s with
      | Got key r =>
          match skip_ws r with
          | String c1 r1 =>
              if (c1 =? ":")%char then
                match scan_once fuel (skip_ws r1) with
                | Got v r2 =>
                    match skip_ws r2 with
                    | String c2 r3 =>
                        if (c2 =? "}")%char then Got [(key, v)] r3
                        else if (c2 =? ",")%char then
                          match skip_ws r3 with
                          | String c3 r4 =>
                              if (c3 =? dquote)%char then
                                match scan_members fuel r4 with
                                | Got pairs r5 => Got ((key, v) :: pairs) r5
                                | other => other
                                end
                              else
                                Failed "Expecting property name enclosed in double quotes"
                          | EmptyString =>
                              Failed "Expecting property name enclosed in double quotes"
                          end
                        else Failed "Expecting ',' delimiter"
                    | EmptyString => Failed "Expecting ',' delimiter"
                    end
                | NoValue => Failed "Expecting value"
                | Failed m => Failed m
                | Unmodelled => Unmodelled
                | Exhausted => Exhausted
                end
              else Failed "Expecting ':' delimiter"
          | EmptyString => Failed "Expecting ':' delimiter"
          end
      | NoValue => NoValue
      | Failed m => Failed m
      | Unmodelled => Unmodelled
      | Exhausted => Exhausted
      end
  end.

(** [json.loads(s)]: one value, whitespace around it, and nothing else; a
    [JSONDecodeError] is a [ValueError].  The scan gets two units of fuel for
    each character of the text, which is never used up
    ([json_loads_fuel]).  There is no answer ([None]) for a document that
    denotes a value outside the model. *)
Definition json_loads (s : string) : option (exn + pyvalue) :=
  match scan_once (S (2 * String.length s)) (skip_ws s) with
  | Got v rest =>
      match skip_ws rest with
      | EmptyString => Some (inr v)
      | _ => Some (inl (ValueError "Extra data"))
      end
  | NoValue => Some (inl (ValueError "Expecting value"))
  | Failed m => Some (inl (ValueError m))
  | Unmodelled | Exhausted => None
  end.

(** ** The Pizza model *)

Section PizzaModel.

Context {F : Type} `{PyFloat F}.

(** [a / b] on floats raises [ZeroDivisionError] on a zero divisor. *)
Definition py_div (a b : F) : exn + F :=
  if fis_zero b then inl (ZeroDivisionError "float division by zero")
  else inr (fdiv a b).

(** The columns of the [pizzas] table, as a loaded row has them.  A nullable
    column that the methods test against [None] is an [option]. *)
Record Pizza : Type := {
  id : Z;
  name : string;
  ingredients : string;
  price : F;
  description : option string;
  image_url : option string;
  category : string;
  size : string;
  is_available : bool;
  rating : F;
  rating_count : Z;
  prep_time : option Z;
  allergens : option string;
  calories : option Z;
  protein : option F;
  carbohydrates : option F;
  fat : option F;
  sodium : option Z;
  customization_options : option string;
  order_count : Z;
  last_ordered_at : option datetime;
  is_special : bool;
  special_price : option F;
  special_start_date : option datetime;
  special_end_date : option datetime
}.

(** Attribute assignments [self.x = v]. *)
Definition set_is_available (v : bool) (p : Pizza) : Pizza :=
  let 'Build_Pizza a b c d e f g h _ j k l m n o q r s t u w x y z zz := p in
  Build_Pizza a b c d e f g h v j k l m n o q r s t u w x y z zz.
Definition set_rating (v : F) (p : Pizza) : Pizza :=
  let 'Build_Pizza a b c d e f g h i _ k l m n o q r s t u w x y z zz := p in
  Build_Pizza a b c d e f g h i v k l m n o q r s t u w x y z zz.
Definition set_rating_count (v : Z) (p : Pizza) : Pizza :=
  let 'Build_Pizza a b c d e f g h i j _ l m n o q r s t u w x y z zz := p in
  Build_Pizza a b c d e f g h i j v l m n o q r s t u w x y z zz.
Definition set_customization (v : option string) (p : Pizza) : Pizza :=
  let 'Build_Pizza a b c d e f g h i j k l m n o q r s _ u w x y z zz := p in
  Build_Pizza a b c d e f g h i j k l m n o q r s v u w x y z zz.
Definition set_order_count (v : Z) (p : Pizza) : Pizza :=
  let 'Build_Pizza a b c d e f g h i j k l m n o q r s t _ w x y z zz := p in
  Build_Pizza a b c d e f g h i j k l m n o q r s t v w x y z zz.
Definition set_last_ordered_at (v : option datetime) (p : Pizza) : Pizza :=
  let 'Build_Pizza a b c d e f g h i j k l m n o q r s t u _ x y z zz := p in
  Build_Pizza a b c d e f g h i j k l m n o q r s t u v x y z zz.
Definition set_is_special (v : bool) (p : Pizza) : Pizza :=
  let 'Build_Pizza a b c d e f g h i j k l m n o q r s t u w _ y z zz := p in
  Build_Pizza a b c d e f g h i j k l m n o q r s t u w v y z zz.
Definition set_special_price (v : option F) (p : Pizza) : Pizza :=
  let 'Build_Pizza a b c d e f g h i j k l m n o q r s t u w x _ z zz := p in
  Build_Pizza a b c d e f g h i j k l m n o q r s t u w x v z zz.
Definition set_special_start_date (v : option datetime) (p : Pizza) : Pizza :=
  let 'Build_Pizza a b c d e f g h i j k l m n o q r s t u w x y _ zz := p in
  Build_Pizza a b c d e f g h i j k l m n o q r s t u w x y v zz.
Definition set_special_end_date (v : option datetime) (p : Pizza) : Pizza :=
  let 'Build_Pizza a b c d e f g h i j k l m n o q r s t u w x y z _ := p in
  Build_Pizza a b c d e f g h i j k l m n o q r s t u w x y z v.

Definition VALID_SIZES : list string := ["small"; "medium"; "large"].

Definition SIZE_PRICE_MULTIPLIERS : list (string * F) :=
  [("small", of_Q 1.0); ("medium", of_Q 1.5); ("large", of_Q 2.0)].

(** [size in VALID_SIZES] *)
Definition in_sizes (s : string) (l : list string) : bool :=
  existsb (String.eqb s) l.

(** [d[key]] on a dict with string keys *)
Fixpoint getitem {A : Type} (d : list (string * A)) (key : string) : exn + A :=
  match d with
  | [] => inl (KeyError key)
  | (k, v) :: d' => if String.eqb key k then inr v else getitem d' key
  end.

Definition get_price_for_size (self : Pizza) (size : string) : outcome Pizza F :=
  if negb (in_sizes size VALID_SIZES) then
    Raised (ValueError ("Invalid size: " ++ size)) self
  else
    match getitem SIZE_PRICE_MULTIPLIERS size with
    | inl e => Raised e self
    | inr m => Returned (fmul (price self) m) self
    end.

Definition toggle_availability (self : Pizza) : outcome Pizza unit :=
  Returned tt (set_is_available (negb (is_available self)) self).

(** The division is by the count already incremented, an [int]: zero there
    raises [ZeroDivisionError] after the count was assigned. *)
Definition update_rating (self : Pizza) (new_rating : F) : outcome Pizza unit :=
  if flt new_rating (of_int 0) || flt (of_int 5) new_rating then
    Raised (ValueError "Rating must be between 0 and 5") self
  else
    let total_rating :=
      fadd (fmul (rating self) (of_int (rating_count self))) new_rating in
    let self := set_rating_count (rating_count self + 1) self in
    if rating_count self =? 0 then
      Raised (ZeroDivisionError "float division by zero") self
    else
      Returned tt (set_rating (fdiv total_rating (of_int (rating_count self))) self).

Definition get_customization_options (self : Pizza)
    : option (outcome Pizza pyvalue) :=
  match customization_options self with
  | None | Some EmptyString => Some (Returned (PyDict []) self)
  | Some blob =>
      match json_loads blob with
      | Some (inr v) => Some (Returned v self)
      | Some (inl e) => Some (Raised e self)
      | None => None
      end
  end.

Definition set_customization_options (self : Pizza) (options : pyvalue)
    : outcome Pizza unit :=
  if negb (is_dict options) then
    Raised (ValueError "Customization options must be a dictionary") self
  else
    match json_dumps options with
    | inl e => Raised e self
    | inr blob => Returned tt (set_customization (Some blob) self)
    end.

Definition increment_order_count (now : datetime) (self : Pizza) : outcome Pizza unit :=
  let self := set_order_count (order_count self + 1) self in
  Returned tt (set_last_ordered_at (Some now) self).

Definition get_current_price (now : datetime) (self : Pizza) : outcome Pizza F :=
  match is_special self, special_price self with
  | true, Some sp =>
      if match special_start_date self with None => true | Some s => s <=? now end
         && match special_end_date self with None => true | Some e => now <=? e end
      then Returned sp self
      else Returned (price self) self
  | _, _ => Returned (price self) self
  end.

Definition get_discount_percentage (now : datetime) (self : Pizza) : outcome Pizza F :=
  match is_special self, special_price self with
  | true, Some sp =>
      if match special_start_date self with None => true | Some s => s <=? now end
         && match special_end_date self with None => true | Some e => now <=? e end
      then
        match py_div (fsub (price self) sp) (price self) with
        | inl e => Raised e self
        | inr q => Returned (fround2 (fmul q (of_int 100))) self
        end
      else Returned (of_Q 0.0) self
  | _, _ => Returned (of_Q 0.0) self
  end.

(** The guard is [special_price >= self.price], that is
    [self.price <= special_price]. *)
Definition set_special_offer (self : Pizza) (special_price : F)
    (start_date end_date : option datetime) : outcome Pizza unit :=
  if fle (price self) special_price then
    Raised (ValueError "Special price must be less than regular price") self
  else
    let self := set_is_special true self in
    let self := set_special_price (Some special_price) self in
    let self := set_special_start_date start_date self in
    let self := set_special_end_date end_date self in
    Returned tt self.

Definition end_special_offer (self : Pizza) : outcome Pizza unit :=
  let self := set_is_special false self in
  let self := set_special_price None self in
  let self := set_special_start_date None self in
  let self := set_special_end_date None self in
  Returned tt self.

End PizzaModel.

Arguments Pizza F : clear implicits.

(** ** RestaurantPizza *)

Record RestaurantPizza : Type := {
  rp_price : Z;
  rp_pizza_id : Z;
  rp_restaurant_id : Z
}.

(** Modelled from the spec: the constructor of [RestaurantPizza]
    ([server/models/restaurant_pizza.py] is not among the sources).  The spec
    (4.3): "Construction requires price, pizza_id, restaurant_id.  Validation:
    price must be within [1, 30]; otherwise fails with InvalidArgument
    (price must be between 1 and 30) surfaced to the caller." *)
Definition new_RestaurantPizza (price pizza_id restaurant_id : Z) : exn + RestaurantPizza :=
  if (1 <=? price) && (price <=? 30) then
    inr {| rp_price := price; rp_pizza_id := pizza_id; rp_restaurant_id := restaurant_id |}
  else
    inl (ValueError "price must be between 1 and 30").

(** ** The create-association handler *)

(** A computation over a mutable store [S] that may raise. *)
Definition M (S A : Type) : Type := S -> outcome S A.

Definition ret {S A : Type} (a : A) : M S A := fun s => Returned a s.

Definition bind {S A B : Type} (m : M S A) (k : A -> M S B) : M S B :=
  fun s => match m s with
           | Returned a s' => k a s'
           | Raised e s' => Raised e s'
           end.

(** A step that does not touch the store. *)
Definition lift {S A : Type} (r : exn + A) : M S A :=
  fun s => match r with inl e => Raised e s | inr a => Returned a s end.

Notation "x <- m ;; k" := (bind m (fun x => k))
  (at level 61, m at next level, right associativity).

(** [try: body  except ValueError as e: h1(e)  except Exception as e: h2(e)];
    an exception that neither clause matches propagates. *)
Definition try_except {S A : Type} (body : M S A) (on_value_error on_exception : exn -> M S A) : M S A :=
  fun s => match body s with
           | Returned a s' => Returned a s'
           | Raised e s' =>
               if is_ValueError e then on_value_error e s'
               else if is_Exception e then on_exception e s'
               else Raised e s'
           end.

(** [{"errors": [m]}] *)
Definition errors_body (m : string) : pyvalue :=
  PyDict [(PyStr "errors", PyList [PyStr m])].

Section Controller.

(** What the handler imports: the model class with its constructor and
    [to_dict], the session of the persistence layer, and Flask's [jsonify].
    [RP] is a [RestaurantPizza] object, [Session] the state of [db.session],
    [Body] a rendered response body. *)
Variables RP Session Body : Type.
Variable RestaurantPizza_init : pyvalue -> pyvalue -> pyvalue -> exn + RP.
Variable session_add : RP -> M Session unit.
Variable session_commit : M Session unit.
Variable to_dict : RP -> M Session pyvalue.
Variable jsonify : pyvalue -> exn + Body.

(** The request at hand and its [get_json()]: the parsed body, or the
    exception that Flask raises on a request whose body is not JSON. *)
Variable Request : Type.
Variable get_json : Request -> exn + pyvalue.

(** The statements under [try]. *)
Definition create_restaurant_pizza_body (data : pyvalue) : M Session (Body * Z) :=
  price <- lift (subscript data "price") ;;
  pizza_id <- lift (subscript data "pizza_id") ;;
  restaurant_id <- lift (subscript data "restaurant_id") ;;
  restaurant_pizza <- lift (RestaurantPizza_init price pizza_id restaurant_id) ;;
  _ <- session_add restaurant_pizza ;;
  _ <- session_commit ;;
  d <- to_dict restaurant_pizza ;;
  b <- lift (jsonify d) ;;
  ret (b, 201).

(** The handler, from the value [data] that [request.get_json()] returned:
    the response (body and status) or the exception that leaves the
    handler. *)
Definition create_restaurant_pizza (data : pyvalue) : M Session (Body * Z) :=
  try_except (create_restaurant_pizza_body data)
    (fun e => b <- lift (jsonify (errors_body (str_exn e))) ;; ret (b, 400))
    (fun e => b <- lift (jsonify (errors_body "Invalid data")) ;; ret (b, 400)).

(** The view function as Flask calls it: [data = request.get_json()], which
    is not under [try], and then the [try] statement. *)
Definition create_restaurant_pizza_view (request : Request) : M Session (Body * Z) :=
  data <- lift (get_json request) ;;
  create_restaurant_pizza data.

End Controller.

(** An instance of what the handler imports, for running it: the constructor
    of the spec on integer fields, a session that lists the rows committed and
    refuses a row whose pizza or restaurant it does not know, [to_dict] of the
    three fields, and a [jsonify] that renders a value as itself. *)
Record demo_session : Type := {
  known_pizzas : list Z;
  known_restaurants : list Z;
  pending : list RestaurantPizza;
  rows : list RestaurantPizza
}.

Definition demo_init (price pizza_id restaurant_id : pyvalue) : exn + RestaurantPizza :=
  match price, pizza_id, restaurant_id with
  | PyInt p, PyInt i, PyInt r => new_RestaurantPizza p i r
  | _, _, _ => inl (TypeError "an integer is required")
  end.

Definition demo_add (rp : RestaurantPizza) : M demo_session unit :=
  fun s => Returned tt {| known_pizzas := known_pizzas s;
                          known_restaurants := known_restaurants s;
                          pending := pending s ++ [rp];
                          rows := rows s |}.

Definition demo_row_ok (s : demo_session) (rp : RestaurantPizza) : bool :=
  existsb (Z.eqb (rp_pizza_id rp)) (known_pizzas s)
  && existsb (Z.eqb (rp_restaurant_id rp)) (known_restaurants s).

Definition demo_commit : M demo_session unit :=
  fun s => if forallb (demo_row_ok s) (pending s) then
             Returned tt {| known_pizzas := known_pizzas s;
                            known_restaurants := known_restaurants s;
                            pending := [];
                            rows := rows s ++ pending s |}
           else Raised (OtherException "IntegrityError" "FOREIGN KEY constraint failed") s.

Definition demo_to_dict (rp : RestaurantPizza) : M demo_session pyvalue :=
  ret (PyDict [(PyStr "price", PyInt (rp_price rp));
               (PyStr "pizza_id", PyInt (rp_pizza_id rp));
               (PyStr "restaurant_id", PyInt (rp_restaurant_id rp))]).

Definition demo_jsonify (v : pyvalue) : exn + pyvalue := inr v.

Definition demo_handler : pyvalue -> M demo_session (pyvalue * Z) :=
  create_restaurant_pizza RestaurantPizza demo_session pyvalue
    demo_init demo_add demo_commit demo_to_dict demo_jsonify.

(** The seeded store: restaurants 1..3 and pizzas 1..3. *)
Definition seeded : demo_session :=
  {| known_pizzas := [1; 2; 3]; known_restaurants := [1; 2; 3]; pending := []; rows := [] |}.

Definition payload (price pizza_id restaurant_id : Z) : pyvalue :=
  PyDict [(PyStr "price", PyInt price); (PyStr "pizza_id", PyInt pizza_id);
          (PyStr "restaurant_id", PyInt restaurant_id)].

(** A request of the demo: its content type, and its body once parsed if it
    parses.  [get_json] raises as Flask's does: [UnsupportedMediaType] on a
    content type other than JSON, [BadRequest] on a body that is not JSON. *)
Record demo_request : Type := {
  content_type : string;
  parsed : option pyvalue
}.

Definition demo_get_json (r : demo_request) : exn + pyvalue :=
  if negb (content_type r =? "application/json")%string then
    inl (OtherException "UnsupportedMediaType" "415 Unsupported Media Type")
  else
    match parsed r with
    | Some v => inr v
    | None => inl (OtherException "BadRequest" "400 Bad Request")
    end.

Definition demo_view : demo_request -> M demo_session (pyvalue * Z) :=
  create_restaurant_pizza_view RestaurantPizza demo_session pyvalue
    demo_init demo_add demo_commit demo_to_dict demo_jsonify demo_request demo_get_json.

Definition json_request (v : pyvalue) : demo_request :=
  {| content_type := "application/json"; parsed := Some v |}.

(** ** Python strings *)

(** [c.isspace()] for a code point below U+0100: the controls U+0009 to
    U+000D and U+001C to U+001F, the space, U+0085 and U+00A0. *)
Definition isspace (c : ascii) : bool :=
  let n := N_of_ascii c in
  ((9 <=? n) && (n <=? 13) || (28 <=? n) && (n <=? 32) || (n =? 133) || (n =? 160))%N.

(** [s.lstrip()] *)
Fixpoint lstrip (s : string) : string :=
  match s with
  | EmptyString => EmptyString
  | String c s' => if isspace c then lstrip s' else s
  end.

(** [s.rstrip()] *)
Fixpoint rstrip (s : string) : string :=
  match s with
  | EmptyString => EmptyString
  | String c s' =>
      match rstrip s' with
      | EmptyString => if isspace c then EmptyString else String c EmptyString
      | t => String c t
      end
  end.

(** [s.strip()] *)
Definition strip (s : string) : string := rstrip (lstrip s).

(** [s.split(sep)] for a separator of one character: the pieces between the
    separators, empty ones included. *)
Fixpoint split (sep : ascii) (s : string) : list string :=
  match s with
  | EmptyString => [EmptyString]
  | String c s' =>
      if (c =? sep)%char then EmptyString :: split sep s'
      else match split sep s' with
           | t :: ts => String c t :: ts
           | [] => [String c EmptyString]
           end
  end.

(** ** Dates and times *)

(** [n] zeros. *)
Fixpoint zeros (n : nat) : string :=
  match n with
  | O => EmptyString
  | S n' => String "0" (zeros n')
  end.

(** The decimal digits of [n >= 0], padded with zeros to [width]: the
    format [0<width>d]. *)
Definition zero_padded (width : nat) (n : Z) : string :=
  let digits := repr_int n in
  zeros (width - String.length digits) ++ digits.

(** Year, month and day of a day counted from 1970-01-01, in the proleptic
    Gregorian calendar. *)
Definition civil_from_days (days : Z) : Z * Z * Z :=
  let z := days + 719468 in
  let era := z / 146097 in
  let doe := z - era * 146097 in
  let yoe := (doe - doe / 1460 + doe / 36524 - doe / 146096) / 365 in
  let doy := doe - (365 * yoe + yoe / 4 - yoe / 100) in
  let mp := (5 * doy + 2) / 153 in
  let d := doy - (153 * mp + 2) / 5 + 1 in
  let m := if mp <? 10 then mp + 3 else mp - 9 in
  let y := yoe + era * 400 in
  (if m <=? 2 then y + 1 else y, m, d).

(** [t.isoformat()] for a naive [datetime], its microseconds counted from
    1970-01-01T00:00:00: [YYYY-MM-DDTHH:MM:SS], followed by the microseconds
    when they are not zero. *)
Definition isoformat (t : datetime) : string :=
  let us := t mod 1000000 in
  let secs := t / 1000000 in
  let sod := secs mod 86400 in
  let '(y, m, d) := civil_from_days (secs / 86400) in
  zero_padded 4 y ++ "-" ++ zero_padded 2 m ++ "-" ++ zero_padded 2 d
  ++ "T" ++ zero_padded 2 (sod / 3600) ++ ":" ++ zero_padded 2 (sod / 60 mod 60)
  ++ ":" ++ zero_padded 2 (sod mod 60)
  ++ (if us =? 0 then EmptyString else "." ++ zero_padded 6 us).

(** ** Serialisation *)

(** The values of a serialised row: those of [pyvalue] and floats. *)
Inductive pydata (F : Type) : Type :=
| DNone
| DBool (b : bool)
| DInt (n : Z)
| DFloat (x : F)
| DStr (s : string)
| DList (l : list (pydata F))
| DDict (d : list (pydata F * pydata F))
| DObject (cls : string).
Arguments DNone {F}.
Arguments DBool {F} b.
Arguments DInt {F} n.
Arguments DFloat {F} x.
Arguments DStr {F} s.
Arguments DList {F} l.
Arguments DDict {F} d.
Arguments DObject {F} cls.

(** A value without floats among the values with floats. *)
Fixpoint data_of {F : Type} (v : pyvalue) : pydata F :=
  match v with
  | PyNone => DNone
  | PyBool b => DBool b
  | PyInt n => DInt n
  | PyStr s => DStr s
  | PyList l => DList (map data_of l)
  | PyDict d => DDict (map (fun kv => (data_of (fst kv), data_of (snd kv))) d)
  | PyObject cls => DObject cls
  end.

(** [x if x is not None else None] under a constructor: the value of a
    nullable column. *)
Definition nullable {F A : Type} (f : A -> pydata F) (o : option A) : pydata F :=
  match o with
  | Some a => f a
  | None => DNone
  end.

(** [d[key]] for a string [key] on a serialised dict. *)
Fixpoint data_get {F : Type} (d : list (pydata F * pydata F)) (key : string)
    : option (pydata F) :=
  match d with
  | [] => None
  | (DStr k, v) :: d' => if String.eqb key k then Some v else data_get d' key
  | _ :: d' => data_get d' key
  end.

(** [v[key]] on a serialised value. *)
Definition entry {F : Type} (v : pydata F) (key : string) : option (pydata F) :=
  match v with
  | DDict d => data_get d key
  | _ => None
  end.

Section PizzaSerialisation.

Context {F : Type}.

(** A [str] that is empty is falsy, as is [None]. *)
Definition get_allergens_list (self : Pizza F) : outcome (Pizza F) (list string) :=
  match allergens self with
  | None | Some EmptyString => Returned [] self
  | Some a => Returned (map strip (split "," a)) self
  end.

(** The dict is built entry by entry, in the order written; a [datetime] is
    truthy.  Where [get_customization_options] raises, so does [to_dict];
    the result is [None] where that of [get_customization_options] is, on
    stored text beyond what [json_loads] models. *)
Definition to_dict (now : datetime) (self : Pizza F)
    : option (outcome (Pizza F) (pydata F)) :=
  match get_current_price now self with
  | Raised e self => Some (Raised e self)
  | Returned current self =>
      match get_allergens_list self with
      | Raised e self => Some (Raised e self)
      | Returned allergens_list self =>
          match get_customization_options self with
          | None => None
          | Some (Raised e self) => Some (Raised e self)
          | Some (Returned options self) =>
              Some (Returned
                (DDict [
                   (DStr "id", DInt (id self));
                   (DStr "name", DStr (name self));
                   (DStr "ingredients", DStr (ingredients self));
                   (DStr "price", DFloat current);
                   (DStr "original_price", DFloat (price self));
                   (DStr "description", nullable DStr (description self));
                   (DStr "image_url", nullable DStr (image_url self));
                   (DStr "category", DStr (category self));
                   (DStr "size", DStr (size self));
                   (DStr "is_available", DBool (is_available self));
                   (DStr "rating", DFloat (rating self));
                   (DStr "rating_count", DInt (rating_count self));
                   (DStr "prep_time", nullable DInt (prep_time self));
                   (DStr "allergens", DList (map DStr allergens_list));
                   (DStr "nutritional_info", DDict [
                      (DStr "calories", nullable DInt (calories self));
                      (DStr "protein", nullable DFloat (protein self));
                      (DStr "carbohydrates", nullable DFloat (carbohydrates self));
                      (DStr "fat", nullable DFloat (fat self));
                      (DStr "sodium", nullable DInt (sodium self))]);
                   (DStr "customization_options", data_of options);
                   (DStr "popularity", DDict [
                      (DStr "order_count", DInt (order_count self));
                      (DStr "last_ordered_at",
                       nullable (fun t => DStr (isoformat t)) (last_ordered_at self))]);
                   (DStr "special_offer", DDict [
                      (DStr "is_special", DBool (is_special self));
                      (DStr "special_price", nullable DFloat (special_price self));
                      (DStr "special_start_date",
                       nullable (fun t => DStr (isoformat t)) (special_start_date self));
                      (DStr "special_end_date",
                       nullable (fun t => DStr (isoformat t)) (special_end_date self))])])
                self)
          end
      end
  end.

End PizzaSerialisation.

(** ** Restaurant *)

Module Restaurant.

Section Model.

Context {F : Type}.

(** [[rp.pizza.to_dict() for rp in restaurant_pizzas]], where each
    association is given by the pizza it links to ([None] for a link that
    dangles) and [now i] is the instant at which the pizza at position [i] is
    serialised.  [to_dict] assigns nothing, so the pizzas are as before. *)
Fixpoint pizzas_to_dict (now : nat -> datetime) (i : nat)
    (restaurant_pizzas : list (option (Pizza F))) : option (exn + list (pydata F)) :=
  match restaurant_pizzas with
  | [] => Some (inr [])
  | None :: _ =>
      Some (inl (OtherException "AttributeError"
                   "'NoneType' object has no attribute 'to_dict'"))
  | Some pizza :: rest =>
      match to_dict (now i) pizza with
      | None => None
      | Some (Raised e _) => Some (inl e)
      | Some (Returned d _) =>
          match pizzas_to_dict now (S i) rest with
          | None => None
          | Some (inl e) => Some (inl e)
          | Some (inr ds) => Some (inr (d :: ds))
          end
      end
  end.

(** The columns of the [restaurants] table and the relationship
    [restaurant_pizzas], each association with the pizza of its
    relationship [pizza]. *)
Record Restaurant : Type := {
  id : Z;
  name : string;
  address : string;
  restaurant_pizzas : list (option (Pizza F))
}.

Definition to_dict (self : Restaurant) : outcome Restaurant (pydata F) :=
  Returned (DDict [(DStr "id", DInt (id self));
                   (DStr "name", DStr (name self));
                   (DStr "address", DStr (address self))]) self.

Definition to_dict_with_pizzas (now : nat -> datetime) (self : Restaurant)
    : option (outcome Restaurant (pydata F)) :=
  match pizzas_to_dict now 0 (restaurant_pizzas self) with
  | None => None
  | Some (inl e) => Some (Raised e self)
  | Some (inr pizzas) =>
      Some (Returned (DDict [(DStr "id", DInt (id self));
                             (DStr "name", DStr (name self));
                             (DStr "address", DStr (address self));
                             (DStr "pizzas", DList pizzas)]) self)
  end.

End Model.

Arguments Restaurant F : clear implicits.

End Restaurant.

(** ** Vocabulary of the properties *)

(** A pizza as the seed routine would store it once a price is given: every
    column at its default. *)
Definition fresh_pizza {F : Type} `{PyFloat F} (price : F) : Pizza F :=
  {| id := 1; name := "Margherita";
     ingredients := "Dough, Tomato Sauce, Mozzarella, Basil";
     price := price; description := None; image_url := None;
     category := "classic"; size := "medium"; is_available := true;
     rating := of_Q 0.0; rating_count := 0; prep_time := None; allergens := None;
     calories := None; protein := None; carbohydrates := None; fat := None;
     sodium := None; customization_options := None;
     order_count := 0; last_ordered_at := None;
     is_special := false; special_price := None;
     special_start_date := None; special_end_date := None |}.

(** The offer of [self] is active at [now] with price [sp]: switched on,
    priced, and [now] within the bounds that are set. *)
Definition offer_active_at {F : Type} (now : datetime) (self : Pizza F) (sp : F) : Prop :=
  is_special self = true
  /\ special_price self = Some sp
  /\ (forall s, special_start_date self = Some s -> s <= now)
  /\ (forall e, special_end_date self = Some e -> now <= e).

(** Ratings submitted one after the other; a call that raises ends the
    run. *)
Fixpoint rate_all {F : Type} `{PyFloat F} (self : Pizza F) (rs : list F)
    : outcome (Pizza F) unit :=
  match rs with
  | [] => Returned tt self
  | r :: rs' =>
      match update_rating self r with
      | Returned _ self' => rate_all self' rs'
      | Raised e self' => Raised e self'
      end
  end.

(** [0 <= r <= 5] *)
Definition in_rating_range {F : Type} `{PyFloat F} (r : F) : bool :=
  fle (of_int 0) r && fle r (of_int 5).

Definition Qsum (rs : list Q) : Q := fold_right Qplus 0%Q rs.

(** The arithmetic mean of a list of rationals. *)
Definition Qmean (rs : list Q) : Q := (Qsum rs / inject_Z (Z.of_nat (List.length rs)))%Q.

(** A pizza of price 20 on offer at 10 from instant 100 to instant 200. *)
Definition pizza_on_offer : Pizza float :=
  state_after (set_special_offer (fresh_pizza 20%float) 10%float (Some 100) (Some 200)).

(** A pizza of price 30 with an open-ended offer at [-0.001]. *)
Definition pizza_below_zero : Pizza float :=
  state_after (set_special_offer (fresh_pizza 30%float) (-0.001)%float None None).

(** A pizza of price 20 with an open-ended offer at [-5]. *)
Definition pizza_at_minus_five : Pizza float :=
  state_after (set_special_offer (fresh_pizza 20%float) (-5)%float None None).

(** A pizza of price 25 with an open-ended offer at [-0.00125], and one of
    price [+inf] with an open-ended offer at 1. *)
Definition pizza_at_threshold : Pizza float :=
  state_after (set_special_offer (fresh_pizza 25%float) (-0.00125)%float None None).

Definition pizza_priced_infinity : Pizza float :=
  state_after (set_special_offer (fresh_pizza PrimFloat.infinity) 1%float None None).












(** A scan does not end for want of fuel. *)
Definition answers {A : Type} (r : scan A) : Prop := r <> Exhausted.

(** The text left after a scan is shorter than the text scanned. *)
Definition consumes {A : Type} (s : string) (r : scan A) : Prop :=
  forall a rest, r = Got a rest -> (String.length rest < String.length s)%nat.

(** The mapping [{"extra_cheese": True}], a mapping under the integer key 1,
    and a mapping that holds a set. *)
Definition extra_cheese : pyvalue := PyDict [(PyStr "extra_cheese", PyBool true)].



(** A call of one of the methods of a pizza ([get_allergens_list] and
    [to_dict], which assign nothing, are not among them). *)
Inductive pizza_call (F : Type) : Type :=
| CallGetPriceForSize (size : string)
| CallToggleAvailability
| CallUpdateRating (new_rating : F)
| CallGetCustomizationOptions
| CallSetCustomizationOptions (options : pyvalue)
| CallIncrementOrderCount (now : datetime)
| CallGetCurrentPrice (now : datetime)
| CallGetDiscountPercentage (now : datetime)
| CallSetSpecialOffer (special_price : F) (start_date end_date : option datetime)
| CallEndSpecialOffer.
Arguments CallGetPriceForSize {F} size.
Arguments CallToggleAvailability {F}.
Arguments CallUpdateRating {F} new_rating.
Arguments CallGetCustomizationOptions {F}.
Arguments CallSetCustomizationOptions {F} options.
Arguments CallIncrementOrderCount {F} now.
Arguments CallGetCurrentPrice {F} now.
Arguments CallGetDiscountPercentage {F} now.
Arguments CallSetSpecialOffer {F} special_price start_date end_date.
Arguments CallEndSpecialOffer {F}.

(** The pizza after a call, whether the call returned or raised. *)
Definition after_call {F : Type} `{PyFloat F} (self : Pizza F) (c : pizza_call F)
    : Pizza F :=
  match c with
  | CallGetPriceForSize size => state_after (get_price_for_size self size)
  | CallToggleAvailability => state_after (toggle_availability self)
  | CallUpdateRating r => state_after (update_rating self r)
  | CallGetCustomizationOptions =>
      match get_customization_options self with
      | Some o => state_after o
      | None => self
      end
  | CallSetCustomizationOptions options =>
      state_after (set_customization_options self options)
  | CallIncrementOrderCount now => state_after (increment_order_count now self)
  | CallGetCurrentPrice now => state_after (get_current_price now self)
  | CallGetDiscountPercentage now => state_after (get_discount_percentage now self)
  | CallSetSpecialOffer p s e => state_after (set_special_offer self p s e)
  | CallEndSpecialOffer => state_after (end_special_offer self)
  end.

(** The rating is within [0, 5] and the count of ratings is not negative. *)
Definition rating_in_range (self : Pizza float) : Prop :=
  in_rating_range (rating self) = true /\ 0 <= rating_count self.

(** The call submits NaN as a rating. *)
Definition rates_nan (c : pizza_call float) : bool :=
  match c with
  | CallUpdateRating r => PrimFloat.is_nan r
  | _ => false
  end.

(** A pizza rated 0.1 twice. *)
Definition pizza_rated_twice : Pizza float :=
  set_rating 0.1%float (set_rating_count 2 (fresh_pizza 10%float)).

(** Orders placed one after the other, at the instants given. *)
Definition order_all {F : Type} (self : Pizza F) (nows : list datetime)
    : Pizza F :=
  fold_left (fun self now => state_after (increment_order_count now self)) nows self.

(** A special price that is stored passed the guard of [set_special_offer]:
    the price is not [<=] it. *)
Definition offer_below_price {F : Type} `{PyFloat F} (self : Pizza F) : Prop :=
  forall sp, special_price self = Some sp -> fle (price self) sp = false.

(** All the characters of a string are whitespace. *)
Fixpoint blank (s : string) : bool :=
  match s with
  | EmptyString => true
  | String c s' => isspace c && blank s'
  end.

(** The character [c] does not occur in a string. *)
Fixpoint free_of (c : ascii) (s : string) : bool :=
  match s with
  | EmptyString => true
  | String c' s' => negb (c' =? c)%char && free_of c s'
  end.

(** A token as [get_allergens_list] returns them: no comma, and no
    whitespace at either end. *)
Definition token (t : string) : bool := free_of "," t && String.eqb (strip t) t.

(** A token between whitespace. *)
Definition padded (x : string * string * string) : string :=
  fst (fst x) ++ snd (fst x) ++ snd x.

(** How often the character [c] occurs in a string. *)
Fixpoint occurrences (c : ascii) (s : string) : nat :=
  match s with
  | EmptyString => 0%nat
  | String c' s' => ((if (c' =? c)%char then 1 else 0) + occurrences c s')%nat
  end.

(** The keys of a serialised pizza, in the order of [to_dict]. *)
Definition to_dict_keys : list string :=
  ["id"; "name"; "ingredients"; "price"; "original_price"; "description";
   "image_url"; "category"; "size"; "is_available"; "rating"; "rating_count";
   "prep_time"; "allergens"; "nutritional_info"; "customization_options";
   "popularity"; "special_offer"].

(** An association, given by the pizza it links to and its position among
    the associations of its restaurant, serialises to [d]. *)
Definition serialises {F : Type} (now : nat -> datetime)
    (x : option (Pizza F) * nat) (d : pydata F) : Prop :=
  exists pizza,
    fst x = Some pizza
    /\ to_dict (now (snd x)) pizza = Some (Returned d pizza).

(** A pizza given away: price 0.0, with an open-ended offer at -1. *)
Definition pizza_priced_zero : Pizza float :=
  state_after (set_special_offer (fresh_pizza 0%float) (-1)%float None None).

(** A pizza of price 20 with an open-ended offer at 10. *)
Definition pizza_half_price : Pizza float :=
  state_after (set_special_offer (fresh_pizza 20%float) 10%float None None).

(** A row whose [allergens] column holds [a]. *)
Definition with_allergens {F : Type} (a : option string) (p : Pizza F) : Pizza F :=
  let 'Build_Pizza a0 b c d e f g h i j k l _ n o q r s t u w x y z zz := p in
  Build_Pizza a0 b c d e f g h i j k l a n o q r s t u w x y z zz.

(** The first restaurant of the seed, with two pizzas on its menu, the
    second on offer. *)
Definition pizza_palace : Restaurant.Restaurant float :=
  {| Restaurant.id := 1; Restaurant.name := "Pizza Palace";
     Restaurant.address := "123 Main St";
     Restaurant.restaurant_pizzas :=
       [Some (fresh_pizza 10%float); Some pizza_on_offer] |}.

(** A row whose customization options are not JSON. *)
Definition pizza_with_broken_options : Pizza float :=
  set_customization (Some "{") (fresh_pizza 10%float).

(** * Properties *)

(** ** The order of binary64 *)

Lemma SFcompare_Lt_swap (x y : spec_float) :
  SFcompare x y = Some Lt -> SFcompare y x = Some Gt.
Proof.
  destruct x as [sx | sx | | sx mx ex], y as [sy | sy | | sy my ey]; cbn;
    try discriminate;
    try (destruct sx; try destruct sy; cbn; congruence).
  change (PosDef.Pos.compare_cont Eq mx my) with (Pos.compare mx my).
  change (PosDef.Pos.compare_cont Eq my mx) with (Pos.compare my mx).
  rewrite (Z.compare_antisym ex ey), (Pos.compare_antisym mx my).
  destruct sx, sy, (ex ?= ey), (mx ?= my)%positive; cbn; congruence.
Qed.

#[export] Instance binary64_order : PyFloatOrder float.
Proof.
  constructor. intros a b. cbn. rewrite ltb_spec, leb_spec.
  unfold SFltb, SFleb. intros Hlt.
  destruct (SFcompare (Prim2SF a) (Prim2SF b)) as [[ | | ] | ] eqn:E; try discriminate.
  now rewrite (SFcompare_Lt_swap _ _ E).
Qed.

(** ** RestaurantPizza: the price range *)

(** C1.  Constructing a RestaurantPizza with a price outside [1, 30] fails
    with the value error "price must be between 1 and 30"; with a price from 1
    to 30, both ends included, it succeeds and the object holds that price. *)
Theorem new_RestaurantPizza_price_range (price pizza_id restaurant_id : Z) :
  ((price < 1 \/ 30 < price) ->
     new_RestaurantPizza price pizza_id restaurant_id
     = inl (ValueError "price must be between 1 and 30"))
  /\ (1 <= price <= 30 ->
     new_RestaurantPizza price pizza_id restaurant_id
     = inr {| rp_price := price; rp_pizza_id := pizza_id;
              rp_restaurant_id := restaurant_id |}).
Proof.
  unfold new_RestaurantPizza. split; intros Hp.
  - replace ((1 <=? price) && (price <=? 30)) with false; [reflexivity |].
    symmetry. apply andb_false_iff. destruct Hp; [left | right]; lia.
  - replace ((1 <=? price) && (price <=? 30)) with true; [reflexivity |].
    symmetry. apply andb_true_iff. split; lia.
Qed.

Lemma new_RestaurantPizza_boundaries :
  new_RestaurantPizza 0 1 1 = inl (ValueError "price must be between 1 and 30")
  /\ new_RestaurantPizza 31 1 1 = inl (ValueError "price must be between 1 and 30")
  /\ new_RestaurantPizza 1 1 1
     = inr {| rp_price := 1; rp_pizza_id := 1; rp_restaurant_id := 1 |}
  /\ new_RestaurantPizza 30 1 1
     = inr {| rp_price := 30; rp_pizza_id := 1; rp_restaurant_id := 1 |}.
Proof.
  split; [| split; [| split]].
  - apply (proj1 (new_RestaurantPizza_price_range 0 1 1)). lia.
  - apply (proj1 (new_RestaurantPizza_price_range 31 1 1)). lia.
  - apply (proj2 (new_RestaurantPizza_price_range 1 1 1)). lia.
  - apply (proj2 (new_RestaurantPizza_price_range 30 1 1)). lia.
Defined.

(** ** The create-association handler *)

Section ControllerProperties.

Variables RP Session Body : Type.
Variable RestaurantPizza_init : pyvalue -> pyvalue -> pyvalue -> exn + RP.
Variable session_add : RP -> M Session unit.
Variable session_commit : M Session unit.
Variable to_dict : RP -> M Session pyvalue.
Variable jsonify : pyvalue -> exn + Body.

Let body := create_restaurant_pizza_body RP Session Body
              RestaurantPizza_init session_add session_commit to_dict jsonify.
Let handler := create_restaurant_pizza RP Session Body
                 RestaurantPizza_init session_add session_commit to_dict jsonify.

(** The statements under [try] return exactly when the three keys are
    there, the constructor, [add], [commit], [to_dict] and [jsonify] all
    succeed; what they return is the rendered [to_dict] with status 201. *)
Lemma create_restaurant_pizza_body_returns (data : pyvalue) (s s' : Session) (r : Body * Z) :
  body data s = Returned r s' <->
  exists price pizza_id restaurant_id rp s1 s2 d b,
    subscript data "price" = inr price
    /\ subscript data "pizza_id" = inr pizza_id
    /\ subscript data "restaurant_id" = inr restaurant_id
    /\ RestaurantPizza_init price pizza_id restaurant_id = inr rp
    /\ session_add rp s = Returned tt s1
    /\ session_commit s1 = Returned tt s2
    /\ to_dict rp s2 = Returned d s'
    /\ jsonify d = inr b
    /\ r = (b, 201).
Proof.
  unfold body, create_restaurant_pizza_body, bind, lift, ret. split.
  - destruct (subscript data "price") as [? | price]; [discriminate |].
    destruct (subscript data "pizza_id") as [? | pid]; [discriminate |].
    destruct (subscript data "restaurant_id") as [? | rid]; [discriminate |].
    destruct (RestaurantPizza_init price pid rid) as [? | rp] eqn:Ei; [discriminate |].
    destruct (session_add rp s) as [[] s1 | ? ?] eqn:Ea; [| discriminate].
    destruct (session_commit s1) as [[] s2 | ? ?] eqn:Ec; [| discriminate].
    destruct (to_dict rp s2) as [d s3 | ? ?] eqn:Ed; [| discriminate].
    destruct (jsonify d) as [? | b] eqn:Ej; [discriminate |].
    intros [= <- <-]. exists price, pid, rid, rp, s1, s2, d, b. auto 10.
  - intros (price & pid & rid & rp & s1 & s2 & d & b &
            -> & -> & -> & -> & -> & -> & -> & -> & ->). reflexivity.
Qed.

(** C2.  When construction and persistence succeed (and the result
    serializes) the handler answers 201 with the serialized RestaurantPizza;
    when a ValueError with message [m] is raised under [try] it answers 400
    with [{"errors": [m]}]; when any other exception is raised there it
    answers 400 with [{"errors": ["Invalid data"]}]. *)
Theorem create_restaurant_pizza_responses (data : pyvalue) (s : Session) :
  (forall price pizza_id restaurant_id rp s1 s2 s3 d b,
      subscript data "price" = inr price ->
      subscript data "pizza_id" = inr pizza_id ->
      subscript data "restaurant_id" = inr restaurant_id ->
      RestaurantPizza_init price pizza_id restaurant_id = inr rp ->
      session_add rp s = Returned tt s1 ->
      session_commit s1 = Returned tt s2 ->
      to_dict rp s2 = Returned d s3 ->
      jsonify d = inr b ->
      handler data s = Returned (b, 201) s3)
  /\ (forall m s' b,
      body data s = Raised (ValueError m) s' ->
      jsonify (errors_body m) = inr b ->
      handler data s = Returned (b, 400) s')
  /\ (forall e s' b,
      body data s = Raised e s' ->
      is_ValueError e = false ->
      is_Exception e = true ->
      jsonify (errors_body "Invalid data") = inr b ->
      handler data s = Returned (b, 400) s').
Proof.
  split; [| split].
  - intros price pid rid rp s1 s2 s3 d b Hp Hi Hr Hn Ha Hc Hd Hj.
    assert (Hb : body data s = Returned (b, 201) s3).
    { apply create_restaurant_pizza_body_returns.
      exists price, pid, rid, rp, s1, s2, d, b. auto 10. }
    unfold handler, create_restaurant_pizza, try_except. fold body.
    now rewrite Hb.
  - intros m s' b Hb Hj.
    unfold handler, create_restaurant_pizza, try_except. fold body.
    rewrite Hb. cbn. unfold bind, lift, ret. now rewrite Hj.
  - intros e s' b Hb Hv He Hj.
    unfold handler, create_restaurant_pizza, try_except. fold body.
    rewrite Hb, Hv, He. unfold bind, lift, ret. now rewrite Hj.
Qed.

(** An exception that is not an [Exception] leaves the handler. *)
Lemma create_restaurant_pizza_propagates (data : pyvalue) (s s' : Session) (e : exn) :
  body data s = Raised e s' ->
  is_Exception e = false ->
  handler data s = Raised e s'.
Proof.
  intros Hb He. unfold handler, create_restaurant_pizza, try_except. fold body.
  rewrite Hb. destruct e; try discriminate. reflexivity.
Qed.

End ControllerProperties.

(** The handler run on the seeded store: a price in range is stored and
    answered with 201; a price of 99 is answered with 400 and the message of
    the price range; a payload without [pizza_id], and a pizza that the store
    does not know, are answered with 400 and "Invalid data". *)
Lemma create_restaurant_pizza_examples :
  demo_handler (payload 12 1 1) seeded
  = Returned (payload 12 1 1, 201)
      {| known_pizzas := [1; 2; 3]; known_restaurants := [1; 2; 3]; pending := [];
         rows := [{| rp_price := 12; rp_pizza_id := 1; rp_restaurant_id := 1 |}] |}
  /\ demo_handler (payload 99 1 1) seeded
     = Returned (errors_body "price must be between 1 and 30", 400) seeded
  /\ demo_handler (PyDict [(PyStr "price", PyInt 12)]) seeded
     = Returned (errors_body "Invalid data", 400) seeded
  /\ state_after (demo_handler (payload 12 7 1) seeded)
     = {| known_pizzas := [1; 2; 3]; known_restaurants := [1; 2; 3];
          pending := [{| rp_price := 12; rp_pizza_id := 7; rp_restaurant_id := 1 |}];
          rows := [] |}.
Proof.
  pose proof (create_restaurant_pizza_responses RestaurantPizza demo_session pyvalue
                demo_init demo_add demo_commit demo_to_dict demo_jsonify) as T.
  split; [| split; [| split]].
  - refine (proj1 (T (payload 12 1 1) seeded) _ _ _ _ _ _ _ _ _ _ _ _ _ _ _ _ _);
      reflexivity.
  - refine (proj1 (proj2 (T (payload 99 1 1) seeded)) _ _ _ _ _); reflexivity.
  - refine (proj2 (proj2 (T (PyDict [(PyStr "price", PyInt 12)]) seeded))
              (KeyError "pizza_id") _ _ _ _ _ _); reflexivity.
  - reflexivity.
Defined.

(** ** Prices: sizes and special offers *)

Section PriceProperties.

Context {F : Type} `{PyFloat F}.

(** C8.  For each of the sizes small, medium and large [get_price_for_size]
    returns the base price times the multiplier of the size (1.0, 1.5, 2.0)
    and leaves the pizza as it was; for any other string it raises the value
    error. *)
Theorem get_price_for_size_spec (self : Pizza F) (s : string) :
  (s = "small" ->
     get_price_for_size self s = Returned (fmul (price self) (of_Q 1.0)) self)
  /\ (s = "medium" ->
     get_price_for_size self s = Returned (fmul (price self) (of_Q 1.5)) self)
  /\ (s = "large" ->
     get_price_for_size self s = Returned (fmul (price self) (of_Q 2.0)) self)
  /\ (s <> "small" -> s <> "medium" -> s <> "large" ->
     get_price_for_size self s = Raised (ValueError ("Invalid size: " ++ s)) self).
Proof.
  repeat apply conj; try (intros ->; reflexivity).
  intros Hs Hm Hl. unfold get_price_for_size, in_sizes, VALID_SIZES. cbn [existsb].
  apply String.eqb_neq in Hs, Hm, Hl. now rewrite Hs, Hm, Hl.
Qed.

Lemma get_current_price_active (now : datetime) (self : Pizza F) (sp : F) :
  offer_active_at now self sp ->
  get_current_price now self = Returned sp self.
Proof.
  unfold offer_active_at, get_current_price. intros (-> & -> & Hs & He).
  destruct (special_start_date self) as [s |]; destruct (special_end_date self) as [e |];
    cbn;
    repeat match goal with
           | Hx : forall x, Some ?a = Some x -> _ |- _ =>
               specialize (Hx a eq_refl); apply Z.leb_le in Hx; rewrite Hx
           end; reflexivity.
Qed.

Lemma get_current_price_inactive (now : datetime) (self : Pizza F) :
  (forall sp, ~ offer_active_at now self sp) ->
  get_current_price now self = Returned (price self) self.
Proof.
  unfold offer_active_at, get_current_price. intros Hn.
  destruct (is_special self); [| reflexivity].
  destruct (special_price self) as [sp |]; [| reflexivity].
  destruct (special_start_date self) as [s |] eqn:Es;
    destruct (special_end_date self) as [e |] eqn:Ee; cbn;
    try destruct (Z.leb_spec s now); try destruct (Z.leb_spec now e);
    cbn; try reflexivity;
    exfalso; apply (Hn sp); (repeat apply conj); try reflexivity;
    intros ? [= <-]; lia.
Qed.

(** C4.  [get_current_price] returns the special price when the offer is
    active at [now] (switched on, priced, [now] not before a start date that
    is set and not after an end date that is set), and the base price in
    every other case. *)
Theorem get_current_price_spec (now : datetime) (self : Pizza F) :
  (forall sp, offer_active_at now self sp ->
     get_current_price now self = Returned sp self)
  /\ ((forall sp, ~ offer_active_at now self sp) ->
     get_current_price now self = Returned (price self) self).
Proof.
  split.
  - intros sp. apply get_current_price_active.
  - apply get_current_price_inactive.
Qed.

(** The same for the discount: positive only while the offer is active. *)
Lemma get_discount_percentage_inactive (now : datetime) (self : Pizza F) :
  (forall sp, ~ offer_active_at now self sp) ->
  get_discount_percentage now self = Returned (of_Q 0.0) self.
Proof.
  unfold offer_active_at, get_discount_percentage. intros Hn.
  destruct (is_special self); [| reflexivity].
  destruct (special_price self) as [sp |]; [| reflexivity].
  destruct (special_start_date self) as [s |] eqn:Es;
    destruct (special_end_date self) as [e |] eqn:Ee; cbn;
    try destruct (Z.leb_spec s now); try destruct (Z.leb_spec now e);
    cbn; try reflexivity;
    exfalso; apply (Hn sp); (repeat apply conj); try reflexivity;
    intros ? [= <-]; lia.
Qed.

Lemma get_discount_percentage_active (now : datetime) (self : Pizza F) (sp : F) :
  offer_active_at now self sp ->
  get_discount_percentage now self
  = match py_div (fsub (price self) sp) (price self) with
    | inl e => Raised e self
    | inr q => Returned (fround2 (fmul q (of_int 100))) self
    end.
Proof.
  unfold offer_active_at, get_discount_percentage. intros (-> & -> & Hs & He).
  destruct (special_start_date self) as [s |]; destruct (special_end_date self) as [e |];
    cbn;
    repeat match goal with
           | Hx : forall x, Some ?a = Some x -> _ |- _ =>
               specialize (Hx a eq_refl); apply Z.leb_le in Hx; rewrite Hx
           end; reflexivity.
Qed.

Context `{!PyFloatOrder F}.

(** What a successful [set_special_offer] leaves: the four offer fields as
    given, every other field as before. *)
Lemma set_special_offer_ok (self : Pizza F) (p : F) (start_date end_date : option datetime) :
  flt p (price self) = true ->
  set_special_offer self p start_date end_date
  = Returned tt
      (set_special_end_date end_date
         (set_special_start_date start_date
            (set_special_price (Some p) (set_is_special true self)))).
Proof.
  intros Hp. unfold set_special_offer. now rewrite (flt_not_ge _ _ Hp).
Qed.

(** C5.  [set_special_offer] with [p >= price] raises the value error and
    leaves the pizza, so its four offer fields, as it was; with [p < price] it
    returns, the offer is switched on, its price is [p] and its dates are the
    two given (which may be [None]). *)
Theorem set_special_offer_spec (self : Pizza F) (p : F) (start_date end_date : option datetime) :
  (fle (price self) p = true ->
     set_special_offer self p start_date end_date
     = Raised (ValueError "Special price must be less than regular price") self)
  /\ (flt p (price self) = true ->
     exists self',
       set_special_offer self p start_date end_date = Returned tt self'
       /\ is_special self' = true
       /\ special_price self' = Some p
       /\ special_start_date self' = start_date
       /\ special_end_date self' = end_date
       /\ price self' = price self).
Proof.
  split.
  - intros Hp. unfold set_special_offer. now rewrite Hp.
  - intros Hp. eexists. split; [apply set_special_offer_ok; assumption |].
    destruct self; cbn. auto.
Qed.

(** C9.  [set_special_offer] does not compare the two dates: with a start
    date after the end date and [p < price] it returns, and the offer is
    created (switched on, priced [p], with the two dates as given, the base
    price untouched); yet no instant is within the two bounds, so the offer
    is active at none, and from then on, at whatever instant,
    [get_current_price] returns the base price and
    [get_discount_percentage] returns 0.0. *)
Theorem set_special_offer_inverted_window (self : Pizza F) (p : F)
    (start_date end_date : datetime) :
  end_date < start_date ->
  flt p (price self) = true ->
  exists self',
    set_special_offer self p (Some start_date) (Some end_date) = Returned tt self'
    /\ is_special self' = true
    /\ special_price self' = Some p
    /\ special_start_date self' = Some start_date
    /\ special_end_date self' = Some end_date
    /\ price self' = price self
    /\ forall now : datetime,
         ~ (start_date <= now /\ now <= end_date)
         /\ (forall sp, ~ offer_active_at now self' sp)
         /\ get_current_price now self' = Returned (price self) self'
         /\ get_discount_percentage now self' = Returned (of_Q 0.0) self'.
Proof.
  intros Hd Hp. eexists. split; [apply set_special_offer_ok; assumption |].
  repeat (split; [destruct self; reflexivity |]).
  intros now.
  assert (Hn : forall sp,
             ~ offer_active_at now
                 (set_special_end_date (Some end_date)
                    (set_special_start_date (Some start_date)
                       (set_special_price (Some p) (set_is_special true self)))) sp).
  { intros sp (_ & _ & Hs & He). destruct self; cbn in Hs, He.
    specialize (Hs _ eq_refl). specialize (He _ eq_refl). lia. }
  split; [lia |]. split; [exact Hn |]. split.
  - rewrite (get_current_price_inactive now _ Hn). destruct self; reflexivity.
  - apply get_discount_percentage_inactive, Hn.
Qed.

End PriceProperties.

(** *** The price accessors run on binary64 *)

Lemma get_price_for_size_sizes :
  get_price_for_size (fresh_pizza 10%float) "small"
  = Returned 10%float (fresh_pizza 10%float)
  /\ get_price_for_size (fresh_pizza 10%float) "medium"
     = Returned 15%float (fresh_pizza 10%float)
  /\ get_price_for_size (fresh_pizza 10%float) "large"
     = Returned 20%float (fresh_pizza 10%float)
  /\ get_price_for_size (fresh_pizza 10%float) "family"
     = Raised (ValueError "Invalid size: family") (fresh_pizza 10%float).
Proof.
  pose proof (fun s => get_price_for_size_spec (fresh_pizza 10%float) s) as T.
  split; [| split; [| split]].
  - exact (proj1 (T "small") eq_refl).
  - exact (proj1 (proj2 (T "medium")) eq_refl).
  - exact (proj1 (proj2 (proj2 (T "large"))) eq_refl).
  - apply (proj2 (proj2 (proj2 (T "family")))); discriminate.
Defined.

Lemma get_current_price_window :
  get_current_price 150 pizza_on_offer = Returned 10%float pizza_on_offer
  /\ get_current_price 250 pizza_on_offer = Returned 20%float pizza_on_offer
  /\ get_current_price 50 pizza_on_offer = Returned 20%float pizza_on_offer.
Proof.
  split; [| split].
  - apply (proj1 (get_current_price_spec 150 pizza_on_offer)).
    unfold offer_active_at. cbn. repeat apply conj; try reflexivity; intros ? [= <-]; lia.
  - apply (proj2 (get_current_price_spec 250 pizza_on_offer)).
    intros sp (_ & _ & _ & He). specialize (He 200 eq_refl). lia.
  - apply (proj2 (get_current_price_spec 50 pizza_on_offer)).
    intros sp (_ & _ & Hs & _). specialize (Hs 100 eq_refl). lia.
Defined.

(** With price 20 and special price 10 the discount is 50.0 while the offer
    is active and 0.0 outside the window. *)
Example get_discount_percentage_half :
  get_discount_percentage 150 pizza_on_offer = Returned 50%float pizza_on_offer
  /\ get_discount_percentage 250 pizza_on_offer = Returned 0%float pizza_on_offer.
Proof. split; vm_compute; reflexivity. Qed.

Lemma set_special_offer_cases :
  set_special_offer (fresh_pizza 20%float) 20%float None None
  = Raised (ValueError "Special price must be less than regular price")
      (fresh_pizza 20%float)
  /\ exists self',
       set_special_offer (fresh_pizza 20%float) 10%float (Some 100) None
       = Returned tt self'
       /\ is_special self' = true
       /\ special_price self' = Some 10%float
       /\ special_start_date self' = Some 100
       /\ special_end_date self' = None
       /\ price self' = 20%float.
Proof.
  split.
  - apply (proj1 (set_special_offer_spec (fresh_pizza 20%float) 20%float None None)).
    reflexivity.
  - apply (proj2 (set_special_offer_spec (fresh_pizza 20%float) 10%float (Some 100) None)).
    reflexivity.
Defined.

Lemma set_special_offer_inverted_window_run :
  200 < 300
  /\ exists self',
       set_special_offer (fresh_pizza 20%float) 10%float (Some 300) (Some 200)
       = Returned tt self'
       /\ is_special self' = true
       /\ special_price self' = Some 10%float
       /\ special_start_date self' = Some 300
       /\ special_end_date self' = Some 200
       /\ price self' = price (fresh_pizza 20%float)
       /\ forall now : datetime,
            ~ (300 <= now /\ now <= 200)
            /\ (forall sp, ~ offer_active_at now self' sp)
            /\ get_current_price now self' = Returned (price (fresh_pizza 20%float)) self'
            /\ get_discount_percentage now self' = Returned (of_Q 0.0) self'.
Proof.
  split; [lia |].
  exact (set_special_offer_inverted_window (fresh_pizza 20%float) 10%float 300 200
           ltac:(lia) eq_refl).
Defined.

(** ** Ratings *)

Section RatingProperties.

Context {F : Type} `{PyFloat F} `{!PyFloatOrder F}.

Lemma in_rating_range_accepted (r : F) :
  in_rating_range r = true ->
  flt r (of_int 0) || flt (of_int 5) r = false.
Proof.
  unfold in_rating_range. intros [H0 H5]%andb_true_iff.
  apply orb_false_iff. split.
  - destruct (flt r (of_int 0)) eqn:E; [| reflexivity].
    apply flt_not_ge in E. congruence.
  - destruct (flt (of_int 5) r) eqn:E; [| reflexivity].
    apply flt_not_ge in E. congruence.
Qed.

(** One accepted rating: the count goes up by one and the rating becomes
    [(rating * rating_count + new_rating) / (rating_count + 1)]. *)
Lemma update_rating_step (self : Pizza F) (r : F) :
  in_rating_range r = true ->
  rating_count self + 1 <> 0 ->
  update_rating self r
  = Returned tt
      (set_rating
         (fdiv (fadd (fmul (rating self) (of_int (rating_count self))) r)
               (of_int (rating_count self + 1)))
         (set_rating_count (rating_count self + 1) self)).
Proof.
  intros Hr Hc. unfold update_rating. rewrite (in_rating_range_accepted r Hr).
  destruct self; cbn in *. apply Z.eqb_neq in Hc. now rewrite Hc.
Qed.

(** An out-of-range rating is refused and nothing changes. *)
Lemma update_rating_refused (self : Pizza F) (r : F) :
  flt r (of_int 0) || flt (of_int 5) r = true ->
  update_rating self r = Raised (ValueError "Rating must be between 0 and 5") self.
Proof. intros Hr. unfold update_rating. now rewrite Hr. Qed.

Lemma rate_all_count (rs : list F) :
  forall self : Pizza F,
    0 <= rating_count self ->
    forallb in_rating_range rs = true ->
    exists self',
      rate_all self rs = Returned tt self'
      /\ rating_count self' = rating_count self + Z.of_nat (List.length rs).
Proof.
  induction rs as [| r rs IH]; intros self Hc Hrs.
  - exists self. split; [reflexivity | cbn; lia].
  - cbn [forallb] in Hrs. apply andb_true_iff in Hrs as [Hr Hrs].
    cbn [rate_all]. rewrite (update_rating_step self r Hr) by lia.
    destruct (IH (set_rating
                    (fdiv (fadd (fmul (rating self) (of_int (rating_count self))) r)
                          (of_int (rating_count self + 1)))
                    (set_rating_count (rating_count self + 1) self)))
      as (self' & Hrun & Hcount); [destruct self; cbn in *; lia | assumption |].
    exists self'. split; [assumption |].
    rewrite Hcount. destruct self; cbn [rating_count set_rating set_rating_count List.length].
    lia.
Qed.

End RatingProperties.

(** ** Binary64: rounding to nearest *)

(** *** Rounding to an integer *)

Lemma round_half_even_floor (q : Q) : Qfloor q <= round_half_even q.
Proof.
  unfold round_half_even.
  destruct (q - inject_Z (Qfloor q) ?= 1 # 2)%Q; [destruct (Z.even (Qfloor q)) | |]; lia.
Qed.

Lemma round_half_even_ge (q : Q) (n : Z) :
  (inject_Z n <= q)%Q -> n <= round_half_even q.
Proof.
  intros Hq. pose proof (round_half_even_floor q) as Hf.
  apply Qfloor_resp_le in Hq. rewrite Qfloor_Z in Hq. lia.
Qed.

Lemma round_half_even_gt (q : Q) (n : Z) :
  (inject_Z n + (1 # 2) < q)%Q -> n < round_half_even q.
Proof.
  intros Hq. pose proof (round_half_even_floor q) as Hf.
  assert (Hn : n <= Qfloor q).
  { rewrite <- (Qfloor_Z n). apply Qfloor_resp_le. lra. }
  destruct (Z.eq_dec (Qfloor q) n) as [He | Hne]; [| lia].
  unfold round_half_even. rewrite He.
  assert (Hd : (q - inject_Z n ?= 1 # 2)%Q = Gt) by (apply Qgt_alt; lra).
  rewrite Hd. lia.
Qed.

(** *** Powers of two and the location of a remainder *)

Lemma pow2_pos (e : Z) : (0 < pow2 e)%Q.
Proof. apply Qpower_0_lt. reflexivity. Qed.

Lemma pow2_nonzero (e : Z) : ~ (pow2 e == 0)%Q.
Proof. intros E. pose proof (pow2_pos e) as H. rewrite E in H. discriminate. Qed.

Lemma pow2_add (a b : Z) : (pow2 (a + b) == pow2 a * pow2 b)%Q.
Proof. apply Qpower_plus. discriminate. Qed.

Lemma pow2_0 : (pow2 0 == 1)%Q.
Proof. reflexivity. Qed.

Lemma pow2_1 : (pow2 1 == 2)%Q.
Proof. reflexivity. Qed.

Lemma pow2_succ (e : Z) : (pow2 (e + 1) == 2 * pow2 e)%Q.
Proof. rewrite pow2_add, pow2_1. ring. Qed.

Lemma pow2_opp (e : Z) : (pow2 (- e) == / pow2 e)%Q.
Proof. apply Qpower_opp. Qed.

Lemma pow2_sub (a b : Z) : (pow2 (a - b) == pow2 a / pow2 b)%Q.
Proof. unfold Z.sub. rewrite pow2_add, pow2_opp. reflexivity. Qed.

Lemma pow2_le (a b : Z) : a <= b -> (pow2 a <= pow2 b)%Q.
Proof. intros H. apply Qpower_le_compat_l; [exact H | discriminate]. Qed.

Lemma pow2_lt (a b : Z) : a < b -> (pow2 a < pow2 b)%Q.
Proof. intros H. apply Qpower_lt_compat_l; [exact H | reflexivity]. Qed.

Lemma pow2_Z (n : Z) : 0 <= n -> (pow2 n == inject_Z (2 ^ n))%Q.
Proof. intros H. unfold pow2. now rewrite Zpower_Qpower. Qed.

Lemma located_ext (y y' : Q) (m : Z) (l : location) :
  (y == y')%Q -> located y m l -> located y' m l.
Proof.
  intros E. destruct l as [| []]; cbn; rewrite E; trivial.
Qed.

Lemma inject_Z_xO (p : positive) : (inject_Z (Zpos p~0) == 2 * inject_Z (Zpos p))%Q.
Proof. rewrite Pos2Z.inj_xO, inject_Z_mult. reflexivity. Qed.

Lemma inject_Z_xI (p : positive) : (inject_Z (Zpos p~1) == 2 * inject_Z (Zpos p) + 1)%Q.
Proof. rewrite Pos2Z.inj_xI, inject_Z_plus, inject_Z_mult. reflexivity. Qed.

(** One shift to the right halves the number located. *)
Lemma shr_1_located (mrs : shr_record) (y : Q) :
  0 <= shr_m mrs ->
  located y (shr_m mrs) (loc_of_shr_record mrs) ->
  shr_m (shr_1 mrs) = shr_m mrs / 2
  /\ located (y / 2) (shr_m (shr_1 mrs)) (loc_of_shr_record (shr_1 mrs)).
Proof.
  destruct mrs as [m r s]. cbn [shr_m]. intros Hm.
  set (h := (y / 2)%Q). assert (Eh : (h == y * (1 # 2))%Q) by (unfold h; field).
  clearbody h.
  destruct m as [| p | p]; [| | lia].
  - destruct r, s; cbn; intros H; (split; [reflexivity |]);
      change (inject_Z 0) with 0%Q in *; lra.
  - destruct p as [p | p |].
    + assert (D : Zpos p~1 / 2 = Zpos p).
      { rewrite Pos2Z.inj_xI. symmetry. apply (Z.div_unique _ _ _ 1); lia. }
      destruct r, s; cbn; intros H; (split; [symmetry; exact D |]);
        pose proof (inject_Z_xI p) as E; revert E H;
        generalize (inject_Z (Zpos p~1)); generalize (inject_Z (Zpos p));
        intros a b E H; lra.
    + assert (D : Zpos p~0 / 2 = Zpos p).
      { rewrite Pos2Z.inj_xO. symmetry. apply (Z.div_unique _ _ _ 0); lia. }
      destruct r, s; cbn; intros H; (split; [symmetry; exact D |]);
        pose proof (inject_Z_xO p) as E; revert E H;
        generalize (inject_Z (Zpos p~0)); generalize (inject_Z (Zpos p));
        intros a b E H; lra.
    + destruct r, s; cbn; intros H; (split; [reflexivity |]);
        change (inject_Z 0) with 0%Q in *; change (inject_Z 1) with 1%Q in *; lra.
Qed.

Lemma shr_1_nonneg (mrs : shr_record) : 0 <= shr_m mrs -> 0 <= shr_m (shr_1 mrs).
Proof.
  intros H. destruct mrs as [[| [p | p |] | p] r s]; cbn in *; lia.
Qed.

Lemma Zpow2_xO (p : positive) : 2 ^ Zpos p~0 = 2 ^ Zpos p * 2 ^ Zpos p.
Proof. rewrite Pos2Z.inj_xO, <- Z.pow_add_r by lia. f_equal. lia. Qed.

Lemma Zpow2_xI (p : positive) : 2 ^ Zpos p~1 = 2 * (2 ^ Zpos p * 2 ^ Zpos p).
Proof.
  rewrite Pos2Z.inj_xI. replace (2 * Zpos p + 1) with (1 + (Zpos p + Zpos p)) by lia.
  rewrite !Z.pow_add_r by lia. reflexivity.
Qed.

Lemma Zpow2_pos (n : Z) : 0 <= n -> 0 < 2 ^ n.
Proof. intros H. apply Z.pow_pos_nonneg; lia. Qed.

(** [n] shifts divide by [2 ^ n]. *)
Lemma iter_pos_shr_1 (p : positive) :
  forall (mrs : shr_record) (y : Q),
    0 <= shr_m mrs ->
    located y (shr_m mrs) (loc_of_shr_record mrs) ->
    0 <= shr_m (iter_pos shr_1 p mrs)
    /\ shr_m (iter_pos shr_1 p mrs) = shr_m mrs / 2 ^ Zpos p
    /\ located (y / pow2 (Zpos p)) (shr_m (iter_pos shr_1 p mrs))
         (loc_of_shr_record (iter_pos shr_1 p mrs)).
Proof.
  induction p as [p IH | p IH |]; intros mrs y Hm Hl; cbn [iter_pos].
  - destruct (shr_1_located mrs y Hm Hl) as (E1 & L1).
    pose proof (shr_1_nonneg mrs Hm) as N1.
    destruct (IH _ _ N1 L1) as (N2 & E2 & L2).
    destruct (IH _ _ N2 L2) as (N3 & E3 & L3).
    split; [exact N3 |]. split.
    + rewrite E3, E2, E1, Zpow2_xI.
      pose proof (Zpow2_pos (Zpos p) ltac:(lia)) as Hp.
      rewrite !Z.div_div by lia. f_equal; ring.
    + eapply located_ext; [| exact L3].
      rewrite Pos2Z.inj_xI.
      replace (2 * Zpos p + 1) with (Zpos p + Zpos p + 1) by lia.
      rewrite !pow2_add, pow2_1. field. apply pow2_nonzero.
  - destruct (IH _ _ Hm Hl) as (N2 & E2 & L2).
    destruct (IH _ _ N2 L2) as (N3 & E3 & L3).
    split; [exact N3 |]. split.
    + rewrite E3, E2, Zpow2_xO.
      pose proof (Zpow2_pos (Zpos p) ltac:(lia)) as Hp.
      now rewrite !Z.div_div by lia.
    + eapply located_ext; [| exact L3].
      rewrite Pos2Z.inj_xO.
      replace (2 * Zpos p) with (Zpos p + Zpos p) by lia.
      rewrite !pow2_add. field. apply pow2_nonzero.
  - destruct (shr_1_located mrs y Hm Hl) as (E1 & L1).
    split; [now apply shr_1_nonneg |]. split.
    + exact E1.
    + eapply located_ext; [| exact L1]. change (pow2 1) with (Qpower 2 1). reflexivity.
Qed.

Lemma loc_of_shr_record_of_loc (m : Z) (l : location) :
  loc_of_shr_record (shr_record_of_loc m l) = l
  /\ shr_m (shr_record_of_loc m l) = m.
Proof. destruct l as [| []]; split; reflexivity. Qed.

(** A shift by [n >= 0]. *)
Lemma shr_located (m : Z) (l : location) (e n : Z) (y : Q) :
  0 <= m -> 0 <= n ->
  located y m l ->
  exists m' l',
    shr (shr_record_of_loc m l) e n = (shr_record_of_loc m' l', e + n)
    /\ m' = m / 2 ^ n
    /\ located (y / pow2 n) m' l'.
Proof.
  intros Hm Hn Hl. destruct (loc_of_shr_record_of_loc m l) as (El & Em).
  destruct n as [| p | p]; [| | lia].
  - exists m, l. cbn [shr]. split; [now rewrite Z.add_0_r |]. split.
    + now rewrite Z.div_1_r.
    + eapply located_ext; [| exact Hl]. rewrite pow2_0. field.
  - destruct (iter_pos_shr_1 p (shr_record_of_loc m l) y) as (N & E & L).
    + now rewrite Em.
    + now rewrite El, Em.
    + exists (shr_m (iter_pos shr_1 p (shr_record_of_loc m l))),
        (loc_of_shr_record (iter_pos shr_1 p (shr_record_of_loc m l))).
      cbn [shr]. split; [| split].
      * f_equal. destruct (iter_pos shr_1 p (shr_record_of_loc m l)) as [a [] []]; reflexivity.
      * now rewrite E, Em.
      * exact L.
Qed.

(** The number of binary digits. *)
Lemma digits2_pos_log2 (m : positive) : Zpos (digits2_pos m) = Z.log2 (Zpos m) + 1.
Proof.
  induction m as [m IH | m IH |]; cbn [digits2_pos].
  - rewrite Pos2Z.inj_succ, IH, Pos2Z.inj_xI, Z.log2_succ_double by lia. lia.
  - rewrite Pos2Z.inj_succ, IH, Pos2Z.inj_xO, Z.log2_double by lia. lia.
  - reflexivity.
Qed.

Lemma Zdigits2_bounds (m : Z) :
  0 < m -> 2 ^ (Zdigits2 m - 1) <= m < 2 ^ Zdigits2 m.
Proof.
  intros H. destruct m as [| p | p]; try lia. cbn [Zdigits2].
  rewrite digits2_pos_log2. replace (Z.log2 (Zpos p) + 1 - 1) with (Z.log2 (Zpos p)) by lia.
  pose proof (Z.log2_spec (Zpos p) H). replace (Z.log2 (Zpos p) + 1) with (Z.succ (Z.log2 (Zpos p))) by lia.
  assumption.
Qed.

Lemma Zdigits2_pos (m : Z) : 0 < m -> 0 < Zdigits2 m.
Proof. destruct m; cbn; lia. Qed.

Lemma Zdigits2_unique (m d : Z) :
  2 ^ (d - 1) <= m < 2 ^ d -> 0 < m -> Zdigits2 m = d.
Proof.
  intros H Hm. destruct m as [| p | p]; try lia. cbn [Zdigits2].
  rewrite digits2_pos_log2.
  assert (0 < d).
  { destruct (Z.lt_trichotomy d 0) as [L | [L | L]]; [| | exact L].
    - rewrite (Z.pow_neg_r 2 d L) in H. lia.
    - subst. cbn in H. lia. }
  rewrite (Z.log2_unique (Zpos p) (d - 1)); [lia | lia |].
  replace (Z.succ (d - 1)) with d by lia. exact H.
Qed.

(** *** What [binary_round_aux] computes *)

Lemma fexp64 (e : Z) : fexp prec emax e = Z.max (e - 53) (-1074).
Proof. reflexivity. Qed.

Lemma shr_no_shift (mrs : shr_record) (e n : Z) : n <= 0 -> shr mrs e n = (mrs, e).
Proof. intros H. destruct n; try reflexivity. lia. Qed.

Lemma round_nearest_even_spec (z : Q) (m : Z) (l : location) :
  located z m l ->
  (round_nearest_even m l = m \/ round_nearest_even m l = m + 1)
  /\ (inject_Z (round_nearest_even m l) - (1 # 2) <= z
      <= inject_Z (round_nearest_even m l) + (1 # 2))%Q.
Proof.
  intros H.
  assert (E1 : (inject_Z (m + 1) == inject_Z m + 1)%Q)
    by (rewrite inject_Z_plus; reflexivity).
  destruct l as [| []]; cbn in *.
  - split; [now left |]. lra.
  - destruct (Z.even m); (split; [auto |]); rewrite ?E1; lra.
  - split; [now left |]. lra.
  - split; [now right |]. rewrite E1. lra.
Qed.

Lemma inject_Z_pow2 (k n : Z) : 0 <= n -> (inject_Z (k * 2 ^ n) == inject_Z k * pow2 n)%Q.
Proof. intros H. rewrite inject_Z_mult, pow2_Z by exact H. reflexivity. Qed.

Lemma pow2_le_inject (n m : Z) : 0 <= n -> 2 ^ n <= m -> (pow2 n <= inject_Z m)%Q.
Proof. intros Hn H. rewrite pow2_Z by exact Hn. now rewrite <- Zle_Qle. Qed.

Lemma inject_lt_pow2 (n m : Z) : 0 <= n -> m < 2 ^ n -> (inject_Z m < pow2 n)%Q.
Proof. intros Hn H. rewrite pow2_Z by exact Hn. now rewrite <- Zlt_Qlt. Qed.

Lemma canonical_bounded (m : positive) (e : Z) :
  Z.max (Zpos (digits2_pos m) + e - 53) (-1074) = e ->
  e <= 971 ->
  bounded prec emax m e = true.
Proof.
  intros Hc He. unfold bounded, canonical_mantissa. rewrite fexp64.
  apply andb_true_iff. split; [now apply Z.eqb_eq | apply Z.leb_le; exact He].
Qed.

Lemma inject_le_pow2 (n m : Z) : 0 <= n -> m <= 2 ^ n -> (inject_Z m <= pow2 n)%Q.
Proof. intros Hn H. rewrite pow2_Z by exact Hn. now rewrite <- Zle_Qle. Qed.

Lemma Zdigits2_le (k n : Z) : 0 < k -> k < 2 ^ n -> Zdigits2 k <= n.
Proof.
  intros Hk H. pose proof (Zdigits2_bounds k Hk) as (Hlo & _).
  pose proof (Zdigits2_pos k Hk) as Hd.
  destruct (Z.le_gt_cases (Zdigits2 k) n) as [L | L]; [exact L |].
  assert (0 <= n).
  { destruct (Z.le_gt_cases 0 n) as [G | G]; [exact G |].
    rewrite (Z.pow_neg_r 2 n G) in H. lia. }
  assert (2 ^ n <= 2 ^ (Zdigits2 k - 1)) by (apply Z.pow_le_mono_r; lia).
  lia.
Qed.

Lemma Zdigits2_ge (k n : Z) : 0 <= n -> 2 ^ n <= k -> n + 1 <= Zdigits2 k.
Proof.
  intros Hn H. assert (Hk : 0 < k) by (pose proof (Zpow2_pos n Hn); lia).
  pose proof (Zdigits2_bounds k Hk) as (_ & Hhi).
  destruct (Z.le_gt_cases (n + 1) (Zdigits2 k)) as [L | L]; [exact L |].
  assert (2 ^ Zdigits2 k <= 2 ^ n) by (apply Z.pow_le_mono_r; lia).
  lia.
Qed.

(** The end of [binary_round_aux]: the rounded integer [k] at the exponent
    [E] becomes a zero, a float, or an infinity. *)
Lemma round_finish (s : bool) (k E : Z) :
  0 <= k <= 2 ^ 53 ->
  -1074 <= E ->
  (-1074 < E -> 2 ^ 52 <= k) ->
  let r := (let '(mrs, e) := shr_fexp prec emax k E loc_Exact in
            match shr_m mrs with
            | Z0 => S754_zero s
            | Zpos m => if e <=? emax - prec then S754_finite s m e else S754_infinity s
            | Zneg _ => S754_nan
            end) in
  (k = 0 /\ r = S754_zero s)
  \/ (exists m e, r = S754_finite s m e
                  /\ bounded prec emax m e = true
                  /\ (inject_Z (Zpos m) * pow2 e == inject_Z k * pow2 E)%Q)
  \/ (r = S754_infinity s /\ (pow2 1024 <= inject_Z k * pow2 E)%Q).
Proof.
  intros Hk HE Hnorm. unfold shr_fexp. rewrite fexp64.
  destruct (Z.eq_dec k 0) as [-> | Hk0].
  { left. split; [reflexivity |]. cbn [Zdigits2]. rewrite shr_no_shift by lia. reflexivity. }
  destruct (Z.eq_dec k (2 ^ 53)) as [-> | Hk53].
  { right. change (Zdigits2 (2 ^ 53)) with 54.
    replace (Z.max (54 + E - 53) (-1074) - E) with 1 by lia.
    cbn [shr iter_pos]. change (shr_m (shr_1 (shr_record_of_loc (2 ^ 53) loc_Exact)))
      with (Zpos (Pos.pow 2 52)).
    change (emax - prec) with 971.
    destruct (Z.leb_spec (E + 1) 971) as [L | L].
    - left. exists (Pos.pow 2 52), (E + 1). split; [reflexivity |]. split.
      + apply canonical_bounded; [| exact L].
        change (Zpos (digits2_pos (2 ^ 52))) with 53. lia.
      + rewrite pow2_succ. change (inject_Z (Zpos (2 ^ 52))) with (inject_Z (2 ^ 52)).
        change (inject_Z (2 ^ 53)) with (2 * inject_Z (2 ^ 52))%Q. ring.
    - right. split; [reflexivity |].
      change (inject_Z (2 ^ 53)) with (inject_Z (2 ^ 53)).
      rewrite <- (pow2_Z 53) by lia. rewrite <- pow2_add. apply pow2_le. lia. }
  assert (Hkpos : 0 < k) by lia.
  assert (Hd : Zdigits2 k <= 53) by (apply Zdigits2_le; lia).
  pose proof (Zdigits2_pos k Hkpos) as Hdp.
  right. rewrite shr_no_shift by lia.
  destruct k as [| p | p]; try lia.
  cbn [shr_record_of_loc shr_m]. change (emax - prec) with 971.
  destruct (Z.leb_spec E 971) as [L | L].
  - left. exists p, E. split; [reflexivity |]. split; [| reflexivity].
    apply canonical_bounded; [| exact L]. cbn [Zdigits2] in Hd.
    destruct (Z.eq_dec E (-1074)) as [-> | HE']; [lia |].
    assert (53 <= Zdigits2 (Zpos p)) by (apply (Zdigits2_ge _ 52); lia).
    cbn [Zdigits2] in *. lia.
  - right. split; [reflexivity |].
    assert (H52 : 2 ^ 52 <= Zpos p) by (apply Hnorm; lia).
    apply Qle_trans with (pow2 52 * pow2 E)%Q.
    + rewrite <- pow2_add. apply pow2_le. lia.
    + apply Qmult_le_compat_r; [| apply Qlt_le_weak, pow2_pos].
      apply pow2_le_inject; lia.
Qed.

Lemma scaled_lt (a x : Q) (e : Z) : (a / pow2 e < x)%Q -> (a < x * pow2 e)%Q.
Proof.
  intros H. pose proof (pow2_pos e) as Hp.
  assert (Hae : (a == a / pow2 e * pow2 e)%Q) by (field; apply pow2_nonzero).
  rewrite Hae. apply Qmult_lt_compat_r; assumption.
Qed.

Lemma scaled_le (a x : Q) (e : Z) : (x <= a / pow2 e)%Q -> (x * pow2 e <= a)%Q.
Proof.
  intros H. pose proof (pow2_pos e) as Hp.
  assert (Hae : (a == a / pow2 e * pow2 e)%Q) by (field; apply pow2_nonzero).
  rewrite Hae. apply Qmult_le_compat_r; [assumption | now apply Qlt_le_weak].
Qed.

Theorem binary_round_aux_rounds (s : bool) (m e : Z) (l : location) (a : Q) :
  0 <= m ->
  (0 < a)%Q ->
  located (a / pow2 e) m l ->
  e <= fexp prec emax (Zdigits2 m + e) ->
  rounds s a (binary_round_aux prec emax s m e l).
Proof.
  intros Hm Ha Hl He. rewrite fexp64 in He.
  set (E := Z.max (Zdigits2 m + e - 53) (-1074)) in *.
  set (n := E - e).
  assert (Hn : 0 <= n) by (unfold n; lia).
  unfold binary_round_aux, shr_fexp at 1. rewrite fexp64. fold E. fold n.
  destruct (shr_located m l e n (a / pow2 e) Hm Hn Hl) as (m1 & l1 & Eshr & Em1 & L1).
  rewrite Eshr. replace (e + n) with E by (unfold n; lia).
  destruct (loc_of_shr_record_of_loc m1 l1) as (El1 & Emm1). rewrite El1, Emm1.
  assert (Lz : located (a / pow2 E) m1 l1).
  { eapply located_ext; [| exact L1].
    replace E with (e + n) by (unfold n; lia). rewrite pow2_add.
    field. split; apply pow2_nonzero. }
  clear L1 Eshr El1 Emm1.
  destruct (round_nearest_even_spec _ _ _ Lz) as (Hk & Hkz).
  set (k := round_nearest_even m1 l1) in *.
  assert (Hbelow : (a / pow2 e < inject_Z m + 1)%Q) by (destruct l as [| []]; cbn in Hl; lra).
  assert (Habove : (inject_Z m <= a / pow2 e)%Q) by (destruct l as [| []]; cbn in Hl; lra).
  pose proof (Zpow2_pos n Hn) as Hpn.
  (* the integer facts *)
  assert (Hint : 0 <= m1 < 2 ^ 53 /\ (-1074 < E -> 2 ^ 52 <= m1)).
  { destruct (Z.eq_dec m 0) as [-> | Hnz].
    - subst m1. rewrite Z.div_0_l by lia. split; [lia |].
      intros HE. cbn [Zdigits2] in E. lia.
    - pose proof (Zdigits2_bounds m ltac:(lia)) as (Hlo & Hhi).
      pose proof (Zdigits2_pos m ltac:(lia)) as Hdp.
      split; [split |].
      + subst m1. apply Z.div_pos; lia.
      + subst m1. apply Z.div_lt_upper_bound; [lia |].
        rewrite <- Z.pow_add_r by lia.
        apply Z.lt_le_trans with (2 ^ Zdigits2 m); [exact Hhi |].
        apply Z.pow_le_mono_r; lia.
      + intros HE. subst m1. apply Z.div_le_lower_bound; [lia |].
        rewrite <- Z.pow_add_r by lia.
        replace (n + 52) with (Zdigits2 m - 1) by lia. exact Hlo. }
  destruct Hint as (Hm1 & Hnorm).
  assert (HU : (a < pow2 (E + 53))%Q).
  { destruct (Z.eq_dec m 0) as [-> | Hnz].
    - change (inject_Z 0) with 0%Q in Hbelow.
      apply Qlt_le_trans with (pow2 e).
      + apply scaled_lt in Hbelow. lra.
      + apply pow2_le. lia.
    - pose proof (Zdigits2_bounds m ltac:(lia)) as (Hlo & Hhi).
      pose proof (Zdigits2_pos m ltac:(lia)) as Hdp.
      apply Qlt_le_trans with (pow2 (Zdigits2 m + e)).
      + apply scaled_lt in Hbelow. rewrite pow2_add.
        apply Qlt_le_trans with ((inject_Z m + 1) * pow2 e)%Q; [exact Hbelow |].
        apply Qmult_le_compat_r; [| apply Qlt_le_weak, pow2_pos].
        change 1%Q with (inject_Z 1). rewrite <- inject_Z_plus.
        apply inject_le_pow2; lia.
      + apply pow2_le. lia. }
  assert (HL : -1074 < E -> (pow2 (E + 52) <= a)%Q).
  { intros HE. destruct (Z.eq_dec m 0) as [-> | Hnz].
    - cbn [Zdigits2] in E. lia.
    - pose proof (Zdigits2_bounds m ltac:(lia)) as (Hlo & Hhi).
      pose proof (Zdigits2_pos m ltac:(lia)) as Hdp.
      apply scaled_le in Habove.
      apply Qle_trans with (inject_Z m * pow2 e)%Q; [| exact Habove].
      replace (E + 52) with ((Zdigits2 m - 1) + e) by lia. rewrite pow2_add.
      apply Qmult_le_compat_r; [| apply Qlt_le_weak, pow2_pos].
      apply pow2_le_inject; lia. }
  assert (Hkr : 0 <= k <= 2 ^ 53) by lia.
  assert (Hknorm : -1074 < E -> 2 ^ 52 <= k) by (intros HE; specialize (Hnorm HE); lia).
  pose proof (round_finish s k E Hkr ltac:(lia) Hknorm) as Hfin. cbv zeta in Hfin.
  exists E, k. repeat (split; [first [lia | assumption] |]). exact Hfin.
Qed.

(** *** A rounding among the floats *)

Lemma Zle_half (j k : Z) : (inject_Z j <= inject_Z k + (1 # 2))%Q -> j <= k.
Proof.
  intros H. destruct (Z_le_gt_dec j k) as [L | G]; [exact L |].
  assert (K : (inject_Z (k + 1) <= inject_Z j)%Q) by (rewrite <- Zle_Qle; lia).
  rewrite inject_Z_plus in K. change (inject_Z 1) with 1%Q in K. lra.
Qed.

Lemma Zge_half (j k : Z) : (inject_Z k - (1 # 2) <= inject_Z j)%Q -> k <= j.
Proof.
  intros H. destruct (Z_le_gt_dec k j) as [L | G]; [exact L |].
  assert (K : (inject_Z (j + 1) <= inject_Z k)%Q) by (rewrite <- Zle_Qle; lia).
  rewrite inject_Z_plus in K. change (inject_Z 1) with 1%Q in K. lra.
Qed.

Lemma unscale (a : Q) (E : Z) : (a == a / pow2 E * pow2 E)%Q.
Proof. field. apply pow2_nonzero. Qed.

(** With [E <= ey], [my * 2 ^ ey] is an integer at the exponent [E]. *)
Lemma repr_integer (my ey E : Z) :
  E <= ey ->
  (inject_Z my * pow2 ey == inject_Z (my * 2 ^ (ey - E)) * pow2 E)%Q.
Proof.
  intros H. rewrite inject_Z_pow2 by lia. rewrite <- Qmult_assoc, <- pow2_add.
  now replace (ey - E + E) with ey by lia.
Qed.

Lemma repr_below (my ey E : Z) :
  representable my ey -> ey < E -> (inject_Z my * pow2 ey < pow2 (E + 52))%Q.
Proof.
  intros ((H0 & H1) & H2) HE.
  apply Qlt_le_trans with (pow2 53 * pow2 ey)%Q.
  - apply Qmult_lt_compat_r; [apply pow2_pos | apply inject_lt_pow2; lia].
  - rewrite <- pow2_add. apply pow2_le. lia.
Qed.

(** The rounded integer, against a representable number at or below [a]. *)
Lemma rounds_core_ge (a : Q) (E k my ey : Z) :
  -1074 <= E ->
  (-1074 < E -> (pow2 (E + 52) <= a)%Q) ->
  (inject_Z k - (1 # 2) <= a / pow2 E <= inject_Z k + (1 # 2))%Q ->
  representable my ey ->
  (inject_Z my * pow2 ey <= a)%Q ->
  (inject_Z my * pow2 ey <= inject_Z k * pow2 E)%Q.
Proof.
  intros HE HL Hk Hy Hya. pose proof (pow2_pos E) as HpE.
  destruct (Z_le_gt_dec E ey) as [L | G].
  - rewrite (repr_integer my ey E L) in *.
    apply Qmult_le_compat_r; [| now apply Qlt_le_weak].
    rewrite <- Zle_Qle. apply Zle_half.
    apply Qle_trans with (a / pow2 E)%Q; [| apply Hk].
    apply Qle_shift_div_l; assumption.
  - pose proof (repr_below my ey E Hy ltac:(lia)) as Hb.
    destruct Hy as (_ & Hey). specialize (HL ltac:(lia)).
    apply Qle_trans with (pow2 (E + 52)); [now apply Qlt_le_weak |].
    replace (E + 52) with (52 + E) by lia. rewrite pow2_add.
    apply Qmult_le_compat_r; [| now apply Qlt_le_weak].
    rewrite pow2_Z by lia. rewrite <- Zle_Qle. apply Zle_half.
    apply Qle_trans with (a / pow2 E)%Q; [| apply Hk].
    rewrite <- pow2_Z by lia.
    apply Qle_shift_div_l; [assumption |]. rewrite <- pow2_add.
    now replace (52 + E) with (E + 52) by lia.
Qed.

(** The rounded integer, against a representable number at or above [a]. *)
Lemma rounds_core_le (a : Q) (E k my ey : Z) :
  -1074 <= E ->
  (-1074 < E -> (pow2 (E + 52) <= a)%Q) ->
  (inject_Z k - (1 # 2) <= a / pow2 E <= inject_Z k + (1 # 2))%Q ->
  representable my ey ->
  (a <= inject_Z my * pow2 ey)%Q ->
  (inject_Z k * pow2 E <= inject_Z my * pow2 ey)%Q.
Proof.
  intros HE HL Hk Hy Hya. pose proof (pow2_pos E) as HpE.
  destruct (Z_le_gt_dec E ey) as [L | G].
  - rewrite (repr_integer my ey E L) in *.
    apply Qmult_le_compat_r; [| now apply Qlt_le_weak].
    rewrite <- Zle_Qle. apply Zge_half.
    apply Qle_trans with (a / pow2 E)%Q; [apply Hk |].
    apply Qle_shift_div_r; assumption.
  - pose proof (repr_below my ey E Hy ltac:(lia)) as Hb.
    destruct Hy as (_ & Hey). specialize (HL ltac:(lia)). lra.
Qed.

(** The error of rounding: half a unit in the last place. *)
Lemma rounds_core_error (a : Q) (E k : Z) :
  (0 < a)%Q ->
  -1074 <= E ->
  (-1074 < E -> (pow2 (E + 52) <= a)%Q) ->
  (inject_Z k - (1 # 2) <= a / pow2 E <= inject_Z k + (1 # 2))%Q ->
  (a - (a * pow2 (-53) + pow2 (-1075)) <= inject_Z k * pow2 E
   <= a + (a * pow2 (-53) + pow2 (-1075)))%Q.
Proof.
  intros Ha HE HL Hk. pose proof (pow2_pos E) as HpE.
  pose proof (pow2_pos (-53)) as Hu. pose proof (pow2_pos (-1075)) as Heta.
  assert (Hh : (pow2 E * (1 # 2) <= a * pow2 (-53) + pow2 (-1075))%Q).
  { destruct (Z.eq_dec E (-1074)) as [-> | HE'].
    - assert (Hau : (0 <= a * pow2 (-53))%Q) by (apply Qmult_le_0_compat; lra).
      assert (E2 : (pow2 (-1074) == 2 * pow2 (-1075))%Q).
      { rewrite <- pow2_succ. reflexivity. }
      lra.
    - specialize (HL ltac:(lia)).
      assert (E2 : (pow2 E * (1 # 2) == pow2 (E + 52) * pow2 (-53))%Q).
      { rewrite <- pow2_add. replace (E + 52 + -53) with (E - 1) by lia.
        replace E with ((E - 1) + 1) at 1 by lia. rewrite pow2_succ. ring. }
      rewrite E2.
      assert ((pow2 (E + 52) * pow2 (-53) <= a * pow2 (-53))%Q)
        by (apply Qmult_le_compat_r; lra).
      lra. }
  pose proof (unscale a E) as Ea.
  set (z := (a / pow2 E)%Q) in *. set (p := pow2 E) in *.
  set (b := (a * pow2 (-53) + pow2 (-1075))%Q) in *.
  set (kq := inject_Z k) in *. clearbody z p b kq.
  assert (H1 : ((kq - z) * p <= (1 # 2) * p)%Q) by (apply Qmult_le_compat_r; lra).
  assert (H2 : ((z - kq) * p <= (1 # 2) * p)%Q) by (apply Qmult_le_compat_r; lra).
  assert (E1 : ((kq - z) * p == kq * p - z * p)%Q) by ring.
  assert (E2 : ((z - kq) * p == z * p - kq * p)%Q) by ring.
  rewrite E1 in H1. rewrite E2 in H2.
  set (kp := (kq * p)%Q) in *. set (zp := (z * p)%Q) in *. clearbody kp zp.
  split; lra.
Qed.

Lemma SF2Q_mag (f : spec_float) :
  (SF2Q f == if SFsign f then - SFmag f else SFmag f)%Q.
Proof. destruct f as [[] | [] | | [] m e]; reflexivity. Qed.

Lemma SFmag_nonneg (f : spec_float) : (0 <= SFmag f)%Q.
Proof.
  destruct f as [| | | s m e]; cbn; try lra.
  apply Qmult_le_0_compat; [| apply Qlt_le_weak, pow2_pos].
  change 0%Q with (inject_Z 0). rewrite <- Zle_Qle. lia.
Qed.

Section RoundsFacts.

Variables (s : bool) (a : Q) (f : spec_float).
Hypothesis Ha : (0 < a)%Q.
Hypothesis Hr : rounds s a f.

Lemma rounds_shape :
  f = S754_zero s
  \/ (exists m e, f = S754_finite s m e /\ bounded prec emax m e = true)
  \/ f = S754_infinity s.
Proof.
  destruct Hr as (E & k & _ & _ & _ & _ & _ & [(_ & ->) | [(m & e & -> & Hb & _) | (-> & _)]]).
  - now left.
  - right. left. now exists m, e.
  - now right; right.
Qed.

Lemma rounds_valid : valid_binary f = true.
Proof.
  destruct rounds_shape as [-> | [(m & e & -> & Hb) | ->]]; try reflexivity. exact Hb.
Qed.

Lemma rounds_sign : SFsign f = s.
Proof. destruct rounds_shape as [-> | [(m & e & -> & Hb) | ->]]; reflexivity. Qed.

Lemma rounds_not_nan : f <> S754_nan.
Proof. destruct rounds_shape as [-> | [(m & e & -> & Hb) | ->]]; discriminate. Qed.

Lemma rounds_error :
  SFfinite f = true ->
  (a - (a * pow2 (-53) + pow2 (-1075)) <= SFmag f
   <= a + (a * pow2 (-53) + pow2 (-1075)))%Q.
Proof.
  intros Hf.
  destruct Hr as (E & k & HE & Hk0 & HU & HL & Hk & [(-> & ->) | [(m & e & -> & Hb & Hv) | (-> & _)]]).
  - pose proof (rounds_core_error a E 0 Ha HE HL Hk) as H.
    cbn [SFmag]. change (inject_Z 0) with 0%Q in H. lra.
  - pose proof (rounds_core_error a E k Ha HE HL Hk) as H.
    cbn [SFmag]. rewrite Hv. exact H.
  - discriminate.
Qed.

Lemma rounds_no_overflow : (a < pow2 1023)%Q -> SFfinite f = true.
Proof.
  intros Hlt.
  destruct Hr as (E & k & HE & Hk0 & HU & HL & Hk & [(-> & ->) | [(m & e & -> & Hb & Hv) | (-> & Hinf)]]);
    try reflexivity.
  exfalso.
  pose proof (rounds_core_error a E k Ha HE HL Hk) as (_ & H).
  assert (Hu : (pow2 (-53) <= 1 # 2)%Q) by (change (1 # 2)%Q with (pow2 (-1)); apply pow2_le; lia).
  assert (Hau : (a * pow2 (-53) <= a * (1 # 2))%Q) by (apply Qmult_le_l; assumption).
  assert (E24 : (pow2 1024 == 2 * pow2 1023)%Q) by (rewrite <- pow2_succ; reflexivity).
  assert (E23 : (pow2 1023 == 2 * pow2 1022)%Q) by (rewrite <- pow2_succ; reflexivity).
  assert (Heta : (pow2 (-1075) <= pow2 1022)%Q) by (apply pow2_le; lia).
  lra.
Qed.

End RoundsFacts.

Section RoundsBounds.

Variables (s : bool) (a : Q) (f : spec_float).
Hypothesis Ha : (0 < a)%Q.
Hypothesis Hr : rounds s a f.

(** A representable number at or below [a] is at or below the float. *)
Lemma rounds_ge (my ey : Z) :
  representable my ey -> 0 < my ->
  (inject_Z my * pow2 ey <= a)%Q ->
  f = S754_infinity s
  \/ (SFfinite f = true /\ (inject_Z my * pow2 ey <= SFmag f)%Q).
Proof.
  intros Hy Hmy Hya.
  destruct Hr as (E & k & HE & Hk0 & HU & HL & Hk & [(-> & ->) | [(m & e & -> & Hb & Hv) | (-> & Hinf)]]).
  - exfalso.
    pose proof (rounds_core_ge a E 0 my ey HE HL Hk Hy Hya) as H.
    change (inject_Z 0) with 0%Q in H.
    assert ((0 < inject_Z my * pow2 ey)%Q).
    { apply Qmult_lt_0_compat; [| apply pow2_pos].
      change 0%Q with (inject_Z 0). rewrite <- Zlt_Qlt. lia. }
    lra.
  - right. split; [reflexivity |]. cbn [SFmag]. rewrite Hv.
    exact (rounds_core_ge a E k my ey HE HL Hk Hy Hya).
  - now left.
Qed.

(** A representable number at or above [a] is at or above the float, which
    is then finite. *)
Lemma rounds_le (my ey : Z) :
  representable my ey -> ey <= 971 ->
  (a <= inject_Z my * pow2 ey)%Q ->
  SFfinite f = true /\ (SFmag f <= inject_Z my * pow2 ey)%Q.
Proof.
  intros Hy Hey Hya.
  destruct Hr as (E & k & HE & Hk0 & HU & HL & Hk & [(-> & ->) | [(m & e & -> & Hb & Hv) | (-> & Hinf)]]).
  - split; [reflexivity |]. cbn [SFmag]. lra.
  - split; [reflexivity |]. cbn [SFmag]. rewrite Hv.
    exact (rounds_core_le a E k my ey HE HL Hk Hy Hya).
  - exfalso.
    pose proof (rounds_core_le a E k my ey HE HL Hk Hy Hya) as H.
    destruct Hy as ((H0 & H1) & H2).
    assert ((inject_Z my * pow2 ey < pow2 1024)%Q).
    { apply Qlt_le_trans with (pow2 53 * pow2 ey)%Q.
      - apply Qmult_lt_compat_r; [apply pow2_pos | apply inject_lt_pow2; lia].
      - rewrite <- pow2_add. apply pow2_le. lia. }
    lra.
Qed.

End RoundsBounds.

(** A float that is its own rounding. *)
Lemma bounded_digits (m : positive) (e : Z) :
  bounded prec emax m e = true ->
  Zpos m < 2 ^ 53 /\ -1074 <= e <= 971 /\ (-1074 < e -> 2 ^ 52 <= Zpos m).
Proof.
  unfold bounded, canonical_mantissa. rewrite fexp64.
  intros [Hc He]%andb_true_iff. apply Z.eqb_eq in Hc. apply Z.leb_le in He.
  change (emax - prec) with 971 in He.
  pose proof (Zdigits2_bounds (Zpos m) ltac:(lia)) as (Hlo & Hhi). cbn [Zdigits2] in *.
  assert (Hd : Zpos (digits2_pos m) <= 53) by lia.
  split; [| split; [lia |]].
  - apply Z.lt_le_trans with (2 ^ Zpos (digits2_pos m)); [exact Hhi |].
    apply Z.pow_le_mono_r; lia.
  - intros H. replace 52 with (Zpos (digits2_pos m) - 1) by lia. exact Hlo.
Qed.

Lemma bounded_representable (m : positive) (e : Z) :
  bounded prec emax m e = true -> representable (Zpos m) e /\ e <= 971.
Proof.
  intros H. destruct (bounded_digits m e H) as (H1 & H2 & _).
  unfold representable. lia.
Qed.

Lemma rounds_exact (s : bool) (m : positive) (e : Z) :
  bounded prec emax m e = true ->
  rounds s (inject_Z (Zpos m) * pow2 e) (S754_finite s m e).
Proof.
  intros Hb. destruct (bounded_digits m e Hb) as (H1 & H2 & H3).
  pose proof (pow2_pos e) as Hp.
  exists e, (Zpos m). split; [lia |]. split; [lia |]. split; [| split; [| split]].
  - replace (e + 53) with (53 + e) by lia. rewrite pow2_add.
    apply Qmult_lt_compat_r; [assumption | apply inject_lt_pow2; lia].
  - intros He. replace (e + 52) with (52 + e) by lia. rewrite pow2_add.
    apply Qmult_le_compat_r; [| now apply Qlt_le_weak].
    apply pow2_le_inject; [lia | now apply H3].
  - assert (Ez : (inject_Z (Zpos m) * pow2 e / pow2 e == inject_Z (Zpos m))%Q)
      by (field; apply pow2_nonzero).
    rewrite Ez. lra.
  - right. left. exists m, e. split; [reflexivity |]. split; [exact Hb | reflexivity].
Qed.

(** *** The operations on finite floats *)

Lemma rounds_ext (s : bool) (a a' : Q) (f : spec_float) :
  (a == a')%Q -> rounds s a f -> rounds s a' f.
Proof.
  intros E (EE & k & H1 & H2 & H3 & H4 & H5 & H6).
  exists EE, k. rewrite <- E. auto 10.
Qed.

Lemma rounded_ext (v v' : Q) (f : spec_float) :
  (v == v')%Q -> rounded v f -> rounded v' f.
Proof.
  intros E (H0 & Hp & Hn). split; [| split].
  - intros H. apply H0. lra.
  - intros H. eapply rounds_ext; [exact E |]. apply Hp. lra.
  - intros H. eapply rounds_ext with (a := (- v)%Q); [lra |]. apply Hn. lra.
Qed.

Lemma Zdigits2_mul_pow2 (m n : Z) :
  0 < m -> 0 <= n -> Zdigits2 (m * 2 ^ n) = Zdigits2 m + n.
Proof.
  intros Hm Hn. pose proof (Zdigits2_bounds m Hm) as (Hlo & Hhi).
  pose proof (Zdigits2_pos m Hm) as Hd. pose proof (Zpow2_pos n Hn) as Hp.
  apply Zdigits2_unique; [| nia].
  replace (Zdigits2 m + n - 1) with ((Zdigits2 m - 1) + n) by lia.
  rewrite !Z.pow_add_r by lia. split; nia.
Qed.

Lemma Pos_iter_xO (m d : positive) : Zpos (Pos.iter xO m d) = Zpos m * 2 ^ Zpos d.
Proof.
  induction d as [| d IH] using Pos.peano_ind.
  - cbn [Pos.iter]. rewrite Pos2Z.inj_xO. change (2 ^ 1) with 2. lia.
  - rewrite Pos.iter_succ, Pos2Z.inj_xO, IH, Pos2Z.inj_succ, Z.pow_succ_r by lia. ring.
Qed.

(** [shl_align] lowers the exponent to [ex'] when that is below [ex]. *)
Lemma shl_align_spec (mx : positive) (ex ex' : Z) :
  exists mz ez,
    shl_align mx ex ex' = (mz, ez)
    /\ ez = Z.min ex ex'
    /\ Zpos mz = Zpos mx * 2 ^ (ex - ez).
Proof.
  unfold shl_align. destruct (ex' - ex) as [| d | d] eqn:E.
  - exists mx, ex. split; [reflexivity |]. split; [lia |].
    replace (ex - ex) with 0 by lia. cbn. lia.
  - exists mx, ex. split; [reflexivity |]. split; [lia |].
    replace (ex - ex) with 0 by lia. cbn. lia.
  - exists (Pos.iter xO mx d), ex'. split; [reflexivity |]. split; [lia |].
    rewrite Pos_iter_xO. f_equal. f_equal. lia.
Qed.

Theorem binary_round_rounds (s : bool) (m : positive) (e : Z) :
  rounds s (inject_Z (Zpos m) * pow2 e) (binary_round prec emax s m e).
Proof.
  unfold binary_round.
  destruct (shl_align_spec m e (fexp prec emax (Zpos (digits2_pos m) + e)))
    as (mz & ez & -> & Eez & Emz).
  assert (Hle : ez <= e) by lia.
  assert (Hd : Zdigits2 (Zpos mz) = Zdigits2 (Zpos m) + (e - ez)).
  { rewrite Emz. apply Zdigits2_mul_pow2; lia. }
  apply binary_round_aux_rounds.
  - lia.
  - apply Qmult_lt_0_compat; [| apply pow2_pos]. reflexivity.
  - cbn [located]. rewrite Emz, inject_Z_pow2 by lia.
    rewrite pow2_sub. field. apply pow2_nonzero.
  - rewrite Hd. cbn [Zdigits2].
    replace (Zpos (digits2_pos m) + (e - ez) + ez) with (Zpos (digits2_pos m) + e) by lia.
    lia.
Qed.

Theorem binary_normalize_rounded (M e : Z) :
  rounded (inject_Z M * pow2 e) (binary_normalize prec emax M e false).
Proof.
  pose proof (pow2_pos e) as Hp.
  destruct M as [| m | m]; cbn [binary_normalize].
  - split; [intros _; now exists false |].
    change (inject_Z 0) with 0%Q. split; intros H; exfalso; lra.
  - assert (Hv : (0 < inject_Z (Zpos m) * pow2 e)%Q)
      by (apply Qmult_lt_0_compat; [reflexivity | assumption]).
    split; [intros H; exfalso; lra |]. split; [| intros H; exfalso; lra].
    intros _. apply binary_round_rounds.
  - assert (Hv : (0 < inject_Z (Zpos m) * pow2 e)%Q)
      by (apply Qmult_lt_0_compat; [reflexivity | assumption]).
    assert (Hneg : (inject_Z (Zneg m) * pow2 e == - (inject_Z (Zpos m) * pow2 e))%Q).
    { change (Zneg m) with (- Zpos m). rewrite inject_Z_opp. ring. }
    split; [intros H; exfalso; lra |]. split; [intros H; exfalso; lra |].
    intros _. eapply rounds_ext; [| apply binary_round_rounds].
    rewrite Hneg. ring.
Qed.

(** *** Multiplication *)

Theorem SFmul_rounds (sx sy : bool) (mx my : positive) (ex ey : Z) :
  bounded prec emax mx ex = true ->
  bounded prec emax my ey = true ->
  rounds (xorb sx sy)
    (inject_Z (Zpos mx) * pow2 ex * (inject_Z (Zpos my) * pow2 ey))
    (SFmul prec emax (S754_finite sx mx ex) (S754_finite sy my ey)).
Proof.
  intros Hx Hy. cbn [SFmul].
  destruct (bounded_digits mx ex Hx) as (Hx1 & Hx2 & Hx3).
  destruct (bounded_digits my ey Hy) as (Hy1 & Hy2 & Hy3).
  pose proof (pow2_pos ex) as Hpx. pose proof (pow2_pos ey) as Hpy.
  apply binary_round_aux_rounds.
  - lia.
  - apply Qmult_lt_0_compat; apply Qmult_lt_0_compat; try assumption; reflexivity.
  - cbn [located]. rewrite Pos2Z.inj_mul, inject_Z_mult, pow2_add.
    field. split; apply pow2_nonzero.
  - rewrite fexp64.
    destruct (Z.eq_dec ex (-1074)) as [Ex | Ex]; [destruct (Z.eq_dec ey (-1074)) as [Ey | Ey] |].
    + lia.
    + assert (2 ^ 52 <= Zpos (mx * my)) by (rewrite Pos2Z.inj_mul; specialize (Hy3 ltac:(lia)); nia).
      pose proof (Zdigits2_ge (Zpos (mx * my)) 52 ltac:(lia) H). lia.
    + assert (2 ^ 52 <= Zpos (mx * my)) by (rewrite Pos2Z.inj_mul; specialize (Hx3 ltac:(lia)); nia).
      pose proof (Zdigits2_ge (Zpos (mx * my)) 52 ltac:(lia) H). lia.
Qed.

(** *** Addition and subtraction *)

Lemma SF2Q_finite (s : bool) (m : positive) (e : Z) :
  SF2Q (S754_finite s m e) = signed s (inject_Z (Zpos m) * pow2 e).
Proof. destruct s; reflexivity. Qed.

Lemma cond_Zopp_inject (s : bool) (m : Z) :
  (inject_Z (cond_Zopp s m) == signed s (inject_Z m))%Q.
Proof. destruct s; cbn; [rewrite inject_Z_opp |]; reflexivity. Qed.

Lemma aligned_value (mx : positive) (ex ez : Z) :
  ez <= ex ->
  (inject_Z (Zpos mx * 2 ^ (ex - ez)) * pow2 ez == inject_Z (Zpos mx) * pow2 ex)%Q.
Proof.
  intros H. rewrite inject_Z_pow2 by lia. rewrite <- Qmult_assoc, <- pow2_add.
  now replace (ex - ez + ez) with ex by lia.
Qed.

Theorem SFadd_finite_rounded (sx sy : bool) (mx my : positive) (ex ey : Z) :
  rounded (SF2Q (S754_finite sx mx ex) + SF2Q (S754_finite sy my ey))
    (SFadd prec emax (S754_finite sx mx ex) (S754_finite sy my ey)).
Proof.
  cbn [SFadd].
  destruct (shl_align_spec mx ex (Z.min ex ey)) as (mx' & ex' & Ex & Eex & Emx).
  destruct (shl_align_spec my ey (Z.min ex ey)) as (my' & ey' & Ey & Eey & Emy).
  rewrite Ex, Ey. cbn [fst].
  eapply rounded_ext; [| apply binary_normalize_rounded].
  rewrite inject_Z_plus, !cond_Zopp_inject, Emx, Emy, !SF2Q_finite.
  pose proof (aligned_value mx ex (Z.min ex ey) ltac:(lia)) as Ax.
  pose proof (aligned_value my ey (Z.min ex ey) ltac:(lia)) as Ay.
  replace ex' with (Z.min ex ey) in * by lia.
  replace ey' with (Z.min ex ey) in * by lia.
  destruct sx, sy; cbn [signed]; rewrite <- Ax, <- Ay; ring.
Qed.

Theorem SFsub_finite_rounded (sx sy : bool) (mx my : positive) (ex ey : Z) :
  rounded (SF2Q (S754_finite sx mx ex) - SF2Q (S754_finite sy my ey))
    (SFsub prec emax (S754_finite sx mx ex) (S754_finite sy my ey)).
Proof.
  cbn [SFsub].
  destruct (shl_align_spec mx ex (Z.min ex ey)) as (mx' & ex' & Ex & Eex & Emx).
  destruct (shl_align_spec my ey (Z.min ex ey)) as (my' & ey' & Ey & Eey & Emy).
  rewrite Ex, Ey. cbn [fst].
  eapply rounded_ext; [| apply binary_normalize_rounded].
  unfold Z.sub at 1. rewrite inject_Z_plus, inject_Z_opp, !cond_Zopp_inject, Emx, Emy, !SF2Q_finite.
  pose proof (aligned_value mx ex (Z.min ex ey) ltac:(lia)) as Ax.
  pose proof (aligned_value my ey (Z.min ex ey) ltac:(lia)) as Ay.
  replace ex' with (Z.min ex ey) in * by lia.
  replace ey' with (Z.min ex ey) in * by lia.
  destruct sx, sy; cbn [signed]; rewrite <- Ax, <- Ay; ring.
Qed.

(** *** Division *)

Lemma new_location_located (m2 r q : Z) (y : Q) :
  0 < m2 -> 0 <= r < m2 ->
  (y == inject_Z q + inject_Z r / inject_Z m2)%Q ->
  located y q (new_location m2 r).
Proof.
  intros Hm2 Hr Hy.
  assert (Hmq : (0 < inject_Z m2)%Q) by (change 0%Q with (inject_Z 0); rewrite <- Zlt_Qlt; lia).
  assert (Hrq : (0 <= inject_Z r)%Q) by (change 0%Q with (inject_Z 0); rewrite <- Zle_Qle; lia).
  set (rho := (inject_Z r / inject_Z m2)%Q) in *.
  assert (H1 : (rho < 1)%Q).
  { unfold rho. apply Qlt_shift_div_r; [assumption |]. rewrite Qmult_1_l, <- Zlt_Qlt. lia. }
  assert (Hpos : r <> 0 -> (0 < rho)%Q).
  { intros Hnz. unfold rho. apply Qlt_shift_div_l; [assumption |].
    rewrite Qmult_0_l. change 0%Q with (inject_Z 0). rewrite <- Zlt_Qlt. lia. }
  assert (Hlt : 2 * r < m2 -> (rho < 1 # 2)%Q).
  { intros H. unfold rho. apply Qlt_shift_div_r; [assumption |].
    assert ((inject_Z (2 * r) < inject_Z m2)%Q) by (rewrite <- Zlt_Qlt; lia).
    rewrite inject_Z_mult in H0. change (inject_Z 2) with 2%Q in H0. lra. }
  assert (Hgt : m2 < 2 * r -> ((1 # 2) < rho)%Q).
  { intros H. unfold rho. apply Qlt_shift_div_l; [assumption |].
    assert ((inject_Z m2 < inject_Z (2 * r))%Q) by (rewrite <- Zlt_Qlt; lia).
    rewrite inject_Z_mult in H0. change (inject_Z 2) with 2%Q in H0. lra. }
  assert (Heq : 2 * r = m2 -> (rho == 1 # 2)%Q).
  { intros H. unfold rho. rewrite <- H, inject_Z_mult. change (inject_Z 2) with 2%Q.
    field. intros E. rewrite <- H, inject_Z_mult in Hmq. change (inject_Z 2) with 2%Q in Hmq. lra. }
  assert (Hz : r = 0 -> (rho == 0)%Q).
  { intros E. unfold rho. rewrite E. change (inject_Z 0) with 0%Q. field.
    intros K. lra. }
  clearbody rho.
  unfold new_location.
  destruct (Z.even m2) eqn:Ev; [unfold new_location_even | unfold new_location_odd];
    destruct (Z.eqb_spec r 0) as [E0 | Hnz].
  - specialize (Hz E0). cbn [located]. lra.
  - specialize (Hpos Hnz).
    destruct (Z.compare_spec (2 * r) m2) as [E | L | G]; cbn [located].
    + specialize (Heq E). lra.
    + specialize (Hlt L). lra.
    + specialize (Hgt G). lra.
  - specialize (Hz E0). cbn [located]. lra.
  - specialize (Hpos Hnz).
    assert (Hodd : 2 * r <> m2).
    { intros E. rewrite <- E, Z.even_mul in Ev. discriminate. }
    destruct (Z.compare_spec (2 * r + 1) m2) as [E | L | G]; cbn [located].
    + specialize (Hlt ltac:(lia)). lra.
    + specialize (Hlt ltac:(lia)). lra.
    + specialize (Hgt ltac:(lia)). lra.
Qed.

Lemma div_eucl_nonneg (a b q r : Z) :
  0 <= a -> 0 < b -> a = b * q + r -> 0 <= r < b -> 0 <= q.
Proof. intros. nia. Qed.

Lemma div_eucl_large (a b q r n : Z) :
  0 < b -> a = b * q + r -> 0 <= r < b -> b * 2 ^ n <= a -> 2 ^ n <= q.
Proof. intros. nia. Qed.

(** Division of finite floats: the rounding of the quotient. *)
Theorem SFdiv_rounds (sx sy : bool) (mx my : positive) (ex ey : Z) :
  rounds (xorb sx sy)
    ((inject_Z (Zpos mx) * pow2 ex) / (inject_Z (Zpos my) * pow2 ey))
    (SFdiv prec emax (S754_finite sx mx ex) (S754_finite sy my ey)).
Proof.
  cbn [SFdiv]. unfold SFdiv_core_binary.
  set (d1 := Zdigits2 (Zpos mx)). set (d2 := Zdigits2 (Zpos my)).
  set (e' := Z.min (fexp prec emax (d1 + ex - (d2 + ey))) (ex - ey)).
  assert (He' : e' <= ex - ey) by (unfold e'; lia).
  assert (He'' : e' <= fexp prec emax (d1 + ex - (d2 + ey))) by (unfold e'; lia).
  set (sft := ex - ey - e') in *.
  assert (Hs : 0 <= sft) by (unfold sft; lia).
  set (m' := match sft with Z0 => Zpos mx | Zpos _ => Z.shiftl (Zpos mx) sft | Zneg _ => 0 end).
  assert (Hm' : m' = Zpos mx * 2 ^ sft).
  { unfold m'. destruct sft as [| p | p] eqn:Es.
    - rewrite Z.pow_0_r. lia.
    - now rewrite Z.shiftl_mul_pow2 by lia.
    - lia. }
  clearbody m'.
  pose proof (Zpow2_pos sft Hs) as Hp2.
  pose proof (Z_div_mod m' (Zpos my) ltac:(lia)) as Hdm.
  destruct (Z.div_eucl m' (Zpos my)) as [q r]. destruct Hdm as [Eq Hr].
  assert (Hmxq : (0 < inject_Z (Zpos mx))%Q) by (change 0%Q with (inject_Z 0); rewrite <- Zlt_Qlt; lia).
  assert (Hmyq : (0 < inject_Z (Zpos my))%Q) by (change 0%Q with (inject_Z 0); rewrite <- Zlt_Qlt; lia).
  pose proof (pow2_pos ex) as Hpx. pose proof (pow2_pos ey) as Hpy.
  pose proof (pow2_pos e') as Hpe.
  apply binary_round_aux_rounds.
  - apply (div_eucl_nonneg m' (Zpos my) q r); lia.
  - apply Qlt_shift_div_l.
    + apply Qmult_lt_0_compat; assumption.
    + rewrite Qmult_0_l. apply Qmult_lt_0_compat; assumption.
  - apply new_location_located; [lia | exact Hr |].
    assert (Em : (inject_Z m' == inject_Z (Zpos my) * inject_Z q + inject_Z r)%Q).
    { rewrite Eq, inject_Z_plus, inject_Z_mult. reflexivity. }
    rewrite Hm', inject_Z_pow2 in Em by exact Hs.
    assert (Ex : (pow2 ex == pow2 sft * pow2 ey * pow2 e')%Q).
    { rewrite <- !pow2_add. unfold sft. replace (ex - ey - e' + ey + e') with ex by lia.
      reflexivity. }
    rewrite Ex.
    pose proof (pow2_pos sft) as Hps.
    transitivity ((inject_Z (Zpos mx) * pow2 sft) / inject_Z (Zpos my))%Q.
    + field. repeat split; lra.
    + rewrite Em. field. lra.
  - rewrite fexp64.
    destruct (Z_le_gt_dec e' (-1074)) as [Hle | Hgt]; [lia |].
    rewrite fexp64 in He''.
    assert (Hd : e' <= d1 + ex - (d2 + ey) - 53) by lia.
    assert (Hq : 2 ^ 52 <= q).
    { apply (div_eucl_large m' (Zpos my) q r); [lia | exact Eq | exact Hr |].
      rewrite Hm'.
      pose proof (Zdigits2_bounds (Zpos mx) ltac:(lia)) as [B1 _].
      pose proof (Zdigits2_bounds (Zpos my) ltac:(lia)) as [_ B2].
      fold d1 in B1. fold d2 in B2.
      pose proof (Zdigits2_pos (Zpos mx) ltac:(lia)) as P1.
      pose proof (Zdigits2_pos (Zpos my) ltac:(lia)) as P2.
      fold d1 in P1. fold d2 in P2.
      assert (Hsft : d2 + 53 - d1 <= sft) by (unfold sft; lia).
      assert (2 ^ d2 * 2 ^ 52 <= 2 ^ (d1 - 1) * 2 ^ sft).
      { rewrite <- !Z.pow_add_r by lia. apply Z.pow_le_mono_r; lia. }
      assert (0 < 2 ^ 52) by (apply Zpow2_pos; lia).
      nia. }
    pose proof (Zdigits2_ge q 52 ltac:(lia) Hq). lia.
Qed.

(** *** Signed values *)

Lemma mag_pos (m : positive) (e : Z) : (0 < inject_Z (Zpos m) * pow2 e)%Q.
Proof.
  apply Qmult_lt_0_compat; [| apply pow2_pos].
  change 0%Q with (inject_Z 0). rewrite <- Zlt_Qlt. lia.
Qed.

Lemma rounds_rounded (s : bool) (a : Q) (f : spec_float) :
  (0 < a)%Q -> rounds s a f -> rounded (signed s a) f.
Proof.
  intros Ha Hr. unfold rounded. destruct s; cbn [signed]; split; [| split | | split]; intros H;
    try (exfalso; lra).
  - eapply rounds_ext; [| exact Hr]. ring.
  - exact Hr.
Qed.

Lemma rounded_finite_self (s : bool) (m : positive) (e : Z) :
  bounded prec emax m e = true ->
  rounded (SF2Q (S754_finite s m e)) (S754_finite s m e).
Proof.
  intros Hb. rewrite SF2Q_finite. apply rounds_rounded; [apply mag_pos |].
  now apply rounds_exact.
Qed.

Lemma rounded_zero_self (s : bool) : rounded 0 (S754_zero s).
Proof. split; [| split]; intros H; [now exists s | |]; exfalso; lra. Qed.

Lemma signed_xorb (sx sy : bool) (a b : Q) :
  (signed (xorb sx sy) (a * b) == signed sx a * signed sy b)%Q.
Proof. destruct sx, sy; cbn; ring. Qed.

Lemma signed_xorb_div (sx sy : bool) (a b : Q) :
  ~ (b == 0)%Q ->
  (signed (xorb sx sy) (a / b) == signed sx a / signed sy b)%Q.
Proof. intros Hb. destruct sx, sy; cbn; field; lra. Qed.

(** *** The operations on zeros and finite floats *)

Theorem SFmul_rounded (x y : spec_float) :
  valid_binary x = true -> valid_binary y = true ->
  SFfinite x = true -> SFfinite y = true ->
  rounded (SF2Q x * SF2Q y) (SFmul prec emax x y).
Proof.
  intros Vx Vy Fx Fy.
  destruct x as [sx | sx | | sx mx ex]; try discriminate;
    destruct y as [sy | sy | | sy my ey]; try discriminate.
  - eapply rounded_ext; [| apply (rounded_zero_self (xorb sx sy))]. cbn. ring.
  - eapply rounded_ext; [| apply (rounded_zero_self (xorb sx sy))]. cbn [SF2Q]. ring.
  - eapply rounded_ext; [| apply (rounded_zero_self (xorb sx sy))]. cbn [SF2Q]. ring.
  - rewrite !SF2Q_finite. eapply rounded_ext; [apply signed_xorb |].
    apply rounds_rounded.
    + apply Qmult_lt_0_compat; apply mag_pos.
    + now apply SFmul_rounds.
Qed.

Theorem SFadd_rounded (x y : spec_float) :
  valid_binary x = true -> valid_binary y = true ->
  SFfinite x = true -> SFfinite y = true ->
  rounded (SF2Q x + SF2Q y) (SFadd prec emax x y).
Proof.
  intros Vx Vy Fx Fy.
  destruct x as [sx | sx | | sx mx ex]; try discriminate;
    destruct y as [sy | sy | | sy my ey]; try discriminate.
  - cbn [SFadd SF2Q].
    eapply rounded_ext with (v := 0%Q); [ring |].
    destruct sx, sy; apply rounded_zero_self.
  - cbn [SFadd]. eapply rounded_ext; [| apply rounded_finite_self; exact Vy].
    cbn [SF2Q]. ring.
  - cbn [SFadd]. eapply rounded_ext; [| apply rounded_finite_self; exact Vx].
    cbn [SF2Q]. ring.
  - apply SFadd_finite_rounded.
Qed.

Theorem SFsub_rounded (x y : spec_float) :
  valid_binary x = true -> valid_binary y = true ->
  SFfinite x = true -> SFfinite y = true ->
  rounded (SF2Q x - SF2Q y) (SFsub prec emax x y).
Proof.
  intros Vx Vy Fx Fy.
  destruct x as [sx | sx | | sx mx ex]; try discriminate;
    destruct y as [sy | sy | | sy my ey]; try discriminate.
  - cbn [SFsub SF2Q].
    eapply rounded_ext with (v := 0%Q); [ring |].
    destruct sx, sy; apply rounded_zero_self.
  - cbn [SFsub].
    eapply rounded_ext; [| apply (rounded_finite_self (negb sy) my ey); exact Vy].
    rewrite !SF2Q_finite. cbn [SF2Q]. destruct sy; cbn; ring.
  - cbn [SFsub]. eapply rounded_ext; [| apply rounded_finite_self; exact Vx].
    cbn [SF2Q]. ring.
  - apply SFsub_finite_rounded.
Qed.

Theorem SFdiv_rounded (x y : spec_float) :
  SFfinite x = true -> SFfinite y = true ->
  ~ (SF2Q y == 0)%Q ->
  rounded (SF2Q x / SF2Q y) (SFdiv prec emax x y).
Proof.
  intros Fx Fy Hy.
  destruct x as [sx | sx | | sx mx ex]; try discriminate;
    destruct y as [sy | sy | | sy my ey]; try discriminate;
    try (exfalso; apply Hy; reflexivity).
  - eapply rounded_ext; [| apply (rounded_zero_self (xorb sx sy))].
    cbn [SF2Q]. field. exact Hy.
  - rewrite !SF2Q_finite.
    pose proof (mag_pos my ey) as Hm.
    eapply rounded_ext; [apply signed_xorb_div; lra |].
    apply rounds_rounded.
    + apply Qlt_shift_div_l; [assumption |]. rewrite Qmult_0_l. apply mag_pos.
    + apply SFdiv_rounds.
Qed.

(** *** What a rounding says of a value that is not negative *)

Section RoundedFacts.

Variables (v : Q) (f : spec_float).
Hypothesis Hr : rounded v f.

Lemma rounded_valid : valid_binary f = true.
Proof.
  destruct Hr as (H0 & Hp & Hn).
  destruct (Q_dec v 0) as [[Hlt | Hgt] | Heq].
  - apply (rounds_valid true (- v)%Q); auto.
  - apply (rounds_valid false v); auto.
  - destruct (H0 Heq) as (s & ->). reflexivity.
Qed.

Lemma rounded_upper (my ey : Z) :
  (0 <= v)%Q ->
  representable my ey -> ey <= 971 ->
  (v <= inject_Z my * pow2 ey)%Q ->
  SFfinite f = true /\ (0 <= SF2Q f <= inject_Z my * pow2 ey)%Q.
Proof.
  intros Hv Hrep Hey Hle. destruct Hr as (H0 & Hp & _).
  destruct (Qlt_le_dec 0 v) as [Hpos | Hnp].
  - specialize (Hp Hpos).
    destruct (rounds_le false v f Hpos Hp my ey Hrep Hey Hle) as (Hf & Hm).
    split; [exact Hf |].
    pose proof (SF2Q_mag f) as E. rewrite (rounds_sign false v f Hp) in E.
    pose proof (SFmag_nonneg f). lra.
  - assert (Hz : (v == 0)%Q) by lra.
    destruct (H0 Hz) as (s & ->). split; [reflexivity |]. cbn [SF2Q]. lra.
Qed.

Lemma rounded_lower (my ey : Z) :
  representable my ey -> 0 < my ->
  (inject_Z my * pow2 ey <= v)%Q ->
  f = S754_infinity false
  \/ (SFfinite f = true /\ (inject_Z my * pow2 ey <= SF2Q f)%Q).
Proof.
  intros Hrep Hmy Hle. destruct Hr as (_ & Hp & _).
  assert (Hb : (0 < inject_Z my * pow2 ey)%Q).
  { apply Qmult_lt_0_compat; [| apply pow2_pos].
    change 0%Q with (inject_Z 0). rewrite <- Zlt_Qlt. lia. }
  assert (Hpos : (0 < v)%Q) by lra.
  specialize (Hp Hpos).
  destruct (rounds_ge false v f Hp my ey Hrep Hmy Hle) as [Hi | (Hf & Hm)].
  - now left.
  - right. split; [exact Hf |].
    pose proof (SF2Q_mag f) as E. rewrite (rounds_sign false v f Hp) in E. lra.
Qed.

Lemma rounded_error :
  (0 <= v)%Q -> SFfinite f = true ->
  (v - (v * pow2 (-53) + pow2 (-1075)) <= SF2Q f
   <= v + (v * pow2 (-53) + pow2 (-1075)))%Q.
Proof.
  intros Hv Hf. destruct Hr as (H0 & Hp & _).
  pose proof (pow2_pos (-53)). pose proof (pow2_pos (-1075)).
  destruct (Qlt_le_dec 0 v) as [Hpos | Hnp].
  - specialize (Hp Hpos).
    pose proof (rounds_error false v f Hpos Hp Hf) as He.
    pose proof (SF2Q_mag f) as E. rewrite (rounds_sign false v f Hp) in E. lra.
  - assert (Hz : (v == 0)%Q) by lra.
    destruct (H0 Hz) as (s & ->). cbn [SF2Q]. rewrite Hz. lra.
Qed.

End RoundedFacts.

(** *** Comparisons *)

Lemma mag_compare (m1 m2 : positive) (e1 e2 : Z) :
  bounded prec emax m1 e1 = true ->
  bounded prec emax m2 e2 = true ->
  (inject_Z (Zpos m1) * pow2 e1 ?= inject_Z (Zpos m2) * pow2 e2)%Q
  = match e1 ?= e2 with
    | Lt => Lt
    | Gt => Gt
    | Eq => Pos.compare_cont Eq m1 m2
    end.
Proof.
  intros H1 H2.
  destruct (bounded_digits m1 e1 H1) as (A1 & B1 & C1).
  destruct (bounded_digits m2 e2 H2) as (A2 & B2 & C2).
  destruct (bounded_representable m1 e1 H1) as (R1 & _).
  destruct (bounded_representable m2 e2 H2) as (R2 & _).
  destruct (Z.compare_spec e1 e2) as [E | L | G].
  - subst e2. change (Pos.compare_cont Eq m1 m2) with (Zpos m1 ?= Zpos m2).
    pose proof (pow2_pos e1) as Hp.
    destruct (Z.compare_spec (Zpos m1) (Zpos m2)) as [E | L | G].
    + apply (proj1 (Qeq_alt _ _)). rewrite E. reflexivity.
    + apply (proj1 (Qlt_alt _ _)). apply Qmult_lt_compat_r; [assumption |]. now rewrite <- Zlt_Qlt.
    + apply (proj1 (Qgt_alt _ _)). apply Qmult_lt_compat_r; [assumption |]. now rewrite <- Zlt_Qlt.
  - apply (proj1 (Qlt_alt _ _)).
    pose proof (repr_below (Zpos m1) e1 e2 R1 L) as Hb.
    specialize (C2 ltac:(lia)).
    pose proof (pow2_le_inject 52 (Zpos m2) ltac:(lia) C2) as H52.
    pose proof (pow2_pos e2) as Hp.
    assert (Hm : (pow2 52 * pow2 e2 <= inject_Z (Zpos m2) * pow2 e2)%Q)
      by (apply Qmult_le_compat_r; [assumption | lra]).
    rewrite <- pow2_add in Hm. replace (52 + e2) with (e2 + 52) in Hm by lia. lra.
  - apply (proj1 (Qgt_alt _ _)).
    pose proof (repr_below (Zpos m2) e2 e1 R2 ltac:(lia)) as Hb.
    specialize (C1 ltac:(lia)).
    pose proof (pow2_le_inject 52 (Zpos m1) ltac:(lia) C1) as H52.
    pose proof (pow2_pos e1) as Hp.
    assert (Hm : (pow2 52 * pow2 e1 <= inject_Z (Zpos m1) * pow2 e1)%Q)
      by (apply Qmult_le_compat_r; [assumption | lra]).
    rewrite <- pow2_add in Hm. replace (52 + e1) with (e1 + 52) in Hm by lia. lra.
Qed.

Lemma Qcompare_opp (a b : Q) : (- a ?= - b)%Q = CompOpp (a ?= b)%Q.
Proof.
  destruct (Qcompare_spec a b) as [E | L | G]; cbn [CompOpp].
  - apply (proj1 (Qeq_alt _ _)). now rewrite E.
  - apply (proj1 (Qgt_alt _ _)). lra.
  - apply (proj1 (Qlt_alt _ _)). lra.
Qed.

Theorem SFcompare_finite (x y : spec_float) :
  valid_binary x = true -> valid_binary y = true ->
  SFfinite x = true -> SFfinite y = true ->
  SFcompare x y = Some (SF2Q x ?= SF2Q y)%Q.
Proof.
  intros Vx Vy Fx Fy.
  destruct x as [sx | sx | | sx mx ex]; try discriminate;
    destruct y as [sy | sy | | sy my ey]; try discriminate; cbn [SFcompare SF2Q]; [reflexivity | | |]; f_equal.
  - pose proof (mag_pos my ey). destruct sy; symmetry; [apply (proj1 (Qgt_alt _ _)) | apply (proj1 (Qlt_alt _ _))]; lra.
  - pose proof (mag_pos mx ex). destruct sx; symmetry; [apply (proj1 (Qlt_alt _ _)) | apply (proj1 (Qgt_alt _ _))]; lra.
  - pose proof (mag_pos mx ex). pose proof (mag_pos my ey).
    destruct sx, sy.
    + rewrite Qcompare_opp, (mag_compare mx my ex ey Vx Vy).
      destruct (ex ?= ey); reflexivity.
    + symmetry. apply (proj1 (Qlt_alt _ _)). lra.
    + symmetry. apply (proj1 (Qgt_alt _ _)). lra.
    + now rewrite (mag_compare mx my ex ey Vx Vy).
Qed.

Lemma SFleb_finite (x y : spec_float) :
  valid_binary x = true -> valid_binary y = true ->
  SFfinite x = true -> SFfinite y = true ->
  SFleb x y = true <-> (SF2Q x <= SF2Q y)%Q.
Proof.
  intros Vx Vy Fx Fy. unfold SFleb. rewrite (SFcompare_finite x y Vx Vy Fx Fy).
  destruct (Qcompare_spec (SF2Q x) (SF2Q y)) as [E | L | G]; split; intros H;
    try reflexivity; try discriminate; lra.
Qed.

Lemma SFltb_finite (x y : spec_float) :
  valid_binary x = true -> valid_binary y = true ->
  SFfinite x = true -> SFfinite y = true ->
  SFltb x y = true <-> (SF2Q x < SF2Q y)%Q.
Proof.
  intros Vx Vy Fx Fy. unfold SFltb. rewrite (SFcompare_finite x y Vx Vy Fx Fy).
  destruct (Qcompare_spec (SF2Q x) (SF2Q y)) as [E | L | G]; split; intros H;
    try reflexivity; try discriminate; lra.
Qed.

(** A comparison the other way round. *)
Lemma SFcompare_antisym (x y : spec_float) :
  SFcompare y x = match SFcompare x y with Some c => Some (CompOpp c) | None => None end.
Proof.
  destruct x as [sx | sx | | sx mx ex], y as [sy | sy | | sy my ey]; cbn [SFcompare];
    try reflexivity;
    try (destruct sx; reflexivity); try (destruct sy; reflexivity);
    try (destruct sx, sy; reflexivity).
  destruct sx, sy; try reflexivity; f_equal;
    rewrite (Z.compare_antisym ex ey);
    change (Pos.compare_cont Eq my mx) with (Pos.compare my mx);
    change (Pos.compare_cont Eq mx my) with (Pos.compare mx my);
    rewrite (Pos.compare_antisym mx my);
    destruct (ex ?= ey); cbn [CompOpp]; try reflexivity;
    destruct (mx ?= my)%positive; reflexivity.
Qed.

(** *** Primitive floats *)

Lemma mul_rounded (x y : float) :
  finite x = true -> finite y = true ->
  rounded (B2Q x * B2Q y) (Prim2SF (x * y)).
Proof. intros. rewrite mul_spec. apply SFmul_rounded; auto using Prim2SF_valid. Qed.

Lemma add_rounded (x y : float) :
  finite x = true -> finite y = true ->
  rounded (B2Q x + B2Q y) (Prim2SF (x + y)).
Proof. intros. rewrite add_spec. apply SFadd_rounded; auto using Prim2SF_valid. Qed.

Lemma sub_rounded (x y : float) :
  finite x = true -> finite y = true ->
  rounded (B2Q x - B2Q y) (Prim2SF (x - y)).
Proof. intros. rewrite sub_spec. apply SFsub_rounded; auto using Prim2SF_valid. Qed.

Lemma div_rounded (x y : float) :
  finite x = true -> finite y = true -> ~ (B2Q y == 0)%Q ->
  rounded (B2Q x / B2Q y) (Prim2SF (x / y)).
Proof. intros. rewrite div_spec. apply SFdiv_rounded; auto. Qed.

Lemma leb_finite (x y : float) :
  finite x = true -> finite y = true ->
  (x <=? y)%float = true <-> (B2Q x <= B2Q y)%Q.
Proof. intros. rewrite leb_spec. apply SFleb_finite; auto using Prim2SF_valid. Qed.

Lemma ltb_finite (x y : float) :
  finite x = true -> finite y = true ->
  (x <? y)%float = true <-> (B2Q x < B2Q y)%Q.
Proof. intros. rewrite ltb_spec. apply SFltb_finite; auto using Prim2SF_valid. Qed.

Lemma SF2Prim_rounded (v : Q) (f : spec_float) :
  rounded v f -> Prim2SF (SF2Prim f) = f.
Proof. intros H. apply Prim2SF_SF2Prim. exact (rounded_valid v f H). Qed.

(** Integer bounds. *)
Lemma representable_Z (n : Z) : 0 <= n < 2 ^ 53 -> representable n 0.
Proof. intros H. split; lia. Qed.

Lemma at_exponent_0 (n : Z) : (inject_Z n * pow2 0 == inject_Z n)%Q.
Proof. rewrite pow2_0. ring. Qed.

Lemma rounded_upper_Z (v : Q) (x : float) (n : Z) :
  rounded v (Prim2SF x) ->
  (0 <= v)%Q -> 0 <= n < 2 ^ 53 -> (v <= inject_Z n)%Q ->
  finite x = true /\ (0 <= B2Q x <= inject_Z n)%Q.
Proof.
  intros Hr Hv Hn Hle.
  destruct (rounded_upper v (Prim2SF x) Hr n 0 Hv (representable_Z n Hn) ltac:(lia))
    as (Hf & Hb).
  - now rewrite at_exponent_0.
  - rewrite at_exponent_0 in Hb. now split.
Qed.

Lemma rounded_lower_Z (v : Q) (x : float) (n : Z) :
  rounded v (Prim2SF x) ->
  0 < n < 2 ^ 53 -> (inject_Z n <= v)%Q ->
  is_pinf x \/ (finite x = true /\ (inject_Z n <= B2Q x)%Q).
Proof.
  intros Hr Hn Hle.
  destruct (rounded_lower v (Prim2SF x) Hr n 0 (representable_Z n ltac:(lia)) ltac:(lia))
    as [Hi | (Hf & Hb)].
  - now rewrite at_exponent_0.
  - now left.
  - right. rewrite at_exponent_0 in Hb. now split.
Qed.

(** *** Literals and conversions *)

Theorem b64_of_Q_rounded (q : Q) : rounded q (Prim2SF (b64_of_Q q)).
Proof.
  assert (H : rounded q (SFdiv prec emax (Z2SF (Qnum q)) (S754_finite false (Qden q) 0))).
  { destruct q as [n d]. cbn [Qnum Qden].
    assert (Hd : (0 < inject_Z (Zpos d))%Q)
      by (change 0%Q with (inject_Z 0); rewrite <- Zlt_Qlt; lia).
    destruct n as [| p | p]; cbn [Z2SF].
    - eapply rounded_ext; [| apply (rounded_zero_self (xorb false false))].
      reflexivity.
    - eapply rounded_ext with (v := signed false (inject_Z (Zpos p) / inject_Z (Zpos d))%Q).
      + cbn [signed]. rewrite (Qmake_Qdiv (Zpos p) d). reflexivity.
      + apply rounds_rounded.
        * apply Qlt_shift_div_l; [assumption |]. rewrite Qmult_0_l.
          change 0%Q with (inject_Z 0). rewrite <- Zlt_Qlt. lia.
        * eapply rounds_ext; [| apply (SFdiv_rounds false false p d 0 0)].
          rewrite pow2_0. field. lra.
    - eapply rounded_ext with (v := signed true (inject_Z (Zpos p) / inject_Z (Zpos d))%Q).
      + cbn [signed]. rewrite (Qmake_Qdiv (Zneg p) d).
        change (Zneg p) with (- Zpos p). rewrite inject_Z_opp. field. lra.
      + apply rounds_rounded.
        * apply Qlt_shift_div_l; [assumption |]. rewrite Qmult_0_l.
          change 0%Q with (inject_Z 0). rewrite <- Zlt_Qlt. lia.
        * eapply rounds_ext; [| apply (SFdiv_rounds true false p d 0 0)].
          rewrite pow2_0. field. lra. }
  unfold b64_of_Q. now rewrite (SF2Prim_rounded q _ H).
Qed.

(** An [int] below [2 ^ 53] converts exactly. *)
Theorem of_int_exact (n : Z) :
  0 <= n < 2 ^ 53 ->
  finite (of_int n) = true /\ (B2Q (of_int n) == inject_Z n)%Q.
Proof.
  intros Hn. pose proof (b64_of_Q_rounded (inject_Z n)) as Hr.
  change (b64_of_Q (inject_Z n)) with (@of_int float binary64 n) in Hr.
  assert (H0 : (0 <= inject_Z n)%Q) by (change 0%Q with (inject_Z 0); rewrite <- Zle_Qle; lia).
  destruct (rounded_upper_Z _ _ n Hr H0 Hn ltac:(lra)) as (Hf & Hlo & Hhi).
  split; [exact Hf |].
  destruct (Z.eq_dec n 0) as [-> | Hnz].
  - change (inject_Z 0) with 0%Q in *. lra.
  - destruct (rounded_lower_Z _ _ n Hr ltac:(lia) ltac:(lra)) as [Hi | (_ & Hge)].
    + unfold finite in Hf. unfold is_pinf in Hi. rewrite Hi in Hf. discriminate.
    + lra.
Qed.

(** *** [round(x, 2)] *)

Lemma round_half_even_nonneg (q : Q) : (0 <= q)%Q -> 0 <= round_half_even q.
Proof. intros H. apply round_half_even_ge. exact H. Qed.

Theorem b64_round2_rounded (x : float) :
  finite x = true -> (0 <= B2Q x)%Q ->
  rounded (inject_Z (round_half_even (B2Q x * 100)) / 100) (Prim2SF (b64_round2 x)).
Proof.
  unfold finite, B2Q, b64_round2. intros Hf Hx.
  destruct (Prim2SF x) as [s | s | | s m e] eqn:E; try discriminate.
  - rewrite E. cbn [SF2Q]. eapply rounded_ext; [| apply rounded_zero_self]. reflexivity.
  - pose proof (mag_pos m e) as Hm. fold (pow2 e).
    destruct s; cbn [SF2Q] in Hx |- *; [exfalso; lra |].
    set (v := (inject_Z (Zpos m) * pow2 e)%Q) in *.
    pose proof (round_half_even_nonneg (v * 100) ltac:(lra)) as Hk.
    destruct (round_half_even (v * 100)) as [| k | k]; [| | lia].
    + change (Prim2SF PrimFloat.zero) with (S754_zero false).
      eapply rounded_ext; [| apply rounded_zero_self]. reflexivity.
    + assert (H : rounded (inject_Z (Zpos k) / 100)
                    (SFdiv prec emax (S754_finite false k 0) (S754_finite false 100 0))).
      { change (inject_Z (Zpos k) / 100)%Q with (signed false (inject_Z (Zpos k) / 100)%Q).
        apply rounds_rounded.
        - apply Qlt_shift_div_l; [reflexivity |]. rewrite Qmult_0_l.
          change 0%Q with (inject_Z 0). rewrite <- Zlt_Qlt. lia.
        - eapply rounds_ext; [| apply (SFdiv_rounds false false k 100 0 0)].
          rewrite pow2_0. change (inject_Z 100) with 100%Q. field. }
      now rewrite (SF2Prim_rounded _ _ H).
Qed.

Lemma b64_round2_pinf (x : float) : is_pinf x -> b64_round2 x = x.
Proof. unfold is_pinf, b64_round2. now intros ->. Qed.

(** *** Comparisons that bound a float *)

Lemma leb_leb_finite (lo x hi : float) :
  finite lo = true -> finite hi = true ->
  (lo <=? x)%float = true -> (x <=? hi)%float = true ->
  finite x = true.
Proof.
  unfold finite. rewrite !leb_spec.
  destruct (Prim2SF x) as [s | [] | | s m e]; try reflexivity;
    destruct (Prim2SF lo) as [sl | sl | | sl ml el]; try discriminate;
    destruct (Prim2SF hi) as [sh | sh | | sh mh eh]; try discriminate;
    cbn; try discriminate; destruct sl; try discriminate; destruct sh; discriminate.
Qed.

Lemma leb_ltb_finite (lo x hi : float) :
  finite lo = true -> finite hi = true ->
  (lo <=? x)%float = true -> (x <? hi)%float = true ->
  finite x = true.
Proof.
  unfold finite. rewrite !leb_spec, !ltb_spec.
  destruct (Prim2SF x) as [s | [] | | s m e]; try reflexivity;
    destruct (Prim2SF lo) as [sl | sl | | sl ml el]; try discriminate;
    destruct (Prim2SF hi) as [sh | sh | | sh mh eh]; try discriminate;
    cbn; try discriminate; destruct sl; try discriminate; destruct sh; discriminate.
Qed.

Lemma leb_pinf (x y : float) :
  finite x = true -> is_pinf y -> (x <=? y)%float = true.
Proof.
  unfold finite, is_pinf. rewrite leb_spec. intros Hx ->.
  destruct (Prim2SF x) as [s | s | | s m e]; try discriminate; reflexivity.
Qed.

Lemma ltb_pinf (x y : float) :
  finite x = true -> is_pinf y -> (x <? y)%float = true.
Proof.
  unfold finite, is_pinf. rewrite ltb_spec. intros Hx ->.
  destruct (Prim2SF x) as [s | s | | s m e]; try discriminate; reflexivity.
Qed.

(** Below a finite float: a finite float or [-inf]. *)
Lemma ltb_cases (x y : float) :
  finite y = true -> (x <? y)%float = true ->
  Prim2SF x = S754_infinity true \/ (finite x = true /\ (B2Q x < B2Q y)%Q).
Proof.
  intros Hy Hlt.
  destruct (finite x) eqn:Hx.
  - right. split; [reflexivity |]. now apply ltb_finite.
  - left. unfold finite in *. rewrite ltb_spec in Hlt.
    destruct (Prim2SF x) as [s | [] | | s m e]; try discriminate; try reflexivity;
      destruct (Prim2SF y) as [sy | sy | | sy my ey]; discriminate.
Qed.

Lemma eqb_zero_false (x : float) :
  finite x = true -> ~ (B2Q x == 0)%Q -> (x =? PrimFloat.zero)%float = false.
Proof.
  intros Hx Hnz. rewrite FloatAxioms.eqb_spec. unfold SFeqb.
  rewrite (SFcompare_finite (Prim2SF x) (Prim2SF PrimFloat.zero)
             (Prim2SF_valid _) (Prim2SF_valid _) Hx eq_refl).
  change (SF2Q (Prim2SF PrimFloat.zero)) with 0%Q. fold (B2Q x).
  destruct (Qcompare_spec (B2Q x) 0) as [E | L | G]; [contradiction | reflexivity | reflexivity].
Qed.

(** *** NaN *)

Lemma is_nan_false (x : float) : PrimFloat.is_nan x = false -> Prim2SF x <> S754_nan.
Proof.
  unfold PrimFloat.is_nan. rewrite FloatAxioms.eqb_spec. intros H E. rewrite E in H. discriminate.
Qed.

Lemma SFcompare_some (x y : spec_float) :
  x <> S754_nan -> y <> S754_nan -> exists c, SFcompare x y = Some c.
Proof.
  intros Hx Hy.
  destruct x as [sx | sx | | sx mx ex]; try contradiction;
    destruct y as [sy | sy | | sy my ey]; try contradiction; cbn; eauto.
Qed.

(** Of two floats other than NaN, one is below the other or the other is at
    most the one. *)
Lemma ltb_false_leb (x y : float) :
  Prim2SF x <> S754_nan -> Prim2SF y <> S754_nan ->
  (x <? y)%float = false -> (y <=? x)%float = true.
Proof.
  intros Hx Hy. rewrite ltb_spec, leb_spec. unfold SFltb, SFleb.
  rewrite (SFcompare_antisym (Prim2SF x) (Prim2SF y)).
  destruct (SFcompare_some _ _ Hx Hy) as (c & ->).
  destruct c; cbn; congruence.
Qed.

Lemma finite_not_nan (x : float) : finite x = true -> Prim2SF x <> S754_nan.
Proof. unfold finite. intros H E. rewrite E in H. discriminate. Qed.

(** *** The rating range *)

Lemma in_rating_range_spec (r : float) :
  in_rating_range r = true <-> finite r = true /\ (0 <= B2Q r <= 5)%Q.
Proof.
  destruct (of_int_exact 0 ltac:(lia)) as (F0 & E0).
  destruct (of_int_exact 5 ltac:(lia)) as (F5 & E5).
  change (inject_Z 0) with 0%Q in E0. change (inject_Z 5) with 5%Q in E5.
  unfold in_rating_range. cbn [fle binary64]. rewrite andb_true_iff. split.
  - intros (H0 & H5).
    pose proof (leb_leb_finite _ _ _ F0 F5 H0 H5) as Hf.
    split; [exact Hf |].
    apply (leb_finite _ _ F0 Hf) in H0. apply (leb_finite _ _ Hf F5) in H5. lra.
  - intros (Hf & H0 & H5). split; apply leb_finite; auto; lra.
Qed.

Lemma not_nan_accepted (r : float) :
  PrimFloat.is_nan r = false ->
  flt r (of_int 0) || flt (of_int 5) r = false ->
  in_rating_range r = true.
Proof.
  intros Hn Hacc. apply orb_false_iff in Hacc as (H0 & H5).
  destruct (of_int_exact 0 ltac:(lia)) as (F0 & _).
  destruct (of_int_exact 5 ltac:(lia)) as (F5 & _).
  apply is_nan_false in Hn.
  unfold in_rating_range. cbn [fle flt binary64] in *. apply andb_true_iff. split.
  - apply ltb_false_leb; auto using finite_not_nan.
  - apply ltb_false_leb; auto using finite_not_nan.
Qed.

Lemma finite_representable (x : float) :
  finite x = true -> (0 < B2Q x)%Q ->
  exists my ey,
    representable my ey /\ 0 < my /\ ey <= 971
    /\ (B2Q x == inject_Z my * pow2 ey)%Q
    /\ Prim2SF x = S754_finite false (Z.to_pos my) ey.
Proof.
  unfold finite, B2Q. intros Hf Hx. pose proof (Prim2SF_valid x) as Hv.
  destruct (Prim2SF x) as [s | s | | s m e]; try discriminate.
  pose proof (mag_pos m e) as Hm.
  destruct s; cbn [SF2Q] in Hx |- *; [lra |].
  destruct (bounded_representable m e Hv) as (Hr & He).
  exists (Zpos m), e. repeat split; try apply Hr; try lia; reflexivity.
Qed.

Lemma finite_grid (x : float) :
  finite x = true -> exists M : Z, (B2Q x == inject_Z M * pow2 (-1074))%Q.
Proof.
  unfold finite, B2Q. intros Hf. pose proof (Prim2SF_valid x) as Hv.
  destruct (Prim2SF x) as [s | s | | s m e]; try discriminate.
  - exists 0. cbn [SF2Q]. change (inject_Z 0) with 0%Q. ring.
  - destruct (bounded_digits m e Hv) as (_ & He & _).
    pose proof (repr_integer (Zpos m) e (-1074) ltac:(lia)) as E.
    destruct s; cbn [SF2Q].
    + exists (- (Zpos m * 2 ^ (e - -1074))). rewrite inject_Z_opp, E. ring.
    + exists (Zpos m * 2 ^ (e - -1074)). exact E.
Qed.

(** A positive rounding is [+inf] or finite. *)
Lemma rounded_pos_shape (v : Q) (x : float) :
  rounded v (Prim2SF x) -> (0 < v)%Q -> is_pinf x \/ finite x = true.
Proof.
  intros (_ & Hp & _) Hv. specialize (Hp Hv).
  unfold is_pinf, finite.
  destruct (rounds_shape false v _ Hp) as [-> | [(m & e & -> & _) | ->]]; auto.
Qed.

Lemma rounded_at_least (v : Q) (x : float) (L : Q) :
  rounded v (Prim2SF x) -> (0 < v)%Q ->
  (finite x = true -> (L <= B2Q x)%Q) ->
  at_least L x.
Proof.
  intros Hr Hv Hb. destruct (rounded_pos_shape v x Hr Hv) as [Hi | Hf].
  - now left.
  - right. split; [exact Hf | exact (Hb Hf)].
Qed.

Lemma at_least_weaken (L L' : Q) (x : float) :
  (L' <= L)%Q -> at_least L x -> at_least L' x.
Proof. intros H [Hi | (Hf & Hb)]; [now left | right; split; [exact Hf | lra]]. Qed.

(** ** The running mean on binary64 *)

Lemma Qsum_Permutation (rs rs' : list Q) :
  Permutation rs rs' -> (Qsum rs == Qsum rs')%Q.
Proof.
  induction 1 as [| x l l' _ IH | x y l | l l' l'' _ IH1 _ IH2]; cbn.
  - reflexivity.
  - fold (Qsum l) (Qsum l'). rewrite IH. reflexivity.
  - ring.
  - now rewrite IH1.
Qed.

Lemma forallb_Permutation {A : Type} (f : A -> bool) (l l' : list A) :
  Permutation l l' -> forallb f l = forallb f l'.
Proof.
  induction 1 as [| x l l' _ IH | x y l | l l' l'' _ IH1 _ IH2]; cbn.
  - reflexivity.
  - now rewrite IH.
  - now rewrite !andb_assoc, (andb_comm (f y) (f x)).
  - congruence.
Qed.

Lemma rounded_error_num (v : Q) (x : float) :
  rounded v (Prim2SF x) -> (0 <= v)%Q -> finite x = true ->
  (v - (v * (1 # 9007199254740992) + (1 # 1329227995784915872903807060280344576))
   <= B2Q x
   <= v + (v * (1 # 9007199254740992) + (1 # 1329227995784915872903807060280344576)))%Q.
Proof.
  intros Hr Hv Hf. pose proof (rounded_error v (Prim2SF x) Hr Hv Hf) as H.
  fold (B2Q x) in H.
  assert (He : (pow2 (-1075) <= pow2 (-120))%Q) by (apply pow2_le; lia).
  change (pow2 (-120)) with (1 # 1329227995784915872903807060280344576)%Q in He.
  change (pow2 (-53)) with (1 # 9007199254740992)%Q in H.
  set (eta := pow2 (-1075)) in *. clearbody eta. lra.
Qed.

Lemma rating_step (R r : float) (n : Z) :
  finite R = true -> (0 <= B2Q R <= 5)%Q ->
  finite r = true -> (0 <= B2Q r <= 5)%Q ->
  0 <= n < 2 ^ 50 ->
  finite ((R * of_int n + r) / of_int (n + 1))%float = true
  /\ (0 <= B2Q ((R * of_int n + r) / of_int (n + 1))%float <= 5)%Q
  /\ (B2Q R * inject_Z n + B2Q r - inject_Z (n + 1) * (1 # 562949953421312)
      <= B2Q ((R * of_int n + r) / of_int (n + 1))%float * inject_Z (n + 1)
      <= B2Q R * inject_Z n + B2Q r + inject_Z (n + 1) * (1 # 562949953421312))%Q.
Proof.
  intros FR HR Fr Hr Hn.
  destruct (of_int_exact n ltac:(lia)) as (FN & EN).
  destruct (of_int_exact (n + 1) ltac:(lia)) as (FN1 & EN1).
  set (N := of_int n) in *. set (N1 := of_int (n + 1)) in *.
  assert (Hnq : (0 <= inject_Z n)%Q) by (change 0%Q with (inject_Z 0); rewrite <- Zle_Qle; lia).
  rewrite inject_Z_plus in EN1 |- *. change (inject_Z 1) with 1%Q in *.
  (* the product *)
  pose proof (mul_rounded R N FR FN) as Hm.
  assert (Hv1 : (0 <= B2Q R * B2Q N <= 5 * inject_Z n)%Q).
  { rewrite EN. split; [apply Qmult_le_0_compat; lra |].
    apply Qmult_le_compat_r; lra. }
  destruct (rounded_upper_Z _ _ (5 * n) Hm (proj1 Hv1) ltac:(lia)) as (Fm & Bm).
  { rewrite inject_Z_mult. exact (proj2 Hv1). }
  rewrite inject_Z_mult in Bm. change (inject_Z 5) with 5%Q in Bm.
  pose proof (rounded_error_num _ _ Hm (proj1 Hv1) Fm) as Em.
  (* the sum *)
  pose proof (add_rounded (R * N)%float r Fm Fr) as Ht.
  assert (Hv2 : (0 <= B2Q (R * N)%float + B2Q r <= inject_Z (5 * n + 5))%Q).
  { rewrite inject_Z_plus, inject_Z_mult. change (inject_Z 5) with 5%Q. lra. }
  destruct (rounded_upper_Z _ _ (5 * n + 5) Ht (proj1 Hv2) ltac:(lia) (proj2 Hv2)) as (Ft & Bt).
  rewrite inject_Z_plus, inject_Z_mult in Bt, Hv2. change (inject_Z 5) with 5%Q in Bt, Hv2.
  pose proof (rounded_error_num _ _ Ht (proj1 Hv2) Ft) as Et.
  (* the quotient *)
  assert (HN1 : ~ (B2Q N1 == 0)%Q) by lra.
  pose proof (div_rounded (R * N + r)%float N1 Ft FN1 HN1) as Hq.
  assert (Hv3 : (0 <= B2Q (R * N + r)%float / B2Q N1 <= 5)%Q).
  { split; [apply Qle_shift_div_l | apply Qle_shift_div_r]; lra. }
  destruct (rounded_upper_Z _ _ 5 Hq (proj1 Hv3) ltac:(lia) (proj2 Hv3)) as (Fq & Bq).
  pose proof (rounded_error_num _ _ Hq (proj1 Hv3) Fq) as Eq.
  change (inject_Z 5) with 5%Q in Bq.
  split; [exact Fq |]. split; [exact Bq |].
  set (q := B2Q ((R * N + r) / N1)%float) in *.
  set (t := B2Q (R * N + r)%float) in *.
  set (m := B2Q (R * N)%float) in *.
  set (v3 := (t / B2Q N1)%Q) in *.
  assert (E3 : (v3 * (inject_Z n + 1) == t)%Q).
  { unfold v3. rewrite EN1. field. lra. }
  assert (Hup : (q * (inject_Z n + 1)
                 <= (v3 + (v3 * (1 # 9007199254740992)
                           + (1 # 1329227995784915872903807060280344576)))
                    * (inject_Z n + 1))%Q)
    by (apply Qmult_le_compat_r; lra).
  assert (Hlo : ((v3 - (v3 * (1 # 9007199254740992)
                        + (1 # 1329227995784915872903807060280344576)))
                 * (inject_Z n + 1)
                 <= q * (inject_Z n + 1))%Q)
    by (apply Qmult_le_compat_r; lra).
  rewrite EN in Em, Hv1.
  set (P := (q * (inject_Z n + 1))%Q) in *.
  set (V := (v3 * (inject_Z n + 1))%Q) in *.
  set (v1 := (B2Q R * inject_Z n)%Q) in *.
  assert (Hup' : (P <= V + V * (1 # 9007199254740992)
                      + (1 # 1329227995784915872903807060280344576) * (inject_Z n + 1))%Q).
  { eapply Qle_trans; [exact Hup |]. unfold V. apply Qle_lteq. right. ring. }
  assert (Hlo' : (V - V * (1 # 9007199254740992)
                  - (1 # 1329227995784915872903807060280344576) * (inject_Z n + 1) <= P)%Q).
  { eapply Qle_trans; [| exact Hlo]. unfold V. apply Qle_lteq. right. ring. }
  clear Hup Hlo Eq Hv3 Hq Ht Hm.
  revert Hnq E3 Hup' Hlo' Em Et Bm Bt Hv1 Hv2 Hr HR.
  generalize (inject_Z n) (B2Q r) (B2Q R). clearbody P V v1 m t q.
  intros Nq rq Rq. intros. lra.
Qed.

(** One accepted rating on binary64: the rating stays within [0, 5], and
    [rating * rating_count] moves by the rating submitted, up to
    [(rating_count + 1) * 2 ^ -49]. *)
Lemma update_rating_float (self : Pizza float) (r : float) :
  in_rating_range (rating self) = true ->
  0 <= rating_count self < 2 ^ 50 ->
  in_rating_range r = true ->
  exists self',
    update_rating self r = Returned tt self'
    /\ rating_count self' = rating_count self + 1
    /\ in_rating_range (rating self') = true
    /\ (B2Q (rating self) * inject_Z (rating_count self) + B2Q r
        - inject_Z (rating_count self + 1) * (1 # 562949953421312)
        <= B2Q (rating self') * inject_Z (rating_count self + 1)
        <= B2Q (rating self) * inject_Z (rating_count self) + B2Q r
           + inject_Z (rating_count self + 1) * (1 # 562949953421312))%Q.
Proof.
  intros HR Hn Hr.
  apply in_rating_range_spec in HR as (FR & BR).
  pose proof Hr as Hr'. apply in_rating_range_spec in Hr' as (Fr & Br).
  destruct (rating_step (rating self) r (rating_count self) FR BR Fr Br Hn)
    as (Fq & Bq & Eq).
  rewrite (update_rating_step self r Hr) by lia.
  eexists. split; [reflexivity |].
  split; [destruct self; reflexivity |].
  replace (rating (set_rating _ _))
    with ((rating self * of_int (rating_count self) + r)
          / of_int (rating_count self + 1))%float
    by (destruct self; reflexivity).
  split; [| exact Eq].
  apply in_rating_range_spec. now split.
Qed.

Lemma rate_all_float (rs : list float) :
  forall (self : Pizza float) (S : Q),
    in_rating_range (rating self) = true ->
    0 <= rating_count self ->
    rating_count self + Z.of_nat (List.length rs) <= 2 ^ 50 ->
    forallb in_rating_range rs = true ->
    (S - inject_Z (rating_count self * rating_count self) * (1 # 562949953421312)
     <= B2Q (rating self) * inject_Z (rating_count self)
     <= S + inject_Z (rating_count self * rating_count self) * (1 # 562949953421312))%Q ->
    exists self',
      rate_all self rs = Returned tt self'
      /\ rating_count self' = rating_count self + Z.of_nat (List.length rs)
      /\ in_rating_range (rating self') = true
      /\ (S + Qsum (map B2Q rs)
          - inject_Z (rating_count self' * rating_count self') * (1 # 562949953421312)
          <= B2Q (rating self') * inject_Z (rating_count self')
          <= S + Qsum (map B2Q rs)
             + inject_Z (rating_count self' * rating_count self') * (1 # 562949953421312))%Q.
Proof.
  induction rs as [| r rs IH]; intros self S HR Hc Hlen Hrs HS.
  - exists self. cbn [rate_all List.length map Qsum fold_right].
    repeat split; try assumption; try lia; lra.
  - cbn [forallb] in Hrs. apply andb_true_iff in Hrs as [Hr Hrs].
    cbn [List.length] in Hlen.
    destruct (update_rating_float self r HR ltac:(lia) Hr) as (self1 & Hu & Hc1 & HR1 & E1).
    cbn [rate_all]. rewrite Hu.
    destruct (IH self1 (S + B2Q r)%Q HR1 ltac:(lia) ltac:(lia) Hrs) as (self' & Hrun & Hc' & HR' & E').
    + rewrite Hc1.
      replace ((rating_count self + 1) * (rating_count self + 1))
        with (rating_count self * rating_count self + 2 * rating_count self + 1) by ring.
      rewrite !inject_Z_plus, !inject_Z_mult in *.
      change (inject_Z 1) with 1%Q in *. change (inject_Z 2) with 2%Q.
      assert (Hnq : (0 <= inject_Z (rating_count self))%Q)
        by (change 0%Q with (inject_Z 0); rewrite <- Zle_Qle; lia).
      revert HS E1 Hnq.
      generalize (inject_Z (rating_count self)) (B2Q (rating self)) (B2Q (rating self1)) (B2Q r).
      intros Nq R0 R1 rq HS E1 Hnq.
      set (P0 := (R0 * Nq)%Q) in *. set (P1 := (R1 * (Nq + 1))%Q) in *.
      set (sq := (Nq * Nq)%Q) in *.
      clearbody P0 P1 sq. lra.
    + exists self'. split; [exact Hrun |]. split; [cbn [List.length]; lia |].
      split; [exact HR' |].
      cbn [map Qsum fold_right]. fold (Qsum (map B2Q rs)).
      revert E'. generalize (inject_Z (rating_count self' * rating_count self'))
        (B2Q (rating self') * inject_Z (rating_count self'))%Q (Qsum (map B2Q rs)) (B2Q r).
      intros; lra.
Qed.

(** The running mean on binary64: from a count of zero, [n >= 1] ratings in
    range leave the count at [n] and the rating within [n * 2 ^ -49] of their
    arithmetic mean. *)
Lemma rate_all_float_mean (self : Pizza float) (rs : list float) :
  in_rating_range (rating self) = true ->
  rating_count self = 0 ->
  forallb in_rating_range rs = true ->
  rs <> [] ->
  Z.of_nat (List.length rs) <= 2 ^ 50 ->
  exists self',
    rate_all self rs = Returned tt self'
    /\ rating_count self' = Z.of_nat (List.length rs)
    /\ in_rating_range (rating self') = true
    /\ (Qabs (B2Q (rating self') - Qmean (map B2Q rs))
        <= inject_Z (Z.of_nat (List.length rs)) * (1 # 562949953421312))%Q.
Proof.
  intros HR Hc Hrs Hne Hlen.
  destruct (rate_all_float rs self 0%Q HR ltac:(lia) ltac:(lia) Hrs)
    as (self' & Hrun & Hc' & HR' & E').
  { rewrite Hc. change (inject_Z (0 * 0)) with 0%Q. change (inject_Z 0) with 0%Q.
    generalize (B2Q (rating self)). intros R. lra. }
  rewrite Hc in Hc'. cbn [Z.add] in Hc'.
  exists self'. split; [exact Hrun |]. split; [exact Hc' |]. split; [exact HR' |].
  rewrite Hc' in E'. unfold Qmean. rewrite length_map.
  set (n := Z.of_nat (List.length rs)) in *.
  assert (Hn : 0 < n) by (unfold n; destruct rs; [congruence | cbn; lia]).
  assert (Hnq : (0 < inject_Z n)%Q) by (change 0%Q with (inject_Z 0); rewrite <- Zlt_Qlt; lia).
  rewrite inject_Z_mult in E'.
  revert E' Hnq. generalize (inject_Z n) (B2Q (rating self')) (Qsum (map B2Q rs)).
  intros Nq R S E' Hnq.
  assert (ES : (S / Nq * Nq == S)%Q) by (field; lra).
  set (M := (S / Nq)%Q) in *.
  apply Qabs_Qle_condition. 
  assert (H1 : ((M - Nq * (1 # 562949953421312)) * Nq <= R * Nq)%Q).
  { eapply Qle_trans; [| exact (proj1 E')]. rewrite <- ES. apply Qle_lteq. right. ring. }
  assert (H2 : (R * Nq <= (M + Nq * (1 # 562949953421312)) * Nq)%Q).
  { eapply Qle_trans; [exact (proj2 E') |]. rewrite <- ES. apply Qle_lteq. right. ring. }
  apply Qmult_le_r in H1; [| exact Hnq]. apply Qmult_le_r in H2; [| exact Hnq].
  clearbody M. split; lra.
Qed.

(** The same multiset of ratings in another order: the same count, and two
    ratings within [n * 2 ^ -48] of each other. *)
Lemma rate_all_float_order (self : Pizza float) (rs rs' : list float) :
  in_rating_range (rating self) = true ->
  rating_count self = 0 ->
  forallb in_rating_range rs = true ->
  Z.of_nat (List.length rs) <= 2 ^ 50 ->
  Permutation rs rs' ->
  exists self1 self2,
    rate_all self rs = Returned tt self1
    /\ rate_all self rs' = Returned tt self2
    /\ rating_count self1 = rating_count self2
    /\ (Qabs (B2Q (rating self1) - B2Q (rating self2))
        <= inject_Z (Z.of_nat (List.length rs)) * (1 # 281474976710656))%Q.
Proof.
  intros HR Hc Hrs Hlen Hp.
  assert (Hrs' : forallb in_rating_range rs' = true)
    by (now rewrite <- (forallb_Permutation _ _ _ Hp)).
  destruct rs as [| r rs].
  - apply Permutation_nil in Hp. subst rs'. exists self, self. cbn [rate_all].
    repeat split; try reflexivity.
    setoid_replace (B2Q (rating self) - B2Q (rating self))%Q with 0%Q by ring.
    cbn. discriminate.
  - assert (Hne' : rs' <> []).
    { intros ->. apply Permutation_sym, Permutation_nil in Hp. discriminate. }
    pose proof (Permutation_length Hp) as Hl.
    destruct (rate_all_float_mean self (r :: rs) HR Hc Hrs ltac:(discriminate) Hlen)
      as (s1 & R1 & K1 & _ & M1).
    destruct (rate_all_float_mean self rs' HR Hc Hrs' Hne' ltac:(rewrite <- Hl; exact Hlen))
      as (s2 & R2 & K2 & _ & M2).
    exists s1, s2. repeat split; try assumption.
    + rewrite K1, K2. now rewrite Hl.
    + assert (Em : (Qmean (map B2Q (r :: rs)) == Qmean (map B2Q rs'))%Q).
      { unfold Qmean. rewrite !length_map, Hl.
        rewrite (Qsum_Permutation _ _ (Permutation_map B2Q Hp)). reflexivity. }
      rewrite <- Hl in M2. rewrite <- Em in M2.
      apply Qabs_Qle_condition in M1, M2. apply Qabs_Qle_condition.
      revert M1 M2.
      generalize (inject_Z (Z.of_nat (List.length (r :: rs)))) (Qmean (map B2Q (r :: rs)))
        (B2Q (rating s1)) (B2Q (rating s2)).
      intros Nq M A B M1 M2. split; lra.
Qed.

(** C3.  Ratings [r1..rn] in [0, 5] submitted to a pizza with rating count 0
    are all accepted and leave [rating_count = n], in binary64 as in any
    arithmetic; each accepted call stores
    [(rating * rating_count + new_rating) / (rating_count + 1)], computed in
    that arithmetic, and adds one to the count.  On binary64, the floats the
    code computes with, the final rating is the arithmetic mean of the exact
    values of [r1..rn] within the floating tolerance [n * 2 ^ -49], and two
    orders of submission of the same ratings leave ratings within
    [n * 2 ^ -48] of each other and the same count ([1 <= n <= 2 ^ 50]: the
    counts are converted to floats exactly). *)
Theorem update_rating_running_mean :
  (forall (F : Type) (A : PyFloat F), PyFloatOrder F ->
   forall (self : Pizza F) (rs : list F),
     rating_count self = 0 ->
     forallb in_rating_range rs = true ->
     exists self',
       rate_all self rs = Returned tt self'
       /\ rating_count self' = Z.of_nat (List.length rs))
  /\ (forall (F : Type) (A : PyFloat F), PyFloatOrder F ->
      forall (self : Pizza F) (r : F),
        0 <= rating_count self ->
        in_rating_range r = true ->
        update_rating self r
        = Returned tt
            (set_rating
               (fdiv (fadd (fmul (rating self) (of_int (rating_count self))) r)
                     (of_int (rating_count self + 1)))
               (set_rating_count (rating_count self + 1) self)))
  /\ (forall (self : Pizza float) (rs : list float),
        in_rating_range (rating self) = true ->
        rating_count self = 0 ->
        forallb in_rating_range rs = true ->
        rs <> [] ->
        Z.of_nat (List.length rs) <= 2 ^ 50 ->
        exists self',
          rate_all self rs = Returned tt self'
          /\ rating_count self' = Z.of_nat (List.length rs)
          /\ in_rating_range (rating self') = true
          /\ (Qabs (B2Q (rating self') - Qmean (map B2Q rs))
              <= inject_Z (Z.of_nat (List.length rs)) * (1 # 562949953421312))%Q)
  /\ (forall (self : Pizza float) (rs rs' : list float),
        in_rating_range (rating self) = true ->
        rating_count self = 0 ->
        forallb in_rating_range rs = true ->
        Z.of_nat (List.length rs) <= 2 ^ 50 ->
        Permutation rs rs' ->
        exists self1 self2,
          rate_all self rs = Returned tt self1
          /\ rate_all self rs' = Returned tt self2
          /\ rating_count self1 = rating_count self2
          /\ (Qabs (B2Q (rating self1) - B2Q (rating self2))
              <= inject_Z (Z.of_nat (List.length rs)) * (1 # 281474976710656))%Q).
Proof.
  split; [| split; [| split]].
  - intros F A O self rs Hc Hrs.
    destruct (rate_all_count rs self) as (self' & Hrun & Hcount); [lia | assumption |].
    exists self'. split; [assumption | lia].
  - intros F A O self r Hc Hr. apply update_rating_step; [assumption | lia].
  - apply rate_all_float_mean.
  - apply rate_all_float_order.
Qed.

(** Ratings 4, 5 and 3 on binary64: count 3 and a rating within [3 * 2 ^ -49]
    of 4; in the order 3, 5, 4 a rating within [3 * 2 ^ -48] of that. *)
Lemma update_rating_running_mean_run :
  (exists self',
      rate_all (fresh_pizza 10%float) [4; 5; 3]%float = Returned tt self'
      /\ rating_count self' = Z.of_nat (List.length [4; 5; 3]%float)
      /\ in_rating_range (rating self') = true
      /\ (Qabs (B2Q (rating self') - Qmean (map B2Q [4; 5; 3]%float))
          <= inject_Z (Z.of_nat (List.length [4; 5; 3]%float)) * (1 # 562949953421312))%Q)
  /\ (exists self1 self2,
      rate_all (fresh_pizza 10%float) [4; 5; 3]%float = Returned tt self1
      /\ rate_all (fresh_pizza 10%float) [3; 5; 4]%float = Returned tt self2
      /\ rating_count self1 = rating_count self2
      /\ (Qabs (B2Q (rating self1) - B2Q (rating self2))
          <= inject_Z (Z.of_nat (List.length [4; 5; 3]%float)) * (1 # 281474976710656))%Q).
Proof.
  destruct update_rating_running_mean as (_ & _ & Tmean & Torder).
  split.
  - apply (Tmean (fresh_pizza 10%float) [4; 5; 3]%float).
    + reflexivity.
    + reflexivity.
    + reflexivity.
    + discriminate.
    + cbn. lia.
  - apply (Torder (fresh_pizza 10%float) [4; 5; 3]%float [3; 5; 4]%float).
    + reflexivity.
    + reflexivity.
    + reflexivity.
    + cbn. lia.
    + apply perm_trans with [4; 3; 5]%float.
      * apply perm_skip, perm_swap.
      * apply perm_trans with [3; 4; 5]%float; [apply perm_swap | apply perm_skip, perm_swap].
Defined.

(** The tolerance is needed: 0.1, 0.2, 0.3 leave 0.20000000000000004 and
    0.3, 0.2, 0.1 leave 0.19999999999999998, two floats one apart from the
    other by [2 ^ -54 * 3], within the tolerance and not equal. *)
Example update_rating_order_binary64 :
  forallb in_rating_range [0.1; 0.2; 0.3]%float = true
  /\ rate_all (fresh_pizza 10%float) [0.1; 0.2; 0.3]%float
     = Returned tt
         (set_rating 0.20000000000000004%float
            (set_rating_count 3 (fresh_pizza 10%float)))
  /\ rate_all (fresh_pizza 10%float) [0.3; 0.2; 0.1]%float
     = Returned tt
         (set_rating 0.19999999999999998%float
            (set_rating_count 3 (fresh_pizza 10%float)))
  /\ PrimFloat.eqb 0.20000000000000004%float 0.19999999999999998%float = false.
Proof. repeat apply conj; vm_compute; reflexivity. Qed.

(** On binary64 the ratings 5.5 and -1 are refused and leave the pizza as it
    was. *)
Example update_rating_out_of_range :
  update_rating (fresh_pizza 10%float) 5.5%float
  = Raised (ValueError "Rating must be between 0 and 5") (fresh_pizza 10%float)
  /\ update_rating (fresh_pizza 10%float) (-1)%float
     = Raised (ValueError "Rating must be between 0 and 5") (fresh_pizza 10%float).
Proof. split; apply update_rating_refused; reflexivity. Qed.

(** C6, on binary64.  NaN is neither below 0 nor above 5, so [update_rating]
    accepts it, and the rating it leaves is NaN, which is not within
    [0, 5]. *)
Theorem update_rating_nan :
  in_rating_range (rating (fresh_pizza 10%float)) = true
  /\ update_rating (fresh_pizza 10%float) PrimFloat.nan
     = Returned tt (set_rating PrimFloat.nan (set_rating_count 1 (fresh_pizza 10%float)))
  /\ in_rating_range
       (rating (state_after (update_rating (fresh_pizza 10%float) PrimFloat.nan)))
     = false.
Proof. repeat apply conj; vm_compute; reflexivity. Qed.

(** ** Special prices below zero *)

Lemma sub_pinf (p sp : float) :
  finite p = true -> Prim2SF sp = S754_infinity true -> is_pinf (p - sp)%float.
Proof.
  unfold finite, is_pinf. intros Fp Esp. rewrite sub_spec, Esp.
  destruct (Prim2SF p) as [s | s | | s m e]; try discriminate; reflexivity.
Qed.

Lemma div_pinf (a p : float) :
  finite p = true -> (0 < B2Q p)%Q -> is_pinf a -> is_pinf (a / p)%float.
Proof.
  intros Fp Hp Ha.
  destruct (finite_representable p Fp Hp) as (my & ey & _ & _ & _ & _ & Ep).
  unfold is_pinf in *. rewrite div_spec, Ha, Ep. reflexivity.
Qed.

Lemma mul_pinf (q c : float) :
  finite c = true -> (0 < B2Q c)%Q -> is_pinf q -> is_pinf (q * c)%float.
Proof.
  intros Fc Hc Hq.
  destruct (finite_representable c Fc Hc) as (my & ey & _ & _ & _ & _ & Ec).
  unfold is_pinf in *. rewrite mul_spec, Hq, Ec. reflexivity.
Qed.

Lemma sub_below_zero (p sp : float) :
  finite p = true -> (0 < B2Q p)%Q ->
  finite sp = true -> (B2Q sp < 0)%Q ->
  at_least (B2Q p) (p - sp)%float
  /\ at_least ((B2Q p - B2Q sp) * (1 - (1 # 4503599627370496))) (p - sp)%float.
Proof.
  intros Fp Hp Fsp Hsp.
  pose proof (sub_rounded p sp Fp Fsp) as Ha.
  assert (Hv : (0 < B2Q p - B2Q sp)%Q) by lra.
  split.
  - destruct (finite_representable p Fp Hp) as (my & ey & Hrep & Hmy & Hey & Ep & _).
    destruct (rounded_lower _ _ Ha my ey Hrep Hmy ltac:(lra)) as [Hi | (Hf & Hb)].
    + now left.
    + right. split; [exact Hf |]. fold (B2Q (p - sp)%float) in Hb. lra.
  - destruct (Qlt_le_dec (B2Q p - B2Q sp) (pow2 (-1021))) as [Hsmall | Hbig].
    + destruct (finite_grid p Fp) as (Mp & Ep). destruct (finite_grid sp Fsp) as (Ms & Es).
      assert (Ev : (B2Q p - B2Q sp == inject_Z (Mp - Ms) * pow2 (-1074))%Q).
      { unfold Z.sub. rewrite inject_Z_plus, inject_Z_opp, Ep, Es. ring. }
      pose proof (pow2_pos (-1074)) as Hg.
      assert (HM : 0 < Mp - Ms < 2 ^ 53).
      { split.
        - rewrite Ev in Hv. rewrite (Zlt_Qlt 0). change (inject_Z 0) with 0%Q.
          apply (Qmult_lt_r _ _ (pow2 (-1074)) Hg). lra.
        - rewrite Zlt_Qlt. rewrite <- pow2_Z by lia.
          apply (Qmult_lt_r _ _ (pow2 (-1074)) Hg). rewrite <- pow2_add.
          change (53 + -1074) with (-1021). lra. }
      destruct (rounded_lower _ _ Ha (Mp - Ms) (-1074)) as [Hi | (Hf & Hb)].
      * split; lia.
      * lia.
      * lra.
      * now left.
      * right. split; [exact Hf |]. fold (B2Q (p - sp)%float) in Hb.
        rewrite <- Ev in Hb. lra.
    + apply (rounded_at_least _ _ _ Ha Hv). intros Hf.
      pose proof (rounded_error _ _ Ha ltac:(lra) Hf) as (He & _).
      fold (B2Q (p - sp)%float) in He.
      assert (Eeta : (pow2 (-1075) == (1 # 18014398509481984) * pow2 (-1021))%Q).
      { change (1 # 18014398509481984)%Q with (pow2 (-54)). rewrite <- pow2_add. reflexivity. }
      change (pow2 (-53)) with (1 # 9007199254740992)%Q in He.
      set (g := pow2 (-1021)) in *. set (eta := pow2 (-1075)) in *.
      clearbody g eta. lra.
Qed.

Lemma div_at_least (a p : float) (L : Q) :
  finite p = true -> (0 < B2Q p)%Q -> (0 < L)%Q ->
  at_least L a ->
  (forall K : Z, 0 < K < 2 ^ 53 -> (inject_Z K <= L / B2Q p)%Q ->
     at_least (inject_Z K) (a / p)%float)
  /\ at_least (L / B2Q p
               - (L / B2Q p * (1 # 9007199254740992)
                  + (1 # 1329227995784915872903807060280344576))) (a / p)%float.
Proof.
  intros Fp Hp HL [Hi | (Fa & Ba)].
  - pose proof (div_pinf a p Fp Hp Hi). split; [intros K _ _ |]; now left.
  - pose proof (div_rounded a p Fa Fp ltac:(lra)) as Hq.
    assert (Hv : (L / B2Q p <= B2Q a / B2Q p)%Q).
    { apply Qmult_le_compat_r; [exact Ba |]. apply Qinv_le_0_compat. lra. }
    assert (HLp : (0 < L / B2Q p)%Q).
    { apply Qlt_shift_div_l; lra. }
    split.
    + intros K HK HKL. apply (rounded_lower_Z _ _ K Hq HK). lra.
    + apply (rounded_at_least _ _ _ Hq ltac:(lra)). intros Hf.
      pose proof (rounded_error_num _ _ Hq ltac:(lra) Hf) as (He & _).
      set (v := (B2Q a / B2Q p)%Q) in *. set (l := (L / B2Q p)%Q) in *.
      clearbody v l. lra.
Qed.

Lemma mul_100_at_least (q : float) (L : Q) :
  (0 < L)%Q ->
  at_least L q ->
  (forall K : Z, 0 < K < 2 ^ 53 -> (inject_Z K <= L * 100)%Q ->
     at_least (inject_Z K) (q * of_int 100)%float)
  /\ at_least (L * 100
               - (L * 100 * (1 # 9007199254740992)
                  + (1 # 1329227995784915872903807060280344576))) (q * of_int 100)%float.
Proof.
  destruct (of_int_exact 100 ltac:(lia)) as (F100 & E100).
  change (inject_Z 100) with 100%Q in E100.
  intros HL [Hi | (Fq & Bq)].
  - pose proof (mul_pinf q (of_int 100) F100 ltac:(lra) Hi).
    split; [intros K _ _ |]; now left.
  - pose proof (mul_rounded q (of_int 100) Fq F100) as Ht.
    apply (rounded_ext _ (B2Q q * 100)%Q) in Ht; [| now rewrite E100].
    split.
    + intros K HK HKL. apply (rounded_lower_Z _ _ K Ht HK). lra.
    + apply (rounded_at_least _ _ _ Ht ltac:(lra)). intros Hf.
      pose proof (rounded_error_num _ _ Ht ltac:(lra) Hf) as (He & _).
      lra.
Qed.

Lemma round2_at_least (t : float) (L : Q) :
  at_least L t ->
  ((10000 <= L * 100)%Q -> at_least 100 (b64_round2 t))
  /\ ((10000 + (1 # 2) < L * 100)%Q -> at_least (12801 # 128) (b64_round2 t)).
Proof.
  intros [Hi | (Ft & Bt)].
  - rewrite (b64_round2_pinf t Hi). split; intros _; now left.
  - split; intros HL.
    + pose proof (b64_round2_rounded t Ft ltac:(lra)) as Hd.
      assert (Hk : 10000 <= round_half_even (B2Q t * 100)).
      { apply round_half_even_ge. change (inject_Z 10000) with 10000%Q. lra. }
      rewrite Zle_Qle in Hk. change (inject_Z 10000) with 10000%Q in Hk.
      apply (rounded_lower_Z _ _ 100 Hd ltac:(lia)).
      change (inject_Z 100) with 100%Q. apply Qle_shift_div_l; lra.
    + pose proof (b64_round2_rounded t Ft ltac:(lra)) as Hd.
      assert (Hk : 10000 < round_half_even (B2Q t * 100)).
      { apply round_half_even_gt. change (inject_Z 10000) with 10000%Q. lra. }
      assert (Hk' : 10001 <= round_half_even (B2Q t * 100)) by lia.
      rewrite Zle_Qle in Hk'. change (inject_Z 10001) with 10001%Q in Hk'.
      assert (E : (inject_Z 12801 * pow2 (-7) == 12801 # 128)%Q) by reflexivity.
      destruct (rounded_lower _ _ Hd 12801 (-7)) as [Hinf | (Hf & Hb)].
      * split; lia.
      * lia.
      * rewrite E. apply Qle_shift_div_l; lra.
      * now left.
      * right. split; [exact Hf |]. fold (B2Q (b64_round2 t)) in Hb. rewrite E in Hb. exact Hb.
Qed.

(** What [get_discount_percentage] computes for a special price below zero
    on a positive price: at least 100, and more than 100 once the special
    price is at or below [-0.00005001] times the price. *)
Lemma discount_below_zero (p sp : float) :
  finite p = true -> (0 < B2Q p)%Q ->
  (sp <? of_int 0)%float = true ->
  at_least 100 (b64_round2 ((p - sp) / p * of_int 100)%float)
  /\ ((finite sp = true -> (B2Q sp <= - (5001 # 100000000) * B2Q p)%Q) ->
      at_least (12801 # 128) (b64_round2 ((p - sp) / p * of_int 100)%float)).
Proof.
  intros Fp Hp Hneg.
  destruct (of_int_exact 0 ltac:(lia)) as (F0 & E0). change (inject_Z 0) with 0%Q in E0.
  destruct (ltb_cases sp (of_int 0) F0 Hneg) as [Hinf | (Fsp & Hsp)].
  - pose proof (sub_pinf p sp Fp Hinf) as H1.
    pose proof (div_pinf _ p Fp Hp H1) as H2.
    destruct (of_int_exact 100 ltac:(lia)) as (F100 & E100).
    change (inject_Z 100) with 100%Q in E100.
    pose proof (mul_pinf _ (of_int 100) F100 ltac:(lra) H2) as H3.
    rewrite (b64_round2_pinf _ H3). split; [| intros _]; now left.
  - rewrite E0 in Hsp.
    destruct (sub_below_zero p sp Fp Hp Fsp Hsp) as (A1 & A2).
    split.
    + destruct (div_at_least _ p _ Fp Hp Hp A1) as (Q1 & _).
      specialize (Q1 1 ltac:(lia)).
      assert (Q1' : at_least 1 ((p - sp) / p)%float).
      { apply Q1. change (inject_Z 1) with 1%Q. apply Qle_shift_div_l; lra. }
      destruct (mul_100_at_least _ 1 ltac:(lra) Q1') as (T1 & _).
      specialize (T1 100 ltac:(lia) ltac:(change (inject_Z 100) with 100%Q; lra)).
      change (inject_Z 100) with 100%Q in T1.
      apply (round2_at_least _ 100 T1). lra.
    + intros Hth. specialize (Hth Fsp).
      assert (A3 : at_least (B2Q p * (1000050009 # 1000000000)) (p - sp)%float).
      { refine (at_least_weaken _ _ _ _ A2).
        set (P := B2Q p) in *. set (S := B2Q sp) in *. clearbody P S. lra. }
      assert (HL : (0 < B2Q p * (1000050009 # 1000000000))%Q) by lra.
      destruct (div_at_least _ p _ Fp Hp HL A3) as (_ & Q2).
      assert (EL : (B2Q p * (1000050009 # 1000000000) / B2Q p == 1000050009 # 1000000000)%Q)
        by (field; lra).
      assert (Q3 : at_least (1000050008 # 1000000000) ((p - sp) / p)%float).
      { refine (at_least_weaken _ _ _ _ Q2).
        set (l := (B2Q p * (1000050009 # 1000000000) / B2Q p)%Q) in *. clearbody l. lra. }
      destruct (mul_100_at_least _ (1000050008 # 1000000000) ltac:(lra) Q3) as (_ & T2).
      apply (round2_at_least _ _ T2). lra.
Qed.

Lemma get_discount_percentage_float (now : datetime) (self : Pizza float) (sp : float) :
  finite (price self) = true -> (0 < B2Q (price self))%Q ->
  offer_active_at now self sp ->
  get_discount_percentage now self
  = Returned (b64_round2 ((price self - sp) / price self * of_int 100)%float) self.
Proof.
  intros Fp Hp Ha. rewrite (get_discount_percentage_active now self sp Ha).
  unfold py_div. cbn [fis_zero binary64 fsub fdiv fmul fround2].
  rewrite (eqb_zero_false (price self) Fp) by lra. reflexivity.
Qed.

Lemma at_least_leb (n : Z) (x : float) :
  0 <= n < 2 ^ 53 -> at_least (inject_Z n) x -> fle (of_int n) x = true.
Proof.
  intros Hn Hx. destruct (of_int_exact n Hn) as (Fn & En).
  cbn [fle binary64]. destruct Hx as [Hi | (Fx & Bx)].
  - now apply leb_pinf.
  - apply leb_finite; auto. lra.
Qed.

Lemma at_least_ltb (n : Z) (L : Q) (x : float) :
  0 <= n < 2 ^ 53 -> (inject_Z n < L)%Q -> at_least L x -> flt (of_int n) x = true.
Proof.
  intros Hn HL Hx. destruct (of_int_exact n Hn) as (Fn & En).
  cbn [flt binary64]. destruct Hx as [Hi | (Fx & Bx)].
  - now apply ltb_pinf.
  - apply ltb_finite; auto. lra.
Qed.

(** C10, amended.  [set_special_offer] puts no lower bound on the special
    price: whatever is strictly below the price is accepted, zero and
    negative values (and [-inf]) included.  On binary64, for a negative
    special price on a positive finite base price, an active offer makes
    [get_discount_percentage] return a value of at least 100, and a value
    strictly greater than 100 as soon as the special price is at or below
    [-0.00005001] times the price; nearer to zero the rounding to two
    decimals can bring the result back to 100.0. *)
Theorem set_special_offer_no_lower_bound :
  (forall (F : Type) (A : PyFloat F), PyFloatOrder F ->
   forall (self : Pizza F) (p : F) (start_date end_date : option datetime),
     flt p (price self) = true ->
     exists self',
       set_special_offer self p start_date end_date = Returned tt self'
       /\ is_special self' = true
       /\ special_price self' = Some p)
  /\ (forall (now : datetime) (self : Pizza float) (sp : float),
        finite (price self) = true ->
        flt (of_int 0) (price self) = true ->
        flt sp (of_int 0) = true ->
        offer_active_at now self sp ->
        exists d : float,
          get_discount_percentage now self = Returned d self
          /\ fle (of_int 100) d = true
          /\ ((finite sp = true ->
               (B2Q sp <= - (5001 # 100000000) * B2Q (price self))%Q) ->
              flt (of_int 100) d = true)).
Proof.
  split.
  - intros F A O self p sd ed Hp. eexists.
    split; [apply set_special_offer_ok; assumption |].
    destruct self; cbn. auto.
  - intros now self sp Fp Hp Hsp Ha.
    destruct (of_int_exact 0 ltac:(lia)) as (F0 & E0). change (inject_Z 0) with 0%Q in E0.
    cbn [flt binary64] in Hp, Hsp.
    apply (ltb_finite _ _ F0 Fp) in Hp. rewrite E0 in Hp.
    rewrite (get_discount_percentage_float now self sp Fp Hp Ha).
    destruct (discount_below_zero (price self) sp Fp Hp Hsp) as (D1 & D2).
    eexists. split; [reflexivity |]. split.
    + apply (at_least_leb 100); [lia | exact D1].
    + intros Hth. apply (at_least_ltb 100 (12801 # 128)); [lia | reflexivity |].
      exact (D2 Hth).
Qed.

Lemma set_special_offer_no_lower_bound_run :
  (exists self',
      set_special_offer (fresh_pizza 20%float) (-5)%float None None = Returned tt self'
      /\ is_special self' = true
      /\ special_price self' = Some (-5)%float)
  /\ (exists d : float,
      get_discount_percentage 0 pizza_at_minus_five = Returned d pizza_at_minus_five
      /\ fle (of_int 100) d = true
      /\ ((finite (-5)%float = true ->
           (B2Q (-5)%float <= - (5001 # 100000000) * B2Q (price pizza_at_minus_five))%Q) ->
          flt (of_int 100) d = true)).
Proof.
  destruct set_special_offer_no_lower_bound as (Tset & Tdisc).
  split.
  - exact (Tset float binary64 binary64_order (fresh_pizza 20%float) (-5)%float None None
             eq_refl).
  - apply (Tdisc 0 pizza_at_minus_five (-5)%float).
    + reflexivity.
    + reflexivity.
    + reflexivity.
    + unfold offer_active_at. cbn. repeat apply conj; try reflexivity; discriminate.
Defined.

Example get_discount_percentage_minus_five :
  get_discount_percentage 0 pizza_at_minus_five = Returned 125%float pizza_at_minus_five.
Proof. vm_compute. reflexivity. Qed.

(** On binary64, price 30 and special price -0.001: the offer is accepted
    and is active, the quotient times 100 is 100.00333333333333, and
    [get_discount_percentage] returns 100.0, which is not greater than
    100. *)
Lemma get_discount_percentage_rounds_to_100 :
  flt (of_int 0) (price pizza_below_zero) = true
  /\ set_special_offer (fresh_pizza 30%float) (-0.001)%float None None
     = Returned tt pizza_below_zero
  /\ get_current_price 0 pizza_below_zero = Returned (-0.001)%float pizza_below_zero
  /\ flt (-0.001)%float (of_int 0) = true
  /\ get_discount_percentage 0 pizza_below_zero = Returned 100%float pizza_below_zero
  /\ flt (of_int 100) 100%float = false.
Proof. repeat apply conj; vm_compute; reflexivity. Qed.

(** Just above the threshold the result is still 100.0: price 25 and special
    price -0.00125, which is [-0.00005] times the price. *)
Example get_discount_percentage_at_threshold :
  get_discount_percentage 0 pizza_at_threshold = Returned 100%float pizza_at_threshold.
Proof. vm_compute. reflexivity. Qed.

(** A price of [+inf] passes the guard with any finite special price, and the
    discount is NaN. *)
Example get_discount_percentage_infinite_price :
  flt (of_int 0) (price pizza_priced_infinity) = true
  /\ exists d : float,
       get_discount_percentage 0 pizza_priced_infinity = Returned d pizza_priced_infinity
       /\ PrimFloat.is_nan d = true.
Proof. split; [reflexivity |]. eexists. split; vm_compute; reflexivity. Qed.

(** ** The json codec: what [json.dumps] writes, [json.loads] reads back *)














(** Induction on values, with the hypothesis for every item of a list and
    every value of a dict. *)
Section pyvalue_induction.

Variable P : pyvalue -> Prop.
Hypothesis HNone : P PyNone.
Hypothesis HBool : forall b, P (PyBool b).
Hypothesis HInt : forall n, P (PyInt n).
Hypothesis HStr : forall s, P (PyStr s).
Hypothesis HList : forall l, Forall P l -> P (PyList l).
Hypothesis HDict : forall d, Forall (fun kv => P (snd kv)) d -> P (PyDict d).
Hypothesis HObject : forall cls, P (PyObject cls).


End pyvalue_induction.
























(** ** The fuel of the decoder *)

Lemma skip_ws_length (s : string) :
  (String.length (skip_ws s) <= String.length s)%nat.
Proof.
  induction s as [| c s IH]; cbn; [lia |]. destruct (is_ws c); cbn; lia.
Qed.

Lemma strip_prefix_length (p : string) :
  forall s r : string,
    strip_prefix p s = Some r ->
    (String.length r + String.length p = String.length s)%nat.
Proof.
  induction p as [| a p IH]; intros s r; cbn.
  - intros [= ->]. lia.
  - destruct s as [| b s]; [discriminate |].
    destruct (a =? b)%char; [| discriminate].
    intros Hr. apply IH in Hr. cbn. lia.
Qed.

Lemma digits_length (s : string) :
  forall ds rest : string,
    digits s = (ds, rest) -> (String.length rest <= String.length s)%nat.
Proof.
  induction s as [| c s IH]; intros ds rest; cbn.
  - intros [= <- <-]. cbn. lia.
  - destruct (is_digit c).
    + destruct (digits s) as [ds' rest'] eqn:E. intros [= <- <-].
      specialize (IH _ _ eq_refl). lia.
    + intros [= <- <-]. cbn. lia.
Qed.

(** The scan stops with an error or without a value. *)
Ltac stops := solve [split; [discriminate | intros ? ? [=]]].

Lemma scanstring_total (n : nat) :
  forall s : string,
    (String.length s <= n)%nat ->
    answers (scanstring s) /\ consumes s (scanstring s).
Proof.
  unfold answers, consumes.
  induction n as [| n IH]; intros s Hn.
  - destruct s; [| cbn in Hn; lia]. stops.
  - destruct s as [| c rest]; [stops |].
    cbn in Hn. cbn [scanstring].
    destruct (c =? dquote)%char.
    { split; [discriminate |]. intros ? ? [= <- <-]. cbn. lia. }
    destruct (c =? backslash)%char.
    2:{ destruct (N_of_ascii c <? 32)%N; [stops |].
        destruct (IH rest ltac:(lia)) as [Ha Hc].
        destruct (scanstring rest); try stops.
        - split; [discriminate |]. intros ? ? [= <- <-].
          specialize (Hc _ _ eq_refl). cbn. lia.
        - now contradiction Ha. }
    destruct rest as [| e rest1]; [stops |].
    cbn in Hn.
    assert (Hshort : forall (c' : ascii) (r1 : string),
               (String.length r1 <= String.length rest1)%nat ->
               (match scanstring r1 with
                | Got t r => Got (String c' t) r
                | other => other
                end <> Exhausted)
               /\ forall a r,
                   match scanstring r1 with
                   | Got t r => Got (String c' t) r
                   | other => other
                   end = Got a r ->
                   (String.length r < S (S (String.length rest1)))%nat).
    { intros c' r1 Hr1. destruct (IH r1 ltac:(lia)) as [Ha Hc].
      destruct (scanstring r1); try stops.
      - split; [discriminate |]. intros ? ? [= <- <-].
        specialize (Hc _ _ eq_refl). lia.
      - now contradiction Ha. }
    destruct e as [[] [] [] [] [] [] [] []];
      try (cbn [unescape Ascii.eqb Bool.eqb dquote backslash];
           first [ stops | apply Hshort; lia ]).
    destruct rest1 as [| h1 [| h2 [| h3 [| h4 rest']]]];
      try stops.
    destruct (hex_value h1), (hex_value h2), (hex_value h3), (hex_value h4);
      try stops.
    destruct (_ <? 256)%N; [| stops].
    destruct (Hshort (ascii_of_N (((n0 * 16 + n1) * 16 + n2) * 16 + n3)) rest') as [Ha Hc];
      [cbn; lia |].
    split; [exact Ha |]. intros a r Hr. specialize (Hc a r Hr). cbn in *. lia.
Qed.

Lemma scan_number_total (s : string) :
  answers (scan_number s) /\ consumes s (scan_number s).
Proof.
  unfold answers, consumes.
  assert (Hnum : forall (neg : bool) (c : ascii) (s2 : string),
             (let (ds, rest) := if (c =? "0")%char then ("", s2) else digits s2 in
              if float_follows rest then Unmodelled
              else Got (PyInt (if neg then (- int_of_digits (String c ds))%Z
                               else int_of_digits (String c ds))) rest)
             <> Exhausted
             /\ forall a r,
                 (let (ds, rest) := if (c =? "0")%char then ("", s2) else digits s2 in
                  if float_follows rest then Unmodelled
                  else Got (PyInt (if neg then (- int_of_digits (String c ds))%Z
                                   else int_of_digits (String c ds))) rest)
                 = Got a r ->
                 (String.length r <= String.length s2)%nat).
  { intros neg c s2. destruct (c =? "0")%char.
    - destruct (float_follows s2); split; try discriminate; intros ? ? [= <- <-]; lia.
    - destruct (digits s2) as [ds rest] eqn:E. apply digits_length in E.
      destruct (float_follows rest); split; try discriminate; intros ? ? [= <- <-]; lia. }
  unfold scan_number.
  destruct s as [| a s']; [stops |].
  destruct a as [[] [] [] [] [] [] [] []];
    try (cbv beta iota; change (is_digit _) with false; cbv iota; stops);
    try (cbv beta iota; change (is_digit _) with true; cbv iota;
         match goal with
         | |- context [String.length (String ?c ?s2)] =>
             destruct (Hnum false c s2) as [Ha Hc]
         end;
         split; [exact Ha | intros a r Hr; specialize (Hc a r Hr); cbn; lia]).
  cbv beta iota. destruct s' as [| c s2]; [stops |].
  destruct (is_digit c); [| stops].
  destruct (Hnum true c s2) as [Ha Hc].
  split; [exact Ha | intros a r Hr; specialize (Hc a r Hr); cbn; lia].
Qed.

(** The same, for a scan that is given its fuel. *)
Ltac halts := solve [split; [intros ? ? [=] | intros; discriminate]].

Lemma map_scan_total {A B : Type} (s : string) (n : nat) (r : scan A) (f : A -> B) :
  answers r ->
  (forall a rest, r = Got a rest -> (String.length rest < n)%nat) ->
  (n <= String.length s)%nat ->
  answers (match r with
           | Got a rest => Got (f a) rest
           | NoValue => NoValue
           | Failed m => Failed m
           | Unmodelled => Unmodelled
           | Exhausted => Exhausted
           end)
  /\ consumes s (match r with
                 | Got a rest => Got (f a) rest
                 | NoValue => NoValue
                 | Failed m => Failed m
                 | Unmodelled => Unmodelled
                 | Exhausted => Exhausted
                 end).
Proof.
  unfold answers, consumes. intros Ha Hc Hn.
  destruct r; try stops; [| now contradiction Ha].
  split; [discriminate |]. intros ? ? [= <- <-]. specialize (Hc _ _ eq_refl). lia.
Qed.

(** With two units of fuel for each character of the text (and one more, or
    two for the loop of an array) the three scans answer, and what they leave
    is shorter than what they were given. *)
Lemma scan_total (fuel : nat) :
  (forall s : string,
      consumes s (scan_once fuel s)
      /\ ((2 * String.length s + 1 <= fuel)%nat -> answers (scan_once fuel s)))
  /\ (forall s : string,
      consumes s (scan_items fuel s)
      /\ ((2 * String.length s + 2 <= fuel)%nat -> answers (scan_items fuel s)))
  /\ (forall s : string,
      consumes s (scan_members fuel s)
      /\ ((2 * String.length s + 1 <= fuel)%nat -> answers (scan_members fuel s))).
Proof.
  induction fuel as [| fuel (IHo & IHi & IHm)].
  - repeat split; try (intros ? ? [=]); intros Hf; lia.
  - split; [| split]; intros s.
    + destruct s as [| c rest]; [halts |].
      cbn [scan_once]. cbn [String.length].
      destruct (c =? dquote)%char.
      { destruct (scanstring_total _ rest (le_n _)) as [Ha Hc].
        destruct (map_scan_total (String c rest) (String.length rest)
                    (scanstring rest) PyStr Ha Hc) as [Ha' Hc']; [cbn; lia |].
        split; [exact Hc' | intros _; exact Ha']. }
      destruct (c =? "{")%char.
      { pose proof (skip_ws_length rest) as Hws.
        destruct (skip_ws rest) as [| c1 r]; [halts |].
        cbn [String.length] in Hws.
        destruct (c1 =? "}")%char.
        { split; [| discriminate]. intros ? ? [= <- <-]. cbn. lia. }
        destruct (c1 =? dquote)%char; [| halts].
        destruct (IHm r) as [Hc Ha]. split.
        - intros a r' Hr. destruct (scan_members fuel r) eqn:E; try discriminate Hr.
          injection Hr as <- <-. specialize (Hc _ _ eq_refl). cbn. lia.
        - intros Hf. specialize (Ha ltac:(lia)). unfold answers in *.
          destruct (scan_members fuel r); congruence. }
      destruct (c =? "[")%char.
      { pose proof (skip_ws_length rest) as Hws.
        destruct (skip_ws rest) as [| c1 r]; [halts |].
        cbn [String.length] in Hws.
        destruct (c1 =? "]")%char.
        { split; [| discriminate]. intros ? ? [= <- <-]. cbn. lia. }
        destruct (IHi (String c1 r)) as [Hc Ha]. cbn [String.length] in Ha. split.
        - intros a r' Hr. destruct (scan_items fuel (String c1 r)) eqn:E; try discriminate Hr.
          injection Hr as <- <-. specialize (Hc _ _ eq_refl). cbn in *. lia.
        - intros Hf. specialize (Ha ltac:(lia)). unfold answers in *.
          destruct (scan_items fuel (String c1 r)); congruence. }
      destruct (strip_prefix "null" (String c rest)) as [r |] eqn:En.
      { apply strip_prefix_length in En. cbn in En.
        split; [| discriminate]. intros ? ? [= <- <-]. cbn. lia. }
      destruct (strip_prefix "true" (String c rest)) as [r |] eqn:Et.
      { apply strip_prefix_length in Et. cbn in Et.
        split; [| discriminate]. intros ? ? [= <- <-]. cbn. lia. }
      destruct (strip_prefix "false" (String c rest)) as [r |] eqn:Ef.
      { apply strip_prefix_length in Ef. cbn in Ef.
        split; [| discriminate]. intros ? ? [= <- <-]. cbn. lia. }
      destruct (scan_number_total (String c rest)) as [Ha Hc].
      destruct (scan_number (String c rest)) eqn:E;
        try halts.
      * split; [| discriminate]. intros ? ? [= <- <-]. apply (Hc _ _ eq_refl).
      * destruct (strip_prefix "NaN" _); [halts |].
        destruct (strip_prefix "Infinity" _); [halts |].
        destruct (strip_prefix "-Infinity" _); halts.
      * now contradiction Ha.
    + cbn [scan_items].
      destruct (IHo s) as [Hc Ha]. split.
      * intros vs r' Hr.
        destruct (scan_once fuel s) as [v r | | | |] eqn:E; try discriminate Hr.
        specialize (Hc _ _ eq_refl).
        pose proof (skip_ws_length r) as Hws.
        destruct (skip_ws r) as [| c1 r1]; [discriminate Hr |].
        cbn [String.length] in Hws.
        destruct (c1 =? "]")%char; [injection Hr as <- <-; lia |].
        destruct (c1 =? ",")%char; [| discriminate Hr].
        pose proof (skip_ws_length r1) as Hws1.
        destruct (IHi (skip_ws r1)) as [Hc1 _].
        destruct (scan_items fuel (skip_ws r1)) eqn:E1; try discriminate Hr.
        injection Hr as <- <-. specialize (Hc1 _ _ eq_refl). lia.
      * intros Hf. specialize (Ha ltac:(lia)). unfold answers in *.
        destruct (scan_once fuel s) as [v r | | | |] eqn:E; try congruence.
        specialize (Hc _ _ eq_refl).
        pose proof (skip_ws_length r) as Hws.
        destruct (skip_ws r) as [| c1 r1]; [discriminate |].
        cbn [String.length] in Hws.
        destruct (c1 =? "]")%char; [discriminate |].
        destruct (c1 =? ",")%char; [| discriminate].
        pose proof (skip_ws_length r1) as Hws1.
        destruct (IHi (skip_ws r1)) as [_ Ha1]. specialize (Ha1 ltac:(lia)).
        destruct (scan_items fuel (skip_ws r1)); congruence.
    + cbn [scan_members].
      destruct (scanstring_total _ s (le_n _)) as [Hsa Hsc]. unfold answers in Hsa.
      destruct (scanstring s) as [key r | | | |] eqn:Es;
        try halts;
        [| now contradiction Hsa].
      specialize (Hsc _ _ eq_refl).
      pose proof (skip_ws_length r) as Hws.
      destruct (skip_ws r) as [| c1 r1];
        [halts |].
      cbn [String.length] in Hws.
      destruct (c1 =? ":")%char; [| halts].
      pose proof (skip_ws_length r1) as Hws1.
      destruct (IHo (skip_ws r1)) as [Hc Ha]. split.
      * intros ps r' Hr.
        destruct (scan_once fuel (skip_ws r1)) as [v r2 | | | |] eqn:E; try discriminate Hr.
        specialize (Hc _ _ eq_refl).
        pose proof (skip_ws_length r2) as Hws2.
        destruct (skip_ws r2) as [| c2 r3]; [discriminate Hr |].
        cbn [String.length] in Hws2.
        destruct (c2 =? "}")%char; [injection Hr as <- <-; lia |].
        destruct (c2 =? ",")%char; [| discriminate Hr].
        pose proof (skip_ws_length r3) as Hws3.
        destruct (skip_ws r3) as [| c3 r4]; [discriminate Hr |].
        cbn [String.length] in Hws3.
        destruct (c3 =? dquote)%char; [| discriminate Hr].
        destruct (IHm r4) as [Hc4 _].
        destruct (scan_members fuel r4) eqn:E4; try discriminate Hr.
        injection Hr as <- <-. specialize (Hc4 _ _ eq_refl). lia.
      * intros Hf. specialize (Ha ltac:(lia)). unfold answers in *.
        destruct (scan_once fuel (skip_ws r1)) as [v r2 | | | |] eqn:E; try congruence.
        specialize (Hc _ _ eq_refl).
        pose proof (skip_ws_length r2) as Hws2.
        destruct (skip_ws r2) as [| c2 r3]; [discriminate |].
        cbn [String.length] in Hws2.
        destruct (c2 =? "}")%char; [discriminate |].
        destruct (c2 =? ",")%char; [| discriminate].
        pose proof (skip_ws_length r3) as Hws3.
        destruct (skip_ws r3) as [| c3 r4]; [discriminate |].
        cbn [String.length] in Hws3.
        destruct (c3 =? dquote)%char; [| discriminate].
        destruct (IHm r4) as [_ Ha4]. specialize (Ha4 ltac:(lia)).
        destruct (scan_members fuel r4); congruence.
Qed.

(** [json_loads] never runs out of fuel. *)
Lemma json_loads_fuel (s : string) :
  scan_once (S (2 * String.length s)) (skip_ws s) <> Exhausted.
Proof.
  destruct (scan_total (S (2 * String.length s))) as (Ho & _ & _).
  destruct (Ho (skip_ws s)) as [_ Ha]. apply Ha.
  pose proof (skip_ws_length s). lia.
Qed.

(** ** Customization options *)

Section CustomizationProperties.

Context {F : Type} `{PyFloat F}.





End CustomizationProperties.


(** What is stored for [{"extra_cheese": True}]. *)
Example set_customization_options_text :
  customization_options
    (state_after (set_customization_options (fresh_pizza 10%float) extra_cheese))
  = Some (String "{" (encode_str "extra_cheese" ++ ": true}")).
Proof. reflexivity. Qed.


(** ** The range of the rating *)

(** No method but [update_rating] assigns the rating or its count. *)
Lemma after_call_rating {F : Type} `{PyFloat F} (self : Pizza F) (c : pizza_call F) :
  (forall r, c <> CallUpdateRating r) ->
  rating (after_call self c) = rating self
  /\ rating_count (after_call self c) = rating_count self.
Proof.
  intros Hc. destruct c; cbn [after_call];
    try (exfalso; eapply Hc; reflexivity).
  - unfold get_price_for_size.
    destruct (negb _); [| destruct (getitem _ _)]; split; reflexivity.
  - destruct self; split; reflexivity.
  - unfold get_customization_options.
    destruct (customization_options self) as [[| c t] |]; try (split; reflexivity).
    destruct (json_loads _) as [[? | ?] |]; split; reflexivity.
  - unfold set_customization_options.
    destruct (negb _); [| destruct (json_dumps _)]; try (split; reflexivity).
    destruct self; split; reflexivity.
  - destruct self; split; reflexivity.
  - unfold get_current_price.
    destruct (is_special self), (special_price self); try (split; reflexivity).
    destruct (_ && _); split; reflexivity.
  - unfold get_discount_percentage.
    destruct (is_special self), (special_price self); try (split; reflexivity).
    destruct (_ && _); [destruct (py_div _ _) |]; split; reflexivity.
  - unfold set_special_offer. destruct (fle _ _); destruct self; split; reflexivity.
  - destruct self; split; reflexivity.
Qed.

Lemma update_rating_in_range (self : Pizza float) (r : float) :
  PrimFloat.is_nan r = false ->
  rating_in_range self ->
  rating_count self < 2 ^ 50 ->
  rating_in_range (state_after (update_rating self r))
  /\ rating_count (state_after (update_rating self r)) <= rating_count self + 1.
Proof.
  intros Hn (HR & Hc) Hlt.
  destruct (flt r (of_int 0) || flt (of_int 5) r) eqn:Hg.
  - rewrite (update_rating_refused self r Hg). cbn [state_after].
    split; [now split | lia].
  - pose proof (not_nan_accepted r Hn Hg) as Hr.
    destruct (update_rating_float self r HR ltac:(lia) Hr) as (self' & -> & Hc' & HR' & _).
    cbn [state_after]. split; [split; [exact HR' | lia] | lia].
Qed.

Lemma rating_in_range_invariant (calls : list (pizza_call float)) :
  forall self : Pizza float,
    rating_in_range self ->
    rating_count self + Z.of_nat (List.length calls) <= 2 ^ 50 ->
    existsb rates_nan calls = false ->
    rating_in_range (fold_left after_call calls self).
Proof.
  induction calls as [| c calls IH]; intros self Hs Hlen Hnan; [exact Hs |].
  cbn [existsb] in Hnan. apply orb_false_iff in Hnan as (Hc & Hnan).
  cbn [List.length] in Hlen. cbn [fold_left].
  assert (H : rating_in_range (after_call self c)
              /\ rating_count (after_call self c) <= rating_count self + 1).
  { destruct c;
      try (match goal with
           | |- rating_in_range (after_call _ ?c) /\ _ =>
               destruct (after_call_rating self c) as [Er Ec];
               [intros; discriminate
               | unfold rating_in_range; rewrite Er, Ec; split; [exact Hs | lia]]
           end).
    cbn [after_call]. apply update_rating_in_range; [exact Hc | exact Hs | lia]. }
  destruct H as (H1 & H2). apply IH; [exact H1 | lia | exact Hnan].
Qed.

(** X1.  On binary64 the range of the rating is an invariant of the calls
    that submit no NaN: from a pizza whose rating is within [0, 5] and whose
    count is not negative (a pizza with rating 0.0 and count 0, say), every
    sequence of method calls among which no [update_rating] is given NaN
    leaves the rating within [0, 5], as long as the count stays at or below
    [2 ^ 50]; and in any arithmetic no method but [update_rating] assigns
    the rating. *)
Theorem rating_range_binary64 :
  (forall (self : Pizza float) (calls : list (pizza_call float)),
      rating_in_range self ->
      rating_count self + Z.of_nat (List.length calls) <= 2 ^ 50 ->
      existsb rates_nan calls = false ->
      rating_in_range (fold_left after_call calls self))
  /\ (forall (F : Type) (A : PyFloat F) (self : Pizza F) (c : pizza_call F),
        (forall r, c <> CallUpdateRating r) ->
        rating (after_call self c) = rating self).
Proof.
  split.
  - intros self calls. apply rating_in_range_invariant.
  - intros F A self c Hc. apply (after_call_rating self c Hc).
Qed.

Lemma rating_range_binary64_run :
  rating_in_range
    (fold_left after_call
       [CallUpdateRating 4.5%float; CallToggleAvailability; CallUpdateRating 7%float;
        CallUpdateRating 0.1%float]
       (fresh_pizza 10%float)).
Proof.
  apply (proj1 rating_range_binary64).
  - split; [reflexivity | cbn; lia].
  - cbn. lia.
  - reflexivity.
Defined.

(** ** Availability and orders *)

(** X2.  [toggle_availability] negates [is_available] and touches nothing
    else: toggling twice gives back the pizza, field for field. *)
Theorem toggle_availability_twice {F : Type} (self : Pizza F) :
  is_available (state_after (toggle_availability self)) = negb (is_available self)
  /\ state_after (toggle_availability (state_after (toggle_availability self))) = self.
Proof.
  destruct self as [? ? ? ? ? ? ? ? avail ? ? ? ? ? ? ? ? ? ? ? ? ? ? ? ?]. cbn.
  split; [reflexivity |]. now rewrite negb_involutive.
Qed.

Lemma order_all_app {F : Type} (self : Pizza F) (nows : list datetime)
    (now : datetime) :
  order_all self (nows ++ [now])
  = state_after (increment_order_count now (order_all self nows)).
Proof. unfold order_all. now rewrite fold_left_app. Qed.

(** X3.  [n] orders raise [order_count] by [n], and [last_ordered_at] is the
    instant of the last of them, whether or not it is the latest; without an
    order both are as before.  Neither the price nor the rating moves. *)
Theorem increment_order_count_all {F : Type} (self : Pizza F)
    (nows : list datetime) :
  order_count (order_all self nows) = order_count self + Z.of_nat (List.length nows)
  /\ last_ordered_at (order_all self nows) = last (map Some nows) (last_ordered_at self)
  /\ price (order_all self nows) = price self
  /\ rating (order_all self nows) = rating self.
Proof.
  induction nows as [| now nows IH] using rev_ind.
  - cbn. repeat split; lia.
  - rewrite order_all_app, map_app. cbn [map]. rewrite last_last, length_app.
    cbn [List.length].
    destruct IH as (Hc & _ & Hp & Hr).
    destruct (order_all self nows); cbn in *. repeat split; try assumption. lia.
Qed.

(** ** Offers *)

Section OfferProperties.

Context {F : Type} `{PyFloat F}.

Lemma end_special_offer_inactive (now : datetime) (self : Pizza F) (sp : F) :
  ~ offer_active_at now (state_after (end_special_offer self)) sp.
Proof. intros (Hs & _). destruct self; discriminate. Qed.

(** X4.  [end_special_offer] ends the offer whatever it was: from then on, at
    every instant, [get_current_price] returns the base price and
    [get_discount_percentage] returns 0.0; it undoes [set_special_offer]
    (ending after setting is ending), and ending twice is ending once. *)
Theorem end_special_offer_ends (self : Pizza F) (p : F) (start_date end_date : option datetime) :
  (forall now : datetime,
      get_current_price now (state_after (end_special_offer self))
      = Returned (price self) (state_after (end_special_offer self))
      /\ get_discount_percentage now (state_after (end_special_offer self))
         = Returned (of_Q 0.0) (state_after (end_special_offer self)))
  /\ state_after (end_special_offer
                    (state_after (set_special_offer self p start_date end_date)))
     = state_after (end_special_offer self)
  /\ state_after (end_special_offer (state_after (end_special_offer self)))
     = state_after (end_special_offer self).
Proof.
  split; [| split].
  - intros now. split.
    + rewrite get_current_price_inactive by (intros sp; apply end_special_offer_inactive).
      destruct self; reflexivity.
    + apply get_discount_percentage_inactive. intros sp. apply end_special_offer_inactive.
  - unfold set_special_offer. destruct (fle _ _); destruct self; reflexivity.
  - destruct self; reflexivity.
Qed.

(** X5.  On a base price of zero an active offer makes
    [get_discount_percentage] raise [ZeroDivisionError] (the pizza is as
    before), while [get_current_price] returns the special price. *)
Theorem get_discount_percentage_zero_price (now : datetime) (self : Pizza F) (sp : F) :
  fis_zero (price self) = true ->
  offer_active_at now self sp ->
  get_discount_percentage now self
  = Raised (ZeroDivisionError "float division by zero") self
  /\ get_current_price now self = Returned sp self.
Proof.
  intros Hz Ha. split.
  - rewrite (get_discount_percentage_active now self sp Ha). unfold py_div. now rewrite Hz.
  - now apply get_current_price_active.
Qed.

(** No method assigns the base price. *)
Lemma after_call_price (self : Pizza F) (c : pizza_call F) :
  price (after_call self c) = price self.
Proof.
  destruct c; cbn [after_call].
  - unfold get_price_for_size.
    destruct (negb _); [| destruct (getitem _ _)]; reflexivity.
  - destruct self; reflexivity.
  - unfold update_rating. destruct (_ || _); [reflexivity |].
    destruct (_ =? 0); destruct self; reflexivity.
  - unfold get_customization_options.
    destruct (customization_options self) as [[| c t] |]; try reflexivity.
    destruct (json_loads _) as [[? | ?] |]; reflexivity.
  - unfold set_customization_options.
    destruct (negb _); [| destruct (json_dumps _)]; try reflexivity.
    destruct self; reflexivity.
  - destruct self; reflexivity.
  - unfold get_current_price.
    destruct (is_special self), (special_price self); try reflexivity.
    destruct (_ && _); reflexivity.
  - unfold get_discount_percentage.
    destruct (is_special self), (special_price self); try reflexivity.
    destruct (_ && _); [destruct (py_div _ _) |]; reflexivity.
  - unfold set_special_offer. destruct (fle _ _); destruct self; reflexivity.
  - destruct self; reflexivity.
Qed.

Lemma fold_after_call_price (calls : list (pizza_call F)) (self : Pizza F) :
  price (fold_left after_call calls self) = price self.
Proof.
  revert self. induction calls as [| c calls IH]; intros self; [reflexivity |].
  cbn [fold_left]. now rewrite IH, after_call_price.
Qed.

(** The special price is assigned by [set_special_offer] and
    [end_special_offer] alone. *)
Lemma after_call_special_price (self : Pizza F) (c : pizza_call F) :
  special_price (after_call self c)
  = match c with
    | CallSetSpecialOffer p _ _ =>
        if fle (price self) p then special_price self else Some p
    | CallEndSpecialOffer => None
    | _ => special_price self
    end.
Proof.
  destruct c; cbn [after_call].
  - unfold get_price_for_size.
    destruct (negb _); [| destruct (getitem _ _)]; reflexivity.
  - destruct self; reflexivity.
  - unfold update_rating. destruct (_ || _); [reflexivity |].
    destruct (_ =? 0); destruct self; reflexivity.
  - unfold get_customization_options.
    destruct (customization_options self) as [[| c t] |]; try reflexivity.
    destruct (json_loads _) as [[? | ?] |]; reflexivity.
  - unfold set_customization_options.
    destruct (negb _); [| destruct (json_dumps _)]; try reflexivity.
    destruct self; reflexivity.
  - destruct self; reflexivity.
  - unfold get_current_price.
    destruct (is_special self), (special_price self) eqn:E; try exact E.
    destruct (_ && _); exact E.
  - unfold get_discount_percentage.
    destruct (is_special self), (special_price self) eqn:E; try exact E.
    destruct (_ && _); [destruct (py_div _ _) |]; exact E.
  - unfold set_special_offer. destruct (fle _ _); destruct self; reflexivity.
  - destruct self; reflexivity.
Qed.

(** Every method keeps a stored special price below the price. *)
Lemma after_call_offer_below_price (self : Pizza F) (c : pizza_call F) :
  offer_below_price self -> offer_below_price (after_call self c).
Proof.
  unfold offer_below_price. intros Hs sp.
  rewrite after_call_price, after_call_special_price.
  destruct c; try apply Hs.
  - destruct (fle _ _) eqn:E; [apply Hs |]. now intros [= <-].
  - discriminate.
Qed.

Lemma fold_after_call_offer_below_price (calls : list (pizza_call F)) (self : Pizza F) :
  offer_below_price self -> offer_below_price (fold_left after_call calls self).
Proof.
  revert self. induction calls as [| c calls IH]; intros self Hs; [exact Hs |].
  cbn [fold_left]. apply IH, after_call_offer_below_price, Hs.
Qed.

(** The value of [get_current_price] is the base price or the stored special
    price. *)
Lemma get_current_price_value (now : datetime) (self : Pizza F) :
  get_current_price now self = Returned (price self) self
  \/ exists sp, special_price self = Some sp
                /\ get_current_price now self = Returned sp self.
Proof.
  unfold get_current_price.
  destruct (is_special self); [| now left].
  destruct (special_price self) as [sp |]; [| now left].
  destruct (_ && _); [right; now exists sp | now left].
Qed.

(** X6.  Whatever methods are called on a pizza that has no special price,
    and in whatever order, the base price stays what it was and a special
    price that is stored has passed the guard against the base price; so
    [get_current_price] returns, at every instant, either the base price or
    a value that the base price is not [<=] to. *)
Theorem special_price_below_price (self : Pizza F) (calls : list (pizza_call F))
    (now : datetime) :
  special_price self = None ->
  price (fold_left after_call calls self) = price self
  /\ offer_below_price (fold_left after_call calls self)
  /\ exists v,
       get_current_price now (fold_left after_call calls self)
       = Returned v (fold_left after_call calls self)
       /\ (v = price self \/ fle (price self) v = false).
Proof.
  intros Hn.
  assert (Hb : offer_below_price (fold_left after_call calls self)).
  { apply fold_after_call_offer_below_price. intros sp. rewrite Hn. discriminate. }
  pose proof (fold_after_call_price calls self) as Hp.
  split; [exact Hp |]. split; [exact Hb |].
  destruct (get_current_price_value now (fold_left after_call calls self))
    as [E | (sp & Es & E)]; rewrite E.
  - exists (price (fold_left after_call calls self)). split; [reflexivity |].
    left. exact Hp.
  - exists sp. split; [reflexivity |]. right. rewrite <- Hp. now apply Hb.
Qed.

(** X7.  The price for a size is computed from the base price alone: no
    call of a method, so no offer, rating or order, changes what
    [get_price_for_size] returns or raises. *)
Theorem get_price_for_size_after_calls (self : Pizza F) (calls : list (pizza_call F))
    (size : string) :
  get_price_for_size (fold_left after_call calls self) size
  = match get_price_for_size self size with
    | Returned v _ => Returned v (fold_left after_call calls self)
    | Raised e _ => Raised e (fold_left after_call calls self)
    end.
Proof.
  unfold get_price_for_size. rewrite fold_after_call_price.
  destruct (negb _); [reflexivity |]. destruct (getitem _ _); reflexivity.
Qed.

End OfferProperties.

Lemma get_discount_percentage_zero_price_run :
  fis_zero (price pizza_priced_zero) = true
  /\ get_discount_percentage 0 pizza_priced_zero
     = Raised (ZeroDivisionError "float division by zero") pizza_priced_zero
  /\ get_current_price 0 pizza_priced_zero = Returned (-1)%float pizza_priced_zero.
Proof.
  split; [reflexivity |].
  apply (get_discount_percentage_zero_price 0 pizza_priced_zero (-1)%float).
  - reflexivity.
  - unfold offer_active_at. cbn. repeat apply conj; try reflexivity; discriminate.
Defined.

(** An offer at 10 on a price of 20, a rating, and an offer at 25 that is
    refused. *)
Lemma special_price_below_price_run :
  price (fold_left after_call
           [CallSetSpecialOffer 10%float None None; CallUpdateRating 4%float;
            CallSetSpecialOffer 25%float None None]
           (fresh_pizza 20%float))
  = 20%float
  /\ offer_below_price
       (fold_left after_call
          [CallSetSpecialOffer 10%float None None; CallUpdateRating 4%float;
           CallSetSpecialOffer 25%float None None]
          (fresh_pizza 20%float))
  /\ exists v,
       get_current_price 0
         (fold_left after_call
            [CallSetSpecialOffer 10%float None None; CallUpdateRating 4%float;
             CallSetSpecialOffer 25%float None None]
            (fresh_pizza 20%float))
       = Returned v
           (fold_left after_call
              [CallSetSpecialOffer 10%float None None; CallUpdateRating 4%float;
               CallSetSpecialOffer 25%float None None]
              (fresh_pizza 20%float))
       /\ (v = 20%float \/ fle 20%float v = false).
Proof.
  exact (special_price_below_price (fresh_pizza 20%float)
           [CallSetSpecialOffer 10%float None None; CallUpdateRating 4%float;
            CallSetSpecialOffer 25%float None None] 0 eq_refl).
Defined.

(** ** The discount on binary64 *)

Lemma round_half_even_le (q : Q) (n : Z) :
  (q <= inject_Z n)%Q -> round_half_even q <= n.
Proof.
  intros Hq.
  assert (Hf : Qfloor q <= n).
  { rewrite <- (Qfloor_Z n). now apply Qfloor_resp_le. }
  unfold round_half_even.
  destruct (Z.eq_dec (Qfloor q) n) as [He | Hne].
  - rewrite He.
    assert (Hd : (q - inject_Z n ?= 1 # 2)%Q = Lt).
    { apply (proj1 (Qlt_alt _ _)). set (z := inject_Z n) in *. clearbody z. lra. }
    now rewrite Hd.
  - destruct (q - inject_Z (Qfloor q) ?= 1 # 2)%Q; [destruct (Z.even (Qfloor q)) | |]; lia.
Qed.

Lemma discount_within (p sp : float) :
  finite p = true -> finite sp = true ->
  (0 <= B2Q sp)%Q -> (B2Q sp < B2Q p)%Q ->
  finite (b64_round2 ((p - sp) / p * of_int 100)%float) = true
  /\ (0 <= B2Q (b64_round2 ((p - sp) / p * of_int 100)%float) <= 100)%Q.
Proof.
  intros Fp Fsp H0 Hlt.
  assert (Hp : (0 < B2Q p)%Q) by lra.
  destruct (finite_representable p Fp Hp) as (my & ey & Hrep & Hmy & Hey & Ep & _).
  destruct (of_int_exact 100 ltac:(lia)) as (F100 & E100).
  change (inject_Z 100) with 100%Q in E100.
  (* the difference *)
  pose proof (sub_rounded p sp Fp Fsp) as Ha.
  destruct (rounded_upper _ _ Ha my ey ltac:(lra) Hrep Hey ltac:(lra)) as (Fa & Ba).
  fold (finite (p - sp)%float) in Fa. fold (B2Q (p - sp)%float) in Ba. rewrite <- Ep in Ba.
  (* the quotient *)
  pose proof (div_rounded (p - sp)%float p Fa Fp ltac:(lra)) as Hq.
  assert (Hv : (0 <= B2Q (p - sp)%float / B2Q p <= 1)%Q).
  { split; [apply Qle_shift_div_l | apply Qle_shift_div_r]; lra. }
  destruct (rounded_upper_Z _ _ 1 Hq (proj1 Hv) ltac:(lia) (proj2 Hv)) as (Fq & Bq).
  change (inject_Z 1) with 1%Q in Bq.
  (* times 100 *)
  pose proof (mul_rounded ((p - sp) / p)%float (of_int 100) Fq F100) as Ht.
  apply (rounded_ext _ (B2Q ((p - sp) / p)%float * 100)%Q) in Ht; [| now rewrite E100].
  destruct (rounded_upper_Z _ _ 100 Ht ltac:(lra) ltac:(lia)) as (Ft & Bt).
  { change (inject_Z 100) with 100%Q. lra. }
  change (inject_Z 100) with 100%Q in Bt.
  (* to two decimals *)
  pose proof (b64_round2_rounded _ Ft (proj1 Bt)) as Hd.
  set (t := ((p - sp) / p * of_int 100)%float) in *.
  assert (Hk0 : 0 <= round_half_even (B2Q t * 100)).
  { apply round_half_even_ge. change (inject_Z 0) with 0%Q. lra. }
  assert (Hk1 : round_half_even (B2Q t * 100) <= 10000).
  { apply round_half_even_le. change (inject_Z 10000) with 10000%Q. lra. }
  set (k := round_half_even (B2Q t * 100)) in *.
  assert (Hkq : (0 <= inject_Z k <= 10000)%Q).
  { split; [change 0%Q with (inject_Z 0) | change 10000%Q with (inject_Z 10000)];
      rewrite <- Zle_Qle; lia. }
  destruct (rounded_upper_Z _ _ 100 Hd) as (Fd & Bd).
  - apply Qle_shift_div_l; lra.
  - lia.
  - change (inject_Z 100) with 100%Q. apply Qle_shift_div_r; lra.
  - split; [exact Fd | exact Bd].
Qed.

(** X8.  On binary64, for a finite base price and a special price from 0 up
    to (not including) it, the discount of an active offer lies within
    [0, 100]. *)
Theorem get_discount_percentage_bounds (now : datetime) (self : Pizza float) (sp : float) :
  finite (price self) = true ->
  fle (of_int 0) sp = true ->
  flt sp (price self) = true ->
  offer_active_at now self sp ->
  exists d : float,
    get_discount_percentage now self = Returned d self
    /\ fle (of_int 0) d = true
    /\ fle d (of_int 100) = true.
Proof.
  intros Fp H0 Hlt Ha.
  destruct (of_int_exact 0 ltac:(lia)) as (F0 & E0). change (inject_Z 0) with 0%Q in E0.
  destruct (of_int_exact 100 ltac:(lia)) as (F100 & E100).
  change (inject_Z 100) with 100%Q in E100.
  cbn [fle flt binary64] in *.
  pose proof (leb_ltb_finite _ _ _ F0 Fp H0 Hlt) as Fsp.
  apply (leb_finite _ _ F0 Fsp) in H0. apply (ltb_finite _ _ Fsp Fp) in Hlt.
  rewrite E0 in H0.
  rewrite (get_discount_percentage_float now self sp Fp ltac:(lra) Ha).
  destruct (discount_within (price self) sp Fp Fsp H0 Hlt) as (Fd & Bd).
  eexists. split; [reflexivity |].
  split; apply leb_finite; auto; lra.
Qed.

Lemma get_discount_percentage_bounds_run :
  exists d : float,
    get_discount_percentage 0 pizza_half_price = Returned d pizza_half_price
    /\ fle (of_int 0) d = true
    /\ fle d (of_int 100) = true.
Proof.
  apply (get_discount_percentage_bounds 0 pizza_half_price 10%float).
  - reflexivity.
  - reflexivity.
  - reflexivity.
  - unfold offer_active_at. cbn. repeat apply conj; try reflexivity; discriminate.
Defined.

(** ** One rating on binary64 *)

(** X9.  On binary64 an accepted rating moves the stored rating towards
    itself and not past it, up to rounding: the new rating lies between the
    old rating and the rating submitted, within [2 ^ -49] (a rating of 0.1 on
    a pizza rated 0.1 twice leaves 0.10000000000000002, above both). *)
Theorem update_rating_between (self : Pizza float) (r : float) :
  in_rating_range (rating self) = true ->
  0 <= rating_count self < 2 ^ 50 ->
  in_rating_range r = true ->
  exists self',
    update_rating self r = Returned tt self'
    /\ rating_count self' = rating_count self + 1
    /\ ((B2Q (rating self) <= B2Q r)%Q ->
        (B2Q (rating self) - (1 # 562949953421312) <= B2Q (rating self')
         <= B2Q r + (1 # 562949953421312))%Q)
    /\ ((B2Q r <= B2Q (rating self))%Q ->
        (B2Q r - (1 # 562949953421312) <= B2Q (rating self')
         <= B2Q (rating self) + (1 # 562949953421312))%Q).
Proof.
  intros HR Hn Hr.
  destruct (update_rating_float self r HR Hn Hr) as (self' & Hu & Hc & _ & E).
  exists self'. split; [exact Hu |]. split; [exact Hc |].
  assert (Hnq : (0 <= inject_Z (rating_count self))%Q)
    by (change 0%Q with (inject_Z 0); rewrite <- Zle_Qle; lia).
  rewrite inject_Z_plus in E. change (inject_Z 1) with 1%Q in E.
  revert E Hnq.
  generalize (inject_Z (rating_count self)) (B2Q (rating self)) (B2Q (rating self')) (B2Q r).
  intros N R R' rq E Hnq.
  assert (Hpos : (0 < N + 1)%Q) by lra.
  split; intros Hle.
  - assert (Hp : (R * N <= rq * N)%Q) by (apply Qmult_le_compat_r; assumption).
    split; apply (Qmult_le_r _ _ (N + 1) Hpos).
    + eapply Qle_trans; [| exact (proj1 E)].
      set (RN := (R * N)%Q) in *. 
      assert (Ex : ((R - (1 # 562949953421312)) * (N + 1)
                    == RN + R - (N + 1) * (1 # 562949953421312))%Q) by (unfold RN; ring).
      rewrite Ex. clearbody RN. lra.
    + eapply Qle_trans; [exact (proj2 E) |].
      set (RN := (R * N)%Q) in *. set (rN := (rq * N)%Q) in *.
      assert (Ex : ((rq + (1 # 562949953421312)) * (N + 1)
                    == rN + rq + (N + 1) * (1 # 562949953421312))%Q) by (unfold rN; ring).
      rewrite Ex. clearbody RN rN. lra.
  - assert (Hp : (rq * N <= R * N)%Q) by (apply Qmult_le_compat_r; assumption).
    split; apply (Qmult_le_r _ _ (N + 1) Hpos).
    + eapply Qle_trans; [| exact (proj1 E)].
      set (RN := (R * N)%Q) in *. set (rN := (rq * N)%Q) in *.
      assert (Ex : ((rq - (1 # 562949953421312)) * (N + 1)
                    == rN + rq - (N + 1) * (1 # 562949953421312))%Q) by (unfold rN; ring).
      rewrite Ex. clearbody RN rN. lra.
    + eapply Qle_trans; [exact (proj2 E) |].
      set (RN := (R * N)%Q) in *.
      assert (Ex : ((R + (1 # 562949953421312)) * (N + 1)
                    == RN + R + (N + 1) * (1 # 562949953421312))%Q) by (unfold RN; ring).
      rewrite Ex. clearbody RN. lra.
Qed.

Lemma update_rating_between_run :
  exists self',
    update_rating pizza_rated_twice 0.1%float = Returned tt self'
    /\ rating_count self' = rating_count pizza_rated_twice + 1
    /\ ((B2Q (rating pizza_rated_twice) <= B2Q 0.1%float)%Q ->
        (B2Q (rating pizza_rated_twice) - (1 # 562949953421312) <= B2Q (rating self')
         <= B2Q 0.1%float + (1 # 562949953421312))%Q)
    /\ ((B2Q 0.1%float <= B2Q (rating pizza_rated_twice))%Q ->
        (B2Q 0.1%float - (1 # 562949953421312) <= B2Q (rating self')
         <= B2Q (rating pizza_rated_twice) + (1 # 562949953421312))%Q).
Proof.
  apply (update_rating_between pizza_rated_twice 0.1%float).
  - reflexivity.
  - cbn. lia.
  - reflexivity.
Defined.

(** The rating that this leaves is above both. *)
Example update_rating_above_both :
  update_rating pizza_rated_twice 0.1%float
  = Returned tt (set_rating 0.10000000000000002%float (set_rating_count 3 pizza_rated_twice))
  /\ flt 0.1%float 0.10000000000000002%float = true.
Proof. split; vm_compute; reflexivity. Qed.

(** ** Ratings: a count of minus one *)

(** X10.  A failing [update_rating] is not always without effect: on a
    pizza whose [rating_count] is -1 a rating in range makes the division
    raise [ZeroDivisionError] after the count was assigned, so the count is
    left at 0 (the rating is as before). *)
Theorem update_rating_count_minus_one {F : Type} `{PyFloat F} `{!PyFloatOrder F}
    (self : Pizza F) (r : F) :
  in_rating_range r = true ->
  rating_count self = -1 ->
  update_rating self r
  = Raised (ZeroDivisionError "float division by zero") (set_rating_count 0 self)
  /\ rating (set_rating_count 0 self) = rating self.
Proof.
  intros Hr Hc. unfold update_rating. rewrite (in_rating_range_accepted r Hr).
  destruct self; cbn in *. subst. split; reflexivity.
Qed.

Lemma update_rating_count_minus_one_run :
  update_rating (set_rating_count (-1) (fresh_pizza 10%float)) 3%float
  = Raised (ZeroDivisionError "float division by zero")
      (set_rating_count 0 (set_rating_count (-1) (fresh_pizza 10%float)))
  /\ rating (set_rating_count 0 (set_rating_count (-1) (fresh_pizza 10%float)))
     = rating (set_rating_count (-1) (fresh_pizza 10%float)).
Proof.
  apply (update_rating_count_minus_one (set_rating_count (-1) (fresh_pizza 10%float))
           3%float); reflexivity.
Defined.

(** ** A special price that is not a number *)

Lemma leb_nan (x : float) : PrimFloat.leb x PrimFloat.nan = false.
Proof.
  rewrite leb_spec. unfold SFleb.
  replace (Prim2SF PrimFloat.nan) with S754_nan by reflexivity.
  destruct (Prim2SF x) as [[] | [] | | [] ? ?]; reflexivity.
Qed.

(** X11.  On binary64, NaN is below no price and yet passes the guard of
    [set_special_offer], whatever the price: the offer is stored, and with an
    open window [get_current_price] returns NaN at every instant. *)
Theorem set_special_offer_nan (self : Pizza float) (now : datetime) :
  exists self',
    set_special_offer self PrimFloat.nan None None = Returned tt self'
    /\ flt PrimFloat.nan (price self) = false
    /\ get_current_price now self' = Returned PrimFloat.nan self'.
Proof.
  unfold set_special_offer. cbn [fle binary64]. rewrite leb_nan.
  eexists. split; [reflexivity |]. split.
  - cbn [flt binary64]. rewrite ltb_spec. unfold SFltb.
    replace (Prim2SF PrimFloat.nan) with S754_nan by reflexivity. reflexivity.
  - destruct self; reflexivity.
Qed.

(** ** Customization options: a second write *)



(** ** Allergens *)

Lemma split_nonempty (sep : ascii) (s : string) : split sep s <> [].
Proof.
  destruct s as [| c s]; cbn [split]; [discriminate |].
  destruct (c =? sep)%char; [discriminate |]. destruct (split sep s); discriminate.
Qed.

Lemma split_length (sep : ascii) (s : string) :
  List.length (split sep s) = S (occurrences sep s).
Proof.
  induction s as [| c s IH]; [reflexivity |]. cbn [split occurrences].
  destruct (c =? sep)%char.
  - cbn [List.length]. now rewrite IH.
  - destruct (split sep s) as [| t ts]; [discriminate IH | exact IH].
Qed.

Lemma split_free_of (sep : ascii) (s : string) :
  Forall (fun t => free_of sep t = true) (split sep s).
Proof.
  induction s as [| c s IH]; [repeat constructor |]. cbn [split].
  destruct (c =? sep)%char eqn:E.
  - constructor; [reflexivity | exact IH].
  - destruct (split sep s) as [| t ts].
    + repeat constructor. cbn. now rewrite E.
    + inversion IH as [| ? ? Ht Hts]; subst. constructor; [| exact Hts].
      cbn. now rewrite E, Ht.
Qed.

Lemma lstrip_free_of (c : ascii) (s : string) :
  free_of c s = true -> free_of c (lstrip s) = true.
Proof.
  induction s as [| c' s IH]; [reflexivity |]. cbn [lstrip].
  destruct (isspace c'); [| trivial].
  cbn [free_of]. intros [_ Hs]%andb_true_iff. now apply IH.
Qed.

Lemma rstrip_free_of (c : ascii) (s : string) :
  free_of c s = true -> free_of c (rstrip s) = true.
Proof.
  induction s as [| c' s IH]; [reflexivity |]. cbn [free_of rstrip].
  intros [Hc Hs]%andb_true_iff. specialize (IH Hs).
  destruct (rstrip s) as [| d t].
  - destruct (isspace c'); [reflexivity |]. cbn. now rewrite Hc.
  - cbn [free_of] in *. now rewrite Hc, IH.
Qed.

Lemma rstrip_cons (c : ascii) (s : string) :
  isspace c = false -> rstrip (String c s) = String c (rstrip s).
Proof. intros Hc. cbn [rstrip]. rewrite Hc. now destruct (rstrip s). Qed.

Lemma rstrip_idem (s : string) : rstrip (rstrip s) = rstrip s.
Proof.
  induction s as [| c s IH]; [reflexivity |]. cbn [rstrip].
  destruct (rstrip s) as [| d t] eqn:E.
  - destruct (isspace c) eqn:Ec; [reflexivity |]. cbn [rstrip]. now rewrite Ec.
  - change (rstrip (String c (String d t))) with
      (match rstrip (String d t) with
       | EmptyString => if isspace c then EmptyString else String c EmptyString
       | u => String c u
       end).
    now rewrite IH.
Qed.

Lemma lstrip_head (s : string) :
  lstrip s = EmptyString \/ exists c t, lstrip s = String c t /\ isspace c = false.
Proof.
  induction s as [| c s IH]; [now left |]. cbn [lstrip].
  destruct (isspace c) eqn:E; [exact IH |]. right. now exists c, s.
Qed.

Lemma strip_idem (s : string) : strip (strip s) = strip s.
Proof.
  unfold strip. destruct (lstrip_head s) as [-> | (c & t & -> & Hc)]; [reflexivity |].
  rewrite (rstrip_cons c t Hc). cbn [lstrip]. rewrite Hc.
  rewrite (rstrip_cons c _ Hc). now rewrite rstrip_idem.
Qed.

Lemma strip_token (s : string) : free_of "," s = true -> token (strip s) = true.
Proof.
  intros Hs. unfold token. rewrite strip_idem, String.eqb_refl, andb_true_r.
  unfold strip. now apply rstrip_free_of, lstrip_free_of.
Qed.

(** X13.  [get_allergens_list] returns and assigns nothing.  Without
    allergens ([None] or the empty string) the list is empty; otherwise it
    has one entry more than the text has commas, empty entries included.  No
    entry holds a comma or has whitespace at either end. *)
Theorem get_allergens_list_tokens {F : Type} (self : Pizza F) :
  exists ts,
    get_allergens_list self = Returned ts self
    /\ Forall (fun t => token t = true) ts
    /\ List.length ts
       = match allergens self with
         | None | Some EmptyString => 0%nat
         | Some a => S (occurrences "," a)
         end.
Proof.
  unfold get_allergens_list.
  destruct (allergens self) as [[| c a] |].
  - exists []. now repeat split.
  - eexists. split; [reflexivity |]. split.
    + apply Forall_map. eapply Forall_impl; [| apply split_free_of].
      intros t. apply strip_token.
    + now rewrite length_map, split_length.
  - exists []. now repeat split.
Qed.

Lemma free_of_app (c : ascii) (s t : string) :
  free_of c (s ++ t) = free_of c s && free_of c t.
Proof.
  induction s as [| c' s IH]; [reflexivity |]. cbn. now rewrite IH, andb_assoc.
Qed.

Lemma blank_free_of (c : ascii) (s : string) :
  isspace c = false -> blank s = true -> free_of c s = true.
Proof.
  intros Hc. induction s as [| c' s IH]; [reflexivity |]. cbn.
  intros [Hc' Hs]%andb_true_iff. rewrite (IH Hs), andb_true_r.
  destruct (Ascii.eqb_spec c' c) as [-> | _]; [congruence | reflexivity].
Qed.

Lemma split_free (sep : ascii) (t : string) :
  free_of sep t = true -> split sep t = [t].
Proof.
  induction t as [| c t IH]; [reflexivity |]. cbn [free_of split].
  intros [Hc Ht]%andb_true_iff. apply negb_true_iff in Hc. now rewrite Hc, (IH Ht).
Qed.

Lemma split_app_sep (sep : ascii) (t rest : string) :
  free_of sep t = true ->
  split sep (t ++ String sep rest) = t :: split sep rest.
Proof.
  induction t as [| c t IH]; cbn [free_of split append].
  - intros _. now rewrite Ascii.eqb_refl.
  - intros [Hc Ht]%andb_true_iff. apply negb_true_iff in Hc. now rewrite Hc, (IH Ht).
Qed.

Lemma split_join (sep : ascii) (l : list string) :
  l <> [] ->
  Forall (fun t => free_of sep t = true) l ->
  split sep (join (String sep EmptyString) l) = l.
Proof.
  induction l as [| t l IH]; [congruence |]. intros _ Hl.
  inversion Hl as [| ? ? Ht Hl']; subst.
  destruct l as [| t' l].
  - cbn [join]. now apply split_free.
  - change (join (String sep EmptyString) (t :: t' :: l))
      with (t ++ String sep (join (String sep EmptyString) (t' :: l))).
    rewrite (split_app_sep sep t _ Ht). f_equal. now apply IH.
Qed.

Lemma lstrip_blank_app (l x : string) :
  blank l = true -> lstrip (l ++ x) = lstrip x.
Proof.
  induction l as [| c l IH]; [reflexivity |]. cbn.
  intros [Hc Hl]%andb_true_iff. rewrite Hc. now apply IH.
Qed.

Lemma rstrip_blank (r : string) : blank r = true -> rstrip r = EmptyString.
Proof.
  induction r as [| c r IH]; [reflexivity |]. cbn.
  intros [Hc Hr]%andb_true_iff. now rewrite (IH Hr), Hc.
Qed.

Lemma rstrip_app_blank (x r : string) :
  blank r = true -> rstrip (x ++ r) = rstrip x.
Proof.
  intros Hr. induction x as [| c x IH]; [now apply rstrip_blank |].
  cbn [append rstrip]. now rewrite IH.
Qed.

Lemma lstrip_length (s : string) :
  lstrip s = s \/ (String.length (lstrip s) < String.length s)%nat.
Proof.
  induction s as [| c s IH]; [now left |]. cbn [lstrip].
  destruct (isspace c); [| now left]. right. cbn [String.length].
  destruct IH as [-> | IH]; lia.
Qed.

Lemma rstrip_length (s : string) :
  (String.length (rstrip s) <= String.length s)%nat.
Proof.
  induction s as [| c s IH]; [reflexivity |]. cbn [rstrip].
  destruct (rstrip s); [destruct (isspace c) |]; cbn [String.length] in *; lia.
Qed.

Lemma strip_fixed (t : string) : strip t = t -> lstrip t = t /\ rstrip t = t.
Proof.
  unfold strip. intros Ht.
  destruct (lstrip_length t) as [E | Hlt].
  - rewrite E in Ht. now split.
  - pose proof (rstrip_length (lstrip t)) as Hle. rewrite Ht in Hle. lia.
Qed.

Lemma strip_padded (l t r : string) :
  blank l = true -> blank r = true -> strip t = t -> strip (l ++ t ++ r) = t.
Proof.
  intros Hl Hr Ht. destruct (strip_fixed t Ht) as [El Er].
  unfold strip. rewrite (lstrip_blank_app l _ Hl).
  destruct t as [| c t].
  - cbn [append]. destruct (lstrip_length r) as [E | Hlt].
    + rewrite E. now apply rstrip_blank.
    + apply rstrip_blank.
      clear - Hr. induction r as [| c r IH]; [reflexivity |].
      cbn in *. apply andb_true_iff in Hr as [Hc Hr]. rewrite Hc. now apply IH.
  - cbn [lstrip] in El. cbn [append lstrip].
    destruct (isspace c).
    + exfalso. destruct (lstrip_length t) as [E | Hlt].
      * rewrite E in El. apply (f_equal String.length) in El. cbn in El. lia.
      * apply (f_equal String.length) in El. cbn in El. lia.
    + change (String c (t ++ r)) with (String c t ++ r).
      now rewrite (rstrip_app_blank _ r Hr).
Qed.

(** X14.  Tokens written with commas between them, with or without
    whitespace around each, are read back as they are: for tokens that hold
    no comma and have no whitespace at either end, [get_allergens_list] of
    the joined text (when that text is not empty) returns exactly the
    tokens, in order. *)
Theorem get_allergens_list_join {F : Type} (self : Pizza F)
    (xs : list (string * string * string)) :
  Forall (fun x => blank (fst (fst x)) && token (snd (fst x)) && blank (snd x) = true) xs ->
  allergens self = Some (join "," (map padded xs)) ->
  join "," (map padded xs) <> EmptyString ->
  get_allergens_list self = Returned (map (fun x => snd (fst x)) xs) self.
Proof.
  intros Hxs Ha Hne. unfold get_allergens_list. rewrite Ha.
  destruct (join "," (map padded xs)) as [| c a] eqn:E; [congruence |]. rewrite <- E.
  assert (Hnil : map padded xs <> []) by (destruct xs; [discriminate E | discriminate]).
  f_equal. rewrite split_join.
  - rewrite map_map. apply map_ext_Forall. eapply Forall_impl; [| exact Hxs].
    intros [[l t] r]. unfold padded. cbn [fst snd].
    intros [[Hl Ht]%andb_true_iff Hr]%andb_true_iff.
    unfold token in Ht. apply andb_true_iff in Ht as [_ Ht]. apply String.eqb_eq in Ht.
    now apply strip_padded.
  - exact Hnil.
  - apply Forall_map. eapply Forall_impl; [| exact Hxs].
    intros [[l t] r]. unfold padded. cbn [fst snd].
    intros [[Hl Ht]%andb_true_iff Hr]%andb_true_iff.
    unfold token in Ht. apply andb_true_iff in Ht as [Ht _].
    rewrite !free_of_app, Ht.
    now rewrite (blank_free_of "," l), (blank_free_of "," r).
Qed.

(** ["dairy, eggs ,wheat"] *)
Lemma get_allergens_list_join_run :
  join "," (map padded [("", "dairy", ""); (" ", "eggs", " "); ("", "wheat", "")])
  = "dairy, eggs ,wheat"
  /\ get_allergens_list
       (with_allergens (Some "dairy, eggs ,wheat") (fresh_pizza 10%float))
     = Returned ["dairy"; "eggs"; "wheat"]
         (with_allergens (Some "dairy, eggs ,wheat") (fresh_pizza 10%float)).
Proof.
  split; [reflexivity |].
  apply (get_allergens_list_join
           (with_allergens (Some "dairy, eggs ,wheat") (fresh_pizza 10%float))
           [("", "dairy", ""); (" ", "eggs", " "); ("", "wheat", "")]).
  - repeat constructor.
  - reflexivity.
  - discriminate.
Defined.

(** ** Serialisation *)

Section SerialisationProperties.

Context {F : Type} `{PyFloat F}.

(** The accessors that [to_dict] calls assign nothing. *)
Lemma get_current_price_pure (now : datetime) (self : Pizza F) :
  exists v, get_current_price now self = Returned v self.
Proof.
  destruct (get_current_price_value now self) as [E | (sp & _ & E)]; rewrite E; eauto.
Qed.

Lemma get_customization_options_pure (self : Pizza F) (o : outcome (Pizza F) pyvalue) :
  get_customization_options self = Some o -> state_after o = self.
Proof.
  unfold get_customization_options.
  destruct (customization_options self) as [[| c t] |]; try (intros [= <-]; reflexivity).
  destruct (json_loads _) as [[e | v] |]; intros [= <-]; reflexivity.
Qed.

(** What [to_dict] does, by what [get_customization_options] does. *)
Lemma to_dict_by_options (now : datetime) (self : Pizza F) :
  match get_customization_options self with
  | None => to_dict now self = None
  | Some (Raised e _) => to_dict now self = Some (Raised e self)
  | Some (Returned options _) =>
      exists v ts d,
        get_current_price now self = Returned v self
        /\ get_allergens_list self = Returned ts self
        /\ to_dict now self = Some (Returned (DDict d) self)
        /\ map fst d = map DStr to_dict_keys
        /\ data_get d "price" = Some (DFloat v)
        /\ data_get d "original_price" = Some (DFloat (price self))
        /\ data_get d "allergens" = Some (DList (map DStr ts))
        /\ data_get d "customization_options" = Some (data_of options)
  end.
Proof.
  destruct (get_current_price_pure now self) as (v & Ev).
  destruct (get_allergens_list_tokens self) as (ts & Ets & _).
  unfold to_dict. rewrite Ev, Ets.
  destruct (get_customization_options self) as [[options self' | e self'] |] eqn:Eo;
    try reflexivity.
  - apply get_customization_options_pure in Eo. cbn in Eo. subst self'.
    exists v, ts. eexists. repeat split.
  - apply get_customization_options_pure in Eo. cbn in Eo. now subst self'.
Qed.

(** X15.  [to_dict] assigns nothing, and it raises exactly when
    [get_customization_options] raises (on stored text that is not JSON),
    with that exception.  When it returns, the dict has the same eighteen
    keys in the same order whatever the pizza. *)
Theorem to_dict_outcome (now : datetime) (self : Pizza F) :
  (forall d self', to_dict now self = Some (Returned d self') ->
     self' = self
     /\ (exists options, get_customization_options self = Some (Returned options self))
     /\ exists items, d = DDict items /\ map fst items = map DStr to_dict_keys)
  /\ (forall e self', to_dict now self = Some (Raised e self') <->
        self' = self /\ get_customization_options self = Some (Raised e self)).
Proof.
  pose proof (to_dict_by_options now self) as T.
  destruct (get_customization_options self) as [[options self1 | e1 self1] |] eqn:Eo.
  - apply get_customization_options_pure in Eo. cbn in Eo. subst self1.
    destruct T as (v & ts & items & _ & _ & -> & Hk & _). split.
    + intros d self' [= <- <-]. split; [reflexivity |]. split; eauto.
    + intros e self'. split; [discriminate | intros [_ [=]]].
  - apply get_customization_options_pure in Eo. cbn in Eo. subst self1.
    rewrite T. split.
    + discriminate.
    + intros e self'. split.
      * intros [= <- <-]. now split.
      * intros [-> [= <-]]. reflexivity.
  - rewrite T. split; [discriminate |].
    intros e self'. split; [discriminate | intros [_ [=]]].
Qed.

(** X16.  What a serialised pizza shows of its prices: under ["price"] the
    value of [get_current_price] at that instant and under
    ["original_price"] the base price.  On a pizza that had no special price
    and then went through any calls of its methods, the base price is still
    the one it had, and ["price"] is that price or a value that it is not
    [<=] to. *)
Theorem to_dict_prices (self : Pizza F) (calls : list (pizza_call F)) (now : datetime)
    (d : pydata F) (self' : Pizza F) :
  special_price self = None ->
  to_dict now (fold_left after_call calls self) = Some (Returned d self') ->
  exists v,
    get_current_price now (fold_left after_call calls self) = Returned v self'
    /\ entry d "price" = Some (DFloat v)
    /\ entry d "original_price" = Some (DFloat (price self))
    /\ (v = price self \/ fle (price self) v = false).
Proof.
  intros Hn Hd.
  pose proof (to_dict_by_options now (fold_left after_call calls self)) as T.
  destruct (get_customization_options _) as [[options self1 | e1 self1] |];
    [| rewrite T in Hd; discriminate | rewrite T in Hd; discriminate].
  destruct T as (v & ts & items & Ev & _ & Ed & _ & Hp & Ho & _).
  rewrite Ed in Hd. injection Hd as <- <-.
  exists v. split; [exact Ev |]. split; [exact Hp |]. split.
  - cbn [entry]. rewrite Ho. now rewrite fold_after_call_price.
  - pose proof (get_current_price_value now (fold_left after_call calls self)) as Hv.
    rewrite Ev in Hv. destruct Hv as [[= ->] | (sp & Es & [= ->])].
    + left. apply fold_after_call_price.
    + right. rewrite <- (fold_after_call_price calls self).
      apply (fold_after_call_offer_below_price calls self); [| exact Es].
      intros sp'. rewrite Hn. discriminate.
Qed.


(** *** Restaurants *)

Lemma pizzas_to_dict_returns (now : nat -> datetime)
    (rps : list (option (Pizza F))) :
  forall (i : nat) (ds : list (pydata F)),
    Restaurant.pizzas_to_dict now i rps = Some (inr ds) <->
    Forall2 (serialises now) (combine rps (seq i (List.length rps))) ds.
Proof.
  induction rps as [| [pizza |] rps IH]; intros i ds; cbn [Restaurant.pizzas_to_dict].
  - split.
    + intros [= <-]. constructor.
    + intros Hf. inversion Hf. reflexivity.
  - cbn [List.length seq combine].
    destruct (to_dict_outcome (now i) pizza) as (Hret & _).
    destruct (to_dict (now i) pizza) as [[d self' | e self'] |] eqn:Ed.
    + destruct (Hret d self' eq_refl) as (-> & _).
      destruct (Restaurant.pizzas_to_dict now (S i) rps) as [[e | ds'] |] eqn:Er.
      * split; [discriminate |]. intros Hf. inversion Hf as [| ? ? ? ? _ Hf']; subst.
        apply IH in Hf'. congruence.
      * split.
        -- intros [= <-]. constructor; [now exists pizza | now apply IH].
        -- intros Hf. inversion Hf as [| ? d' ? ds'' Hx Hf']; subst.
           destruct Hx as (pizza' & Ep & Ed'). cbn [fst snd] in Ep, Ed'.
           injection Ep as <-. rewrite Ed in Ed'. injection Ed' as <-.
           apply IH in Hf'. congruence.
      * split; [discriminate |]. intros Hf. inversion Hf as [| ? ? ? ? _ Hf']; subst.
        apply IH in Hf'. congruence.
    + split; [discriminate |]. intros Hf. inversion Hf as [| ? d' ? ? Hx _]; subst.
      destruct Hx as (pizza' & Ep & Ed'). cbn [fst snd] in Ep, Ed'.
      injection Ep as <-. rewrite Ed in Ed'. discriminate.
    + split; [discriminate |]. intros Hf. inversion Hf as [| ? d' ? ? Hx _]; subst.
      destruct Hx as (pizza' & Ep & Ed'). cbn [fst snd] in Ep, Ed'.
      injection Ep as <-. rewrite Ed in Ed'. discriminate.
  - cbn [List.length seq combine]. split; [discriminate |].
    intros Hf. inversion Hf as [| ? d' ? ? Hx _]; subst.
    destruct Hx as (pizza' & Ep & _). discriminate Ep.
Qed.

(** X18.  [to_dict_with_pizzas] returns exactly when every association of
    the restaurant links to a pizza and every such pizza serialises; it then
    assigns nothing, agrees with [to_dict] on every key but ["pizzas"], and
    lists under ["pizzas"] one serialised pizza per association, in the order
    of the associations. *)
Theorem to_dict_with_pizzas_returns (now : nat -> datetime)
    (self : Restaurant.Restaurant F) :
  (forall d self',
      Restaurant.to_dict_with_pizzas now self = Some (Returned d self') ->
      self' = self
      /\ (exists d0,
            Restaurant.to_dict self = Returned d0 self
            /\ forall key, key <> "pizzas" -> entry d key = entry d0 key)
      /\ exists pizzas,
           entry d "pizzas" = Some (DList pizzas)
           /\ Forall2 (serialises now)
                (combine (Restaurant.restaurant_pizzas self)
                   (seq 0 (List.length (Restaurant.restaurant_pizzas self))))
                pizzas)
  /\ (forall pizzas,
        Forall2 (serialises now)
          (combine (Restaurant.restaurant_pizzas self)
             (seq 0 (List.length (Restaurant.restaurant_pizzas self))))
          pizzas ->
        exists d,
          Restaurant.to_dict_with_pizzas now self = Some (Returned d self)
          /\ entry d "pizzas" = Some (DList pizzas)).
Proof.
  unfold Restaurant.to_dict_with_pizzas.
  pose proof (pizzas_to_dict_returns now (Restaurant.restaurant_pizzas self) 0) as P.
  destruct (Restaurant.pizzas_to_dict now 0 (Restaurant.restaurant_pizzas self))
    as [[e | pizzas] |].
  - split; [discriminate |]. intros pizzas Hf. apply P in Hf. discriminate.
  - split.
    + intros d self' [= <- <-]. split; [reflexivity |]. split.
      * eexists. split; [reflexivity |]. intros key Hk. cbn.
        destruct (String.eqb key "id"); [reflexivity |].
        destruct (String.eqb key "name"); [reflexivity |].
        destruct (String.eqb key "address"); [reflexivity |].
        apply String.eqb_neq in Hk. now rewrite Hk.
      * exists pizzas. split; [reflexivity | now apply P].
    + intros pizzas' Hf. apply P in Hf. injection Hf as <-.
      eexists. split; reflexivity.
  - split; [discriminate |]. intros pizzas Hf. apply P in Hf. discriminate.
Qed.

End SerialisationProperties.

(** A pizza without options serialises; one whose stored options are the
    text of an opening brace alone does not. *)
Lemma to_dict_outcome_run :
  (exists d,
      to_dict 0 (fresh_pizza 10%float) = Some (Returned d (fresh_pizza 10%float))
      /\ (exists options,
             get_customization_options (fresh_pizza 10%float)
             = Some (Returned options (fresh_pizza 10%float)))
      /\ exists items, d = DDict items /\ map fst items = map DStr to_dict_keys)
  /\ exists e,
       get_customization_options pizza_with_broken_options
       = Some (Raised e pizza_with_broken_options)
       /\ to_dict 0 pizza_with_broken_options = Some (Raised e pizza_with_broken_options).
Proof.
  split.
  - eexists. split; [reflexivity |].
    exact (proj2 (proj1 (to_dict_outcome 0 (fresh_pizza 10%float)) _ _ eq_refl)).
  - eexists. split; [reflexivity |].
    exact (proj2 (proj2 (to_dict_outcome 0 pizza_with_broken_options) _ _)
             (conj eq_refl eq_refl)).
Defined.

(** The pizza on offer serialised within its window: 10.0 under ["price"],
    20.0 under ["original_price"]. *)
Lemma to_dict_prices_run :
  exists d,
    to_dict 150 pizza_on_offer = Some (Returned d pizza_on_offer)
    /\ exists v,
         get_current_price 150 pizza_on_offer = Returned v pizza_on_offer
         /\ entry d "price" = Some (DFloat v)
         /\ entry d "original_price" = Some (DFloat 20%float)
         /\ (v = 20%float \/ fle 20%float v = false).
Proof.
  eexists. split; [reflexivity |].
  exact (to_dict_prices (fresh_pizza 20%float)
           [CallSetSpecialOffer 10%float (Some 100) (Some 200)] 150 _ pizza_on_offer
           eq_refl eq_refl).
Defined.


(** The first restaurant of the seed with its two pizzas, serialised at
    instant 150. *)
Lemma to_dict_with_pizzas_returns_run :
  exists d,
    Restaurant.to_dict_with_pizzas (fun _ => 150) pizza_palace
    = Some (Returned d pizza_palace)
    /\ (exists d0,
           Restaurant.to_dict pizza_palace = Returned d0 pizza_palace
           /\ forall key, key <> "pizzas" -> entry d key = entry d0 key)
    /\ exists pizzas,
         entry d "pizzas" = Some (DList pizzas)
         /\ Forall2 (serialises (fun _ => 150))
              (combine (Restaurant.restaurant_pizzas pizza_palace)
                 (seq 0 (List.length (Restaurant.restaurant_pizzas pizza_palace))))
              pizzas.
Proof.
  eexists. split; [reflexivity |].
  exact (proj2 (proj1 (to_dict_with_pizzas_returns (fun _ => 150) pizza_palace)
                  _ _ eq_refl)).
Defined.

(** ** The create-association handler: statuses and the session *)

(** A subscript raises [KeyError] or [TypeError], neither a [ValueError]. *)
Lemma subscript_raises (data : pyvalue) (key : string) (e : exn) :
  subscript data key = inl e -> is_ValueError e = false /\ is_Exception e = true.
Proof.
  unfold subscript. destruct data as [| | | | | d |]; try (intros [= <-]; now split).
  destruct (dict_get d key); [discriminate | intros [= <-]; now split].
Qed.

Section ControllerSession.

Variables RP Session Body : Type.
Variable RestaurantPizza_init : pyvalue -> pyvalue -> pyvalue -> exn + RP.
Variable session_add : RP -> M Session unit.
Variable session_commit : M Session unit.
Variable to_dict : RP -> M Session pyvalue.
Variable jsonify : pyvalue -> exn + Body.

Let body := create_restaurant_pizza_body RP Session Body
              RestaurantPizza_init session_add session_commit to_dict jsonify.
Let handler := create_restaurant_pizza RP Session Body
                 RestaurantPizza_init session_add session_commit to_dict jsonify.

Variable Request : Type.
Variable get_json : Request -> exn + pyvalue.

Let view := create_restaurant_pizza_view RP Session Body
              RestaurantPizza_init session_add session_commit to_dict jsonify
              Request get_json.

(** What the [try] statement answers, from the value [data]. *)
Lemma create_restaurant_pizza_outcomes (data : pyvalue) (s : Session) :
  (forall r s',
      handler data s = Returned r s' ->
      (snd r = 201 /\ body data s = Returned r s')
      \/ (snd r = 400
          /\ exists e,
               body data s = Raised e s'
               /\ is_Exception e = true
               /\ jsonify (errors_body (if is_ValueError e then str_exn e
                                        else "Invalid data"))
                  = inr (fst r)))
  /\ (forall e s',
        handler data s = Raised e s' ->
        (body data s = Raised e s' /\ is_Exception e = false)
        \/ exists e0,
             body data s = Raised e0 s'
             /\ is_Exception e0 = true
             /\ jsonify (errors_body (if is_ValueError e0 then str_exn e0
                                      else "Invalid data"))
                = inl e).
Proof.
  unfold handler, create_restaurant_pizza, try_except. fold body.
  destruct (body data s) as [[b st] s1 | e1 s1] eqn:Eb.
  - split.
    + intros r s' [= <- <-]. left. split; [| reflexivity].
      apply create_restaurant_pizza_body_returns in Eb.
      destruct Eb as (? & ? & ? & ? & ? & ? & ? & ? & _ & _ & _ & _ & _ & _ & _ & _ & [= _ ->]).
      reflexivity.
    + discriminate.
  - unfold bind, lift, ret.
    destruct (is_ValueError e1) eqn:Ev.
    + assert (He : is_Exception e1 = true) by (destruct e1; try discriminate; reflexivity).
      destruct (jsonify (errors_body (str_exn e1))) as [e | b] eqn:Ej; split;
        try discriminate.
      * intros e' s' [= <- <-]. right. exists e1. rewrite Ev. auto.
      * intros r s' [= <- <-]. right. split; [reflexivity |]. exists e1. rewrite Ev. auto.
    + destruct (is_Exception e1) eqn:He.
      * destruct (jsonify (errors_body "Invalid data")) as [e | b] eqn:Ej; split;
          try discriminate.
        -- intros e' s' [= <- <-]. right. exists e1. rewrite Ev. auto.
        -- intros r s' [= <- <-]. right. split; [reflexivity |]. exists e1. rewrite Ev. auto.
      * split; [discriminate |]. intros e' s' [= <- <-]. left. auto.
Qed.

(** X19.  The view function, from the request on.  When it returns, the
    status is 201 or 400 and no other: [request.get_json()] returned the
    data, and the status is 201 exactly when the statements under [try]
    returned, 400 when they raised an [Exception], with the message of a
    [ValueError] or with "Invalid data".  What leaves the view as an
    exception is what [request.get_json()] raised (it is called before the
    [try], the session is untouched, and the answer is Flask's: 400 or 415),
    an exception under [try] that is not an [Exception], or what [jsonify]
    raised on the errors. *)
Theorem create_restaurant_pizza_statuses (request : Request) (s : Session) :
  (forall r s',
      view request s = Returned r s' ->
      exists data,
        get_json request = inr data
        /\ ((snd r = 201 /\ body data s = Returned r s')
            \/ (snd r = 400
                /\ exists e,
                     body data s = Raised e s'
                     /\ is_Exception e = true
                     /\ jsonify (errors_body (if is_ValueError e then str_exn e
                                              else "Invalid data"))
                        = inr (fst r))))
  /\ (forall e s',
        view request s = Raised e s' ->
        (get_json request = inl e /\ s' = s)
        \/ exists data,
             get_json request = inr data
             /\ ((body data s = Raised e s' /\ is_Exception e = false)
                 \/ exists e0,
                      body data s = Raised e0 s'
                      /\ is_Exception e0 = true
                      /\ jsonify (errors_body (if is_ValueError e0 then str_exn e0
                                               else "Invalid data"))
                         = inl e)).
Proof.
  unfold view, create_restaurant_pizza_view, bind, lift.
  destruct (get_json request) as [e0 | data] eqn:Eg.
  - split; [discriminate |]. intros e s' [= <- <-]. now left.
  - fold handler. destruct (create_restaurant_pizza_outcomes data s) as (Hret & Hraise).
    split.
    + intros r s' Hv. exists data. split; [reflexivity |]. now apply Hret.
    + intros e s' Hv. right. exists data. split; [reflexivity |]. now apply Hraise.
Qed.

(** The statements under [try] stop at the first subscript that raises, with
    the session as it was. *)
Lemma create_restaurant_pizza_body_key (data : pyvalue) (s : Session) (key : string) :
  In key ["price"; "pizza_id"; "restaurant_id"] ->
  (forall v, subscript data key <> inr v) ->
  exists e k, subscript data k = inl e /\ body data s = Raised e s.
Proof.
  intros Hk Hno. unfold body, create_restaurant_pizza_body, bind, lift.
  destruct (subscript data "price") as [e | price] eqn:E1; [now exists e, "price" |].
  destruct (subscript data "pizza_id") as [e | pid] eqn:E2; [now exists e, "pizza_id" |].
  destruct (subscript data "restaurant_id") as [e | rid] eqn:E3;
    [now exists e, "restaurant_id" |].
  exfalso. destruct Hk as [<- | [<- | [<- | []]]]; eapply Hno; eassumption.
Qed.

(** X20.  A payload that is not a mapping, or lacks one of [price],
    [pizza_id] and [restaurant_id], is answered with 400 and "Invalid data";
    the constructor is not reached and the session is as it was. *)
Theorem create_restaurant_pizza_missing_key (data : pyvalue) (s : Session)
    (key : string) (b : Body) :
  In key ["price"; "pizza_id"; "restaurant_id"] ->
  (forall v, subscript data key <> inr v) ->
  jsonify (errors_body "Invalid data") = inr b ->
  handler data s = Returned (b, 400) s.
Proof.
  intros Hk Hno Hj.
  destruct (create_restaurant_pizza_body_key data s key Hk Hno) as (e & k & Ee & Eb).
  destruct (subscript_raises data k e Ee) as [Hv He].
  unfold handler, create_restaurant_pizza, try_except. fold body.
  rewrite Eb, Hv, He. unfold bind, lift, ret. now rewrite Hj.
Qed.

(** X21.  When the three keys are there and the constructor raises, the
    handler answers 400, with the message of the exception if that is a
    [ValueError] and with "Invalid data" for any other [Exception]; neither
    [add] nor [commit] ran, so the session is as it was. *)
Theorem create_restaurant_pizza_refused (data : pyvalue) (s : Session)
    (price pizza_id restaurant_id : pyvalue) (e : exn) (b : Body) :
  subscript data "price" = inr price ->
  subscript data "pizza_id" = inr pizza_id ->
  subscript data "restaurant_id" = inr restaurant_id ->
  RestaurantPizza_init price pizza_id restaurant_id = inl e ->
  is_Exception e = true ->
  jsonify (errors_body (if is_ValueError e then str_exn e else "Invalid data")) = inr b ->
  handler data s = Returned (b, 400) s.
Proof.
  intros Hp Hi Hr Hn He Hj.
  assert (Eb : body data s = Raised e s).
  { unfold body, create_restaurant_pizza_body, bind, lift. now rewrite Hp, Hi, Hr, Hn. }
  unfold handler, create_restaurant_pizza, try_except. fold body.
  rewrite Eb, He. unfold bind, lift, ret.
  destruct (is_ValueError e); now rewrite Hj.
Qed.

(** X22.  The handler does not roll back: when [commit] raises an
    [Exception] the answer is 400 (with "Invalid data" unless the exception
    is a [ValueError]) and the session is left as the failed [commit] left
    it, the added object included. *)
Theorem create_restaurant_pizza_commit_fails (data : pyvalue) (s s1 s2 : Session)
    (price pizza_id restaurant_id : pyvalue) (rp : RP) (e : exn) (b : Body) :
  subscript data "price" = inr price ->
  subscript data "pizza_id" = inr pizza_id ->
  subscript data "restaurant_id" = inr restaurant_id ->
  RestaurantPizza_init price pizza_id restaurant_id = inr rp ->
  session_add rp s = Returned tt s1 ->
  session_commit s1 = Raised e s2 ->
  is_Exception e = true ->
  jsonify (errors_body (if is_ValueError e then str_exn e else "Invalid data")) = inr b ->
  handler data s = Returned (b, 400) s2.
Proof.
  intros Hp Hi Hr Hn Ha Hc He Hj.
  unfold handler, create_restaurant_pizza, try_except, create_restaurant_pizza_body,
    bind, lift, ret.
  rewrite Hp, Hi, Hr, Hn, Ha, Hc, He.
  destruct (is_ValueError e); now rewrite Hj.
Qed.

End ControllerSession.

(** A stored association is answered with 201; a request that is not JSON
    leaves the view with Flask's exception. *)
Lemma create_restaurant_pizza_statuses_run :
  (exists r s',
      demo_view (json_request (payload 12 1 1)) seeded = Returned r s'
      /\ exists data,
           demo_get_json (json_request (payload 12 1 1)) = inr data
           /\ ((snd r = 201
                /\ create_restaurant_pizza_body RestaurantPizza demo_session pyvalue
                     demo_init demo_add demo_commit demo_to_dict demo_jsonify data seeded
                   = Returned r s')
               \/ (snd r = 400
                   /\ exists e,
                        create_restaurant_pizza_body RestaurantPizza demo_session pyvalue
                          demo_init demo_add demo_commit demo_to_dict demo_jsonify data seeded
                        = Raised e s'
                        /\ is_Exception e = true
                        /\ demo_jsonify (errors_body (if is_ValueError e then str_exn e
                                                      else "Invalid data"))
                           = inr (fst r))))
  /\ demo_view {| content_type := "text/plain"; parsed := None |} seeded
     = Raised (OtherException "UnsupportedMediaType" "415 Unsupported Media Type") seeded.
Proof.
  split; [| reflexivity].
  eexists. eexists. split; [reflexivity |].
  exact (proj1 (create_restaurant_pizza_statuses RestaurantPizza demo_session pyvalue
                  demo_init demo_add demo_commit demo_to_dict demo_jsonify
                  demo_request demo_get_json
                  (json_request (payload 12 1 1)) seeded) _ _ eq_refl).
Defined.

(** A payload without [pizza_id]. *)
Lemma create_restaurant_pizza_missing_key_run :
  demo_handler (PyDict [(PyStr "price", PyInt 12)]) seeded
  = Returned (errors_body "Invalid data", 400) seeded.
Proof.
  apply (create_restaurant_pizza_missing_key RestaurantPizza demo_session pyvalue
           demo_init demo_add demo_commit demo_to_dict demo_jsonify
           (PyDict [(PyStr "price", PyInt 12)]) seeded "pizza_id").
  - right. left. reflexivity.
  - intros v. discriminate.
  - reflexivity.
Defined.

(** A price of 99. *)
Lemma create_restaurant_pizza_refused_run :
  demo_handler (payload 99 1 1) seeded
  = Returned (errors_body "price must be between 1 and 30", 400) seeded.
Proof.
  exact (create_restaurant_pizza_refused RestaurantPizza demo_session pyvalue
           demo_init demo_add demo_commit demo_to_dict demo_jsonify
           (payload 99 1 1) seeded (PyInt 99) (PyInt 1) (PyInt 1)
           (ValueError "price must be between 1 and 30")
           (errors_body "price must be between 1 and 30")
           eq_refl eq_refl eq_refl eq_refl eq_refl eq_refl).
Defined.

(** A pizza that the store does not know: the row stays pending. *)
Lemma create_restaurant_pizza_commit_fails_run :
  demo_handler (payload 12 7 1) seeded
  = Returned (errors_body "Invalid data", 400)
      {| known_pizzas := [1; 2; 3]; known_restaurants := [1; 2; 3];
         pending := [{| rp_price := 12; rp_pizza_id := 7; rp_restaurant_id := 1 |}];
         rows := [] |}.
Proof.
  exact (create_restaurant_pizza_commit_fails RestaurantPizza demo_session pyvalue
           demo_init demo_add demo_commit demo_to_dict demo_jsonify
           (payload 12 7 1) seeded _ _ (PyInt 12) (PyInt 7) (PyInt 1) _
           (OtherException "IntegrityError" "FOREIGN KEY constraint failed")
           (errors_body "Invalid data")
           eq_refl eq_refl eq_refl eq_refl eq_refl eq_refl eq_refl eq_refl).
Defined.
